(** * The irreversible block log of eosio::chain (block_log.cpp)

    A shallow embedding of the block log: the preamble and entry codecs,
    the read-only views of blocks.log and blocks.index, the catalog of
    rotated segments and the read/write facade [block_log_impl], followed
    by the properties of these operations.

    Conventions.
    - A [uintN_t] is a [Z] in [0, 2^N); wrap-around is written out with
      [u32] and [u64] where the source computes in that type.
    - A file is the list of its bytes; the file system maps a path to a file.
    - A call has one of three outcomes: it returns ([Ok]), it throws
      ([Throw]), or it leaves the language's defined behaviour
      ([Undefined]: a read outside a memory mapping, [x % 0]).
    - The chain layer (blocks, transactions, genesis state) is not part of
      block_log.cpp; it is the interface [chain_layer]. *)

From Stdlib Require Import ZArith Strings.Byte DecimalString.
From stdpp Require Import gmap strings list fin_maps.

Local Open Scope Z_scope.

(** ** Outcomes *)

Inductive exn_class :=
  | block_log_exception
  | block_log_unsupported_version
  | block_log_append_fail
  | out_of_range_exception       (* fc: a stream read past its end *)
  | unpack_exception             (* chain layer: a value failed to decode *)
  | bad_variant_access           (* std::get on the other alternative *)
  | ios_failure.                 (* a file that cannot be opened, mapped, sought or read *)

Inductive exn := Exn (cls : exn_class) (what : string).

Inductive res (A : Type) :=
  | Ok (a : A)
  | Throw (e : exn)
  | Undefined.
Arguments Ok {A} a.
Arguments Throw {A} e.
Arguments Undefined {A}.

#[global] Instance res_ret : MRet res := λ A a, Ok a.
#[global] Instance res_bind : MBind res := λ A B f m,
  match m with
  | Ok a => f a
  | Throw e => Throw e
  | Undefined => Undefined
  end.

(** [EOS_ASSERT(cond, cls, what)] *)
Definition EOS_ASSERT (cond : bool) (cls : exn_class) (what : string) : res unit :=
  if cond then Ok tt else Throw (Exn cls what).

(** [try { body } catch (...) { handler }]: only a thrown exception is caught. *)
Definition try_catch {A} (body : res A) (handler : res A) : res A :=
  match body with
  | Throw _ => handler
  | r => r
  end.

(** ** Fixed-width integers and bytes *)

Definition u32 (z : Z) : Z := z mod 2 ^ 32.
Definition u64 (z : Z) : Z := z mod 2 ^ 64.
(** conversion of a 64-bit pattern to [int64_t] *)
Definition to_int64 (z : Z) : Z :=
  let w := u64 z in if w <? 2 ^ 63 then w else w - 2 ^ 64.
(** conversion of a 32-bit pattern to [int] *)
Definition to_int32 (z : Z) : Z :=
  let w := u32 z in if w <? 2 ^ 31 then w else w - 2 ^ 32.

#[global] Instance byte_eq_decision : EqDecision byte := Byte.byte_eq_dec.

Definition Zlength' {A} (l : list A) : Z := Z.of_nat (length l).

Definition byte_of_Z (z : Z) : byte :=
  default "000"%byte (Byte.of_N (Z.to_N (z mod 256))).

(** little-endian value of a byte string (the host is little-endian) *)
Fixpoint le_decode (bs : list byte) : Z :=
  match bs with
  | [] => 0
  | b :: r => Z.of_N (Byte.to_N b) + 256 * le_decode r
  end.

Fixpoint le_encode (n : nat) (z : Z) : list byte :=
  match n with
  | O => []
  | S n => byte_of_Z z :: le_encode n (z / 256)
  end.

(** [fc::endian_reverse_u32] *)
Definition endian_reverse_u32 (x : Z) : Z := le_decode (rev (le_encode 4 x)).

Definition zeros (n : nat) : list byte := replicate n "000"%byte.

(** ** Versions *)

Definition initial_version : Z := 1.
Definition block_x_start_version : Z := 2.
Definition genesis_state_or_chain_id_version : Z := 3.
Definition pruned_transaction_version : Z := 4.

Definition min_supported_version : Z := initial_version.
Definition max_supported_version : Z := pruned_transaction_version.

(** [block_log::npos] *)
Definition npos : Z := 2 ^ 64 - 1.

Definition contains_genesis_state (version first_block_num : Z) : bool :=
  (version <? genesis_state_or_chain_id_version) || (first_block_num =? 1).

Definition contains_chain_id (version first_block_num : Z) : bool :=
  (genesis_state_or_chain_id_version <=? version) && (1 <? first_block_num).

(** [std::clamp(v, lo, hi)] *)
Definition clamp (v lo hi : Z) : Z := if v <? lo then lo else if hi <? v then hi else v.

Definition is_supported_version (version : Z) : bool :=
  clamp version min_supported_version max_supported_version =? version.

(** [offset_to_block_start]: [sizeof(uint32_t) + 1] from version 4 on *)
Definition offset_to_block_start (version : Z) : Z :=
  if pruned_transaction_version <=? version then 4 + 1 else 0.

(** ** The chain layer *)

(** [chain_id_type] is a 32-byte hash; the default-constructed one is empty. *)
Definition chain_id_type := list byte.
Definition sizeof_chain_id : nat := 32.
Definition chain_id_empty (c : chain_id_type) : bool := bool_decide (c = zeros sizeof_chain_id).

(** [block_id_type]: a hash as well; [block_id_type()] is all zero. *)
Definition block_id_type := list byte.
Definition empty_block_id : block_id_type := zeros 32.

Class chain_layer := {
  genesis_state : Type;
  (** [fc::raw::unpack(ds, genesis_state&)]: the value and the bytes consumed *)
  genesis_unpack : list byte → option (genesis_state * nat);
  genesis_pack : genesis_state → list byte;
  compute_chain_id : genesis_state → chain_id_type;

  transaction_id_type : Type;
  transaction_id_eq_dec :: EqDecision transaction_id_type;
  packed_transaction : Type;
  ptx_id : packed_transaction → transaction_id_type;
  prune_all : packed_transaction → packed_transaction;

  signed_block : Type;
  block_num : signed_block → Z;
  (** [transaction_receipt::trx] of every receipt of the block, in order *)
  transactions : signed_block → list (transaction_id_type + packed_transaction);
  (** the block with the [trx] members of its receipts replaced *)
  set_transactions : signed_block → list (transaction_id_type + packed_transaction) → signed_block;
  (** [signed_block::unpack(ds, none)] and [signed_block::pack(ds, none)] *)
  block_unpack : list byte → option (signed_block * nat);
  block_pack : signed_block → list byte;
  maximum_pruned_pack_size : signed_block → nat;
  (** the legacy serialization, [fc::raw::pack] of [b.to_signed_block_v0()];
      [None] when the block has no legacy form *)
  block_pack_v0 : signed_block → option (list byte);
  block_unpack_v0 : list byte → option (signed_block * nat);

  block_header : Type;
  header_unpack : list byte → option (block_header * nat);
  header_block_num : block_header → Z;
  calculate_id : block_header → block_id_type;

  (** [packed_transaction::cf_compression_type]: [none] is 0 and an
      enumerator, so it lies below [COMPRESSION_TYPE_COUNT] *)
  COMPRESSION_TYPE_COUNT : Z;
  COMPRESSION_TYPE_COUNT_pos : 0 < COMPRESSION_TYPE_COUNT;
}.

Definition cf_compression_none : Z := 0.

(** ** Streams ([fc::datastream]) *)

Record datastream := { ds_buf : list byte; ds_pos : Z }.

Definition ds_tellp (ds : datastream) : Z := ds_pos ds.
Definition ds_remaining_bytes (ds : datastream) : list byte :=
  drop (Z.to_nat (ds_pos ds)) (ds_buf ds).
Definition ds_skip (n : Z) (ds : datastream) : datastream :=
  {| ds_buf := ds_buf ds; ds_pos := ds_pos ds + n |}.

Definition stream_range_error : exn := Exn out_of_range_exception "read datastream out of range".
Definition stream_unpack_error : exn := Exn unpack_exception "unpack failed".

(** [ds.read(buf, n)]: throws when fewer than [n] bytes remain *)
Definition ds_read (n : nat) (ds : datastream) : res (list byte * datastream) :=
  if (0 <=? ds_pos ds) && (ds_pos ds + Z.of_nat n <=? Zlength' (ds_buf ds))
  then Ok (take n (ds_remaining_bytes ds), ds_skip (Z.of_nat n) ds)
  else Throw stream_range_error.

(** a fixed-width little-endian integer, [ds.read(&v, sizeof(v))] *)
Definition ds_read_uint (n : nat) (ds : datastream) : res (Z * datastream) :=
  '(bs, ds') ← ds_read n ds; Ok (le_decode bs, ds').

(** [fc::cfile_datastream::skip(n)], the stream of
    [cfile::create_datastream]: it reads the [n] bytes into a buffer of its
    own, so it throws where fewer remain in the file, while
    [fc::datastream::skip] and [fc::cfile::skip] only move the position *)
Definition cfile_ds_skip (n : Z) (ds : datastream) : res datastream :=
  if (0 <=? ds_pos ds) && (ds_pos ds + n <=? Zlength' (ds_buf ds))
  then Ok (ds_skip n ds)
  else Throw (Exn ios_failure "read").

(** a value decoded by the chain layer *)
Definition ds_unpack {A} (unpack : list byte → option (A * nat)) (ds : datastream)
  : res (A * datastream) :=
  if (0 <=? ds_pos ds) && (ds_pos ds <=? Zlength' (ds_buf ds)) then
    match unpack (ds_remaining_bytes ds) with
    | Some (a, n) => Ok (a, ds_skip (Z.of_nat n) ds)
    | None => Throw stream_unpack_error
    end
  else Throw stream_range_error.

Section codec.
Context `{CL : chain_layer}.

(** ** The preamble *)

Record block_log_preamble := {
  version : Z;
  first_block_num : Z;
  chain_context : genesis_state + chain_id_type;
}.

Definition preamble_chain_id (p : block_log_preamble) : chain_id_type :=
  match chain_context p with
  | inr id => id
  | inl state => compute_chain_id state
  end.

Definition not_setup : exn := Exn block_log_exception "Block log was not setup properly".
Definition UnsupportedVersion : exn :=
  Exn block_log_unsupported_version "Unsupported version of block log.".
(** the two ways a preamble is malformed *)
Definition MalformedPreamble : exn :=
  Exn block_log_exception
    "Block log is not supported. version: ${ver} and first_block_num: ${fbn} does not contain a genesis_state nor a chain_id.".
Definition MalformedPreamble_totem : exn :=
  Exn block_log_exception
    "Expected separator between block log header and blocks was not found".

(** lines 50-61 of [read_from]: the version and the first block number *)
Definition read_version_and_first (ds : datastream) : res (Z * Z * datastream) :=
  '(version, ds) ← ds_read_uint 4 ds;
  _ ← EOS_ASSERT (0 <? version) block_log_exception "Block log was not setup properly";
  _ ← EOS_ASSERT (is_supported_version version) block_log_unsupported_version
        "Unsupported version of block log.";
  if negb (version =? initial_version)
  then '(first_block_num, ds) ← ds_read_uint 4 ds; Ok (version, first_block_num, ds)
  else Ok (version, 1, ds).

(** lines 63-74: the chain context the version and first block number call for *)
Definition read_chain_context (version first_block_num : Z) (ds : datastream)
  : res ((genesis_state + chain_id_type) * datastream) :=
  if contains_genesis_state version first_block_num then
    '(state, ds) ← ds_unpack genesis_unpack ds; Ok (inl state, ds)
  else if contains_chain_id version first_block_num then
    '(id, ds) ← ds_read sizeof_chain_id ds; Ok (inr id, ds)
  else Throw MalformedPreamble.

(** lines 76-86: the separator *)
Definition read_totem (version : Z) (ds : datastream) : res datastream :=
  if negb (version =? initial_version) then
    '(actual_totem, ds) ← ds_read_uint 8 ds;
    _ ← EOS_ASSERT (actual_totem =? npos) block_log_exception
          "Expected separator between block log header and blocks was not found";
    Ok ds
  else Ok ds.

Definition read_from (ds : datastream) : res (block_log_preamble * datastream) :=
  '(version, first_block_num, ds) ← read_version_and_first ds;
  '(ctx, ds) ← read_chain_context version first_block_num ds;
  ds ← read_totem version ds;
  Ok ({| version := version; first_block_num := first_block_num; chain_context := ctx |}, ds).

(** [write_to(ds)]: the bytes handed to the stream, in the order of the
    writes, and how the call ends. With version 1 and a chain id, line 91 has
    written the version when [std::get<genesis_state>] throws at line 106. *)
Definition write_to_stream (p : block_log_preamble) : list byte * res unit :=
  if negb (version p =? initial_version) then
    (le_encode 4 (version p) ++
     le_encode 4 (first_block_num p) ++
     match chain_context p with
     | inr id => id
     | inl state => genesis_pack state
     end ++
     le_encode 8 npos, Ok tt)
  else
    match chain_context p with
    | inl state => (le_encode 4 (version p) ++ genesis_pack state, Ok tt)
    | inr _ => (le_encode 4 (version p), Throw (Exn bad_variant_access "std::get<genesis_state>"))
    end.

(** the bytes of a [write_to] that returns *)
Definition write_to (p : block_log_preamble) : res (list byte) :=
  let '(bytes, r) := write_to_stream p in
  _ ← r; Ok bytes.

(** ** Log entries *)

Record metadata_type := { meta_compression : Z; meta_size : Z }.

Record log_entry_v4 := { meta : metadata_type; block : signed_block }.

Definition unknown_compression : exn := Exn block_log_exception "Unknown compression_type".
Definition unsupported_compression : exn :=
  Exn block_log_exception "Only support compression_type none".
Definition MalformedEntry : exn := Exn block_log_exception "Invalid block log entry size".

(** [unpack(Stream& ds, signed_block& block)], lines 142-165 *)
Definition unpack (ds : datastream) : res (metadata_type * signed_block * datastream) :=
  let start_pos := ds_tellp ds in
  '(size, ds) ← ds_read_uint 4 ds;
  '(compression, ds) ← ds_read_uint 1 ds;
  _ ← EOS_ASSERT (compression <? COMPRESSION_TYPE_COUNT) block_log_exception
        "Unknown compression_type";
  _ ← EOS_ASSERT (compression =? cf_compression_none) block_log_exception
        "Only support compression_type none";
  '(block, ds) ← ds_unpack block_unpack ds;
  let current_stream_offset := u64 (ds_tellp ds - start_pos) in
  let bytes_to_skip := to_int64 (size - 8 - current_stream_offset) in
  _ ← EOS_ASSERT (0 <=? bytes_to_skip) block_log_exception "Invalid block log entry size";
  Ok ({| meta_compression := compression; meta_size := size |}, block, ds_skip bytes_to_skip ds).


(** [unpack(Stream& ds, signed_block& block)] instantiated at
    [fc::cfile_datastream], as [prune_transactions] calls it: line 163 is
    the skip that reads *)
Definition unpack_cfile (ds : datastream) : res (metadata_type * signed_block * datastream) :=
  let start_pos := ds_tellp ds in
  '(size, ds) ← ds_read_uint 4 ds;
  '(compression, ds) ← ds_read_uint 1 ds;
  _ ← EOS_ASSERT (compression <? COMPRESSION_TYPE_COUNT) block_log_exception
        "Unknown compression_type";
  _ ← EOS_ASSERT (compression =? cf_compression_none) block_log_exception
        "Only support compression_type none";
  '(block, ds) ← ds_unpack block_unpack ds;
  let current_stream_offset := u64 (ds_tellp ds - start_pos) in
  let bytes_to_skip := to_int64 (size - 8 - current_stream_offset) in
  _ ← EOS_ASSERT (0 <=? bytes_to_skip) block_log_exception "Invalid block log entry size";
  ds ← cfile_ds_skip bytes_to_skip ds;
  Ok ({| meta_compression := compression; meta_size := size |}, block, ds).

Definition unpack_entry_cfile (ds : datastream) : res (log_entry_v4 * datastream) :=
  '(m, b, ds) ← unpack_cfile ds; Ok ({| meta := m; block := b |}, ds).

(** [pack(block, compression)]: the entry without its trailing position.
    [block.pack] into the fixed buffer throws when the block does not fit. *)
Definition pack_into (len : nat) (payload : list byte) : res (list byte) :=
  if bool_decide (length payload ≤ len)%nat
  then Ok (payload ++ zeros (len - length payload))
  else Throw stream_range_error.

Definition pack (b : signed_block) (compression : Z) : res (list byte) :=
  let padded_size := maximum_pruned_pack_size b in
  let buffer_size := Z.of_nat padded_size + offset_to_block_start max_supported_version in
  let size := u32 (buffer_size + 8) in
  payload ← pack_into padded_size (block_pack b);
  Ok (le_encode 4 size ++ le_encode 1 compression ++ payload).

Definition wrong_block : exn := Exn block_log_exception "Wrong block was read from block log.".
Definition wrong_block_header : exn :=
  Exn block_log_exception "Wrong block header was read from block log.".
Definition unsupported_compression_id : exn :=
  Exn block_log_exception "Only none compression type is supported.".

(** [read_block(ds, version, expect_block_num)] *)
Definition read_block (ds : datastream) (version expect_block_num : Z)
  : res (signed_block * datastream) :=
  '(b, ds) ←
    (if pruned_transaction_version <=? version
     then '(_, b, ds) ← unpack ds; Ok (b, ds)
     else ds_unpack block_unpack_v0 ds);
  _ ← (if negb (expect_block_num =? 0)
       then EOS_ASSERT (block_num b =? expect_block_num) block_log_exception
              "Wrong block was read from block log."
       else Ok tt);
  Ok (b, ds).

(** the size and compression tag in front of a version-4 block,
    lines 250-257 of [read_block_id] *)
Definition read_entry_prefix (ds : datastream) (version : Z) : res datastream :=
  if pruned_transaction_version <=? version
  then '(size, ds) ← ds_read_uint 4 ds;
       '(compression, ds) ← ds_read_uint 1 ds;
       _ ← EOS_ASSERT (compression =? cf_compression_none) block_log_exception
             "Only none compression type is supported.";
       Ok ds
  else Ok ds.

(** [read_block_id(ds, version, expect_block_num)] *)
Definition read_block_id (ds : datastream) (version expect_block_num : Z)
  : res block_id_type :=
  ds ← read_entry_prefix ds version;
  '(bh, ds) ← ds_unpack header_unpack ds;
  _ ← EOS_ASSERT (header_block_num bh =? expect_block_num) block_log_exception
        "Wrong block header was read from block log.";
  Ok (calculate_id bh).

(** ** The file system and memory-mapped files *)

(** [read_buffer<T>(buf + off)] on a mapping of [data]: defined inside it only *)
Definition read_buffer (n : nat) (data : list byte) (off : Z) : res Z :=
  if (0 <=? off) && (off + Z.of_nat n <=? Zlength' data)
  then Ok (le_decode (take n (drop (Z.to_nat off) data)))
  else Undefined.

Definition open_failure : exn := Exn ios_failure "failed opening file".

(** [mapped_file_source::open(path)]: the file must exist and cannot be empty *)
Definition mapped_file_open (fs : gmap string (list byte)) (path : string) : res (list byte) :=
  match fs !! path with
  | Some (b :: data) => Ok (b :: data)
  | _ => Throw open_failure
  end.

(** [boost::filesystem::resize_file]: truncates, or extends with zero bytes *)
Definition resize (data : list byte) (new_size : Z) : list byte :=
  take (Z.to_nat new_size) data ++ zeros (Z.to_nat new_size - length data).

Definition resize_file (fs : gmap string (list byte)) (path : string) (new_size : Z)
  : res (gmap string (list byte)) :=
  match fs !! path with
  | Some data => Ok (<[path := resize data new_size]> fs)
  | None => Throw (Exn ios_failure "resize_file")
  end.

(** ** block_log_data: the read-only view of a blocks.log file *)

Record block_log_data := {
  log_file : list byte;
  log_preamble : block_log_preamble;
  first_block_pos : Z;
}.

Definition log_size (l : block_log_data) : Z := Zlength' (log_file l).
Definition log_version (l : block_log_data) : Z := version (log_preamble l).
Definition log_first_block_num (l : block_log_data) : Z := first_block_num (log_preamble l).
Definition log_chain_id (l : block_log_data) : chain_id_type := preamble_chain_id (log_preamble l).

Definition block_log_data_open (fs : gmap string (list byte)) (path : string)
  : res block_log_data :=
  data ← mapped_file_open fs path;
  '(p, ds) ← read_from {| ds_buf := data; ds_pos := 0 |};
  Ok {| log_file := data; log_preamble := p; first_block_pos := ds_tellp ds |}.

Definition last_block_position (l : block_log_data) : res Z :=
  read_buffer 8 (log_file l) (log_size l - 8).

Definition invalid_block_position : exn :=
  Exn block_log_exception "Invalid block position ${position}".

Definition block_num_at (l : block_log_data) (position : Z) : res Z :=
  _ ← EOS_ASSERT (position <=? log_size l) block_log_exception
        "Invalid block position ${position}";
  let blknum_offset := 14 + offset_to_block_start (log_version l) in
  prev_block_num ← read_buffer 4 (log_file l) (position + blknum_offset);
  Ok (u32 (endian_reverse_u32 prev_block_num + 1)).

Definition last_block_num (l : block_log_data) : res Z :=
  pos ← last_block_position l; block_num_at l pos.

Definition log_num_blocks (l : block_log_data) : res Z :=
  if first_block_pos l =? log_size l then Ok 0
  else last ← last_block_num l; Ok (u32 (last - log_first_block_num l + 1)).

Definition datastream_at (l : block_log_data) (pos : Z) : datastream :=
  {| ds_buf := drop (Z.to_nat pos) (log_file l); ds_pos := 0 |}.

Definition light_validate_block_entry_at (l : block_log_data) (pos expected_block_num : Z)
  : res unit :=
  actual_block_num ← block_num_at l pos;
  _ ← EOS_ASSERT (actual_block_num =? expected_block_num) block_log_exception
        "At position ${pos} expected to find block number ${exp_bnum} but found ${act_bnum}";
  if pruned_transaction_version <=? log_version l then
    entry_size ← read_buffer 4 (log_file l) pos;
    entry_position ← read_buffer 8 (log_file l) (pos + entry_size - 8);
    EOS_ASSERT (pos =? entry_position) block_log_exception
      "The last 8 bytes in the block entry of block number ${n} does not contain its own position"
  else Ok tt.

(** ** block_log_index: the read-only view of a blocks.index file *)

Record block_log_index := { index_file_data : list byte }.

Definition index_size (i : block_log_index) : Z := Zlength' (index_file_data i).

Definition block_log_index_open (fs : gmap string (list byte)) (path : string)
  : res block_log_index :=
  data ← mapped_file_open fs path;
  _ ← EOS_ASSERT (Zlength' data mod 8 =? 0) block_log_exception
        "The size of ${file} is not the multiple of sizeof(uint64_t)";
  Ok {| index_file_data := data |}.

(** [back()]: the last slot, [*(end() - 1)] *)
Definition index_back (i : block_log_index) : res Z :=
  read_buffer 8 (index_file_data i) (index_size i - 8).
(** [num_blocks()] returns an [int] *)
Definition index_num_blocks (i : block_log_index) : Z := to_int32 (index_size i / 8).
Definition nth_block_position (i : block_log_index) (n : Z) : res Z :=
  read_buffer 8 (index_file_data i) (8 * n).

(** ** block_log_archive: both views of one directory *)

Definition path_append (dir name : string) : string := (dir +:+ "/" +:+ name)%string.

Record block_log_archive := {
  block_file_name : string;
  index_file_name : string;
  log_data : block_log_data;
  log_index : block_log_index;
}.

Definition block_log_archive_open (fs : gmap string (list byte)) (block_dir : string)
  : res block_log_archive :=
  let block_file_name := path_append block_dir "blocks.log" in
  let index_file_name := path_append block_dir "blocks.index" in
  log_data ← block_log_data_open fs block_file_name;
  log_index ← block_log_index_open fs index_file_name;
  log_num_blocks ← log_num_blocks log_data;
  let index_num_blocks := u32 (index_num_blocks log_index) in
  _ ← EOS_ASSERT (log_num_blocks =? index_num_blocks) block_log_exception
        "${block_file_name} says it has ${log_num_blocks} blocks which disagrees with ${index_num_blocks} indicated by ${index_file_name}";
  Ok {| block_file_name := block_file_name; index_file_name := index_file_name;
        log_data := log_data; log_index := log_index |}.

End codec.

(** ** Stateful code: a state that survives a throw *)

Definition M (S A : Type) : Type := S → res A * S.

#[global] Instance M_ret {S} : MRet (M S) := λ A a s, (Ok a, s).
#[global] Instance M_bind {S} : MBind (M S) := λ A B f m s,
  match m s with
  | (Ok a, s') => f a s'
  | (Throw e, s') => (Throw e, s')
  | (Undefined, s') => (Undefined, s')
  end.

Definition gets {S A} (f : S → A) : M S A := λ s, (Ok (f s), s).
Definition modify {S} (f : S → S) : M S unit := λ s, (Ok tt, f s).
Definition lift {S A} (r : res A) : M S A := λ s, (r, s).
Definition throw {S A} (e : exn) : M S A := lift (Throw e).
Definition M_ASSERT {S} (cond : bool) (cls : exn_class) (what : string) : M S unit :=
  lift (EOS_ASSERT cond cls what).
(** [try { body } catch (...) { handler }] *)
Definition M_try {S A} (body handler : M S A) : M S A := λ s,
  match body s with
  | (Throw _, s') => handler s'
  | r => r
  end.
(** run a computation on a part of the state *)
Definition zoom {S T A} (proj : S → T) (upd : T → S → S) (m : M T A) : M S A := λ s,
  let '(r, t) := m (proj s) in (r, upd t s).

(** ** Files opened for reading and writing ([fc::cfile]) *)

Abbreviation file_system := (gmap string (list byte)).

Record cfile := { file_path : string; cf_is_open : bool; cf_pos : Z }.

Definition cf_with_pos (f : cfile) (pos : Z) : cfile :=
  {| file_path := file_path f; cf_is_open := cf_is_open f; cf_pos := pos |}.
Definition cf_with_open (f : cfile) (o : bool) : cfile :=
  {| file_path := file_path f; cf_is_open := o; cf_pos := if o then 0 else cf_pos f |}.

(** a write at [pos]: overwrites, and extends the file where it has to *)
Definition write_at (data : list byte) (pos : Z) (bytes : list byte) : list byte :=
  take (Z.to_nat pos) (data ++ zeros (Z.to_nat pos - length data)) ++ bytes ++
  drop (Z.to_nat pos + length bytes) data.

Definition cfile_error (what : string) : exn := Exn ios_failure what.

Definition cfile_contents : M (file_system * cfile) (list byte) := λ '(fs, f),
  match fs !! file_path f with
  | Some data => (Ok data, (fs, f))
  | None => (Throw (cfile_error "file is gone"), (fs, f))
  end.

Definition cfile_tellp : M (file_system * cfile) Z := gets (λ '(fs, f), cf_pos f).

Definition cfile_seek (pos : Z) : M (file_system * cfile) unit :=
  modify (λ '(fs, f), (fs, cf_with_pos f pos)).

Definition cfile_seek_end (off : Z) : M (file_system * cfile) unit :=
  data ← cfile_contents;
  if 0 <=? Zlength' data + off
  then cfile_seek (Zlength' data + off)
  else throw (cfile_error "seek_end").

Definition cfile_read (n : nat) : M (file_system * cfile) (list byte) :=
  data ← cfile_contents;
  pos ← cfile_tellp;
  if (0 <=? pos) && (pos + Z.of_nat n <=? Zlength' data) then
    _ ← cfile_seek (pos + Z.of_nat n);
    mret (take n (drop (Z.to_nat pos) data))
  else throw (cfile_error "read").

Definition cfile_write (bytes : list byte) : M (file_system * cfile) unit :=
  data ← cfile_contents;
  pos ← cfile_tellp;
  modify (λ '(fs, f),
    (<[file_path f := write_at data pos bytes]> fs, cf_with_pos f (pos + Zlength' bytes))).

(** [open(truncate_rw_mode)]: creates the file or empties it *)
Definition cfile_open_truncate : M (file_system * cfile) unit :=
  modify (λ '(fs, f), (<[file_path f := []]> fs, cf_with_open f true)).

Definition cfile_close : M (file_system * cfile) unit :=
  modify (λ '(fs, f), (fs, cf_with_open f false)).

(** [preamble.write_to(block_file)]: what is written before a throw stays
    written *)
Definition cfile_write_to `{CL : chain_layer} (p : block_log_preamble)
  : M (file_system * cfile) unit :=
  let '(bytes, r) := write_to_stream p in
  _ ← cfile_write bytes;
  lift r.

(** a stream reader run on the file at its current position *)
Definition cfile_stream {A} (reader : datastream → res (A * datastream))
  : M (file_system * cfile) A :=
  data ← cfile_contents;
  pos ← cfile_tellp;
  '(a, ds) ← lift (reader {| ds_buf := data; ds_pos := pos |});
  _ ← cfile_seek (ds_pos ds);
  mret a.

(** [boost::filesystem::rename] and [remove] *)
Definition fs_rename (old new : string) : M file_system unit := λ fs,
  match fs !! old with
  | Some data => (Ok tt, <[new := data]> (delete old fs))
  | None => (Throw (Exn ios_failure "rename"), fs)
  end.

Definition fs_remove (path : string) : M file_system unit := modify (delete path).

(** [boost::filesystem::resize_file] as a step on the file system *)
Definition lift_resize (path : string) (new_size : Z) : M file_system unit := λ fs,
  match resize_file fs path new_size with
  | Ok fs' => (Ok tt, fs')
  | Throw e => (Throw e, fs)
  | Undefined => (Undefined, fs)
  end.

(** ** Paths of rotated segments *)

(** a path as its directory and its last component *)
Record path := { parent_path : string; filename : string }.

Definition path_string (p : path) : string := path_append (parent_path p) (filename p).
(** [replace_extension] on a segment's base name, which carries no extension *)
Definition replace_extension (p : path) (ext : string) : string :=
  (path_string p +:+ "." +:+ ext)%string.

(** [printf]'s [%d] *)
Definition fmt_d (z : Z) : string := NilZero.string_of_int (Z.to_int (to_int32 z)).

(** [snprintf(filename, bufsize, "blocks-%d-%d", first, last)] *)
Definition segment_filename (first last : Z) : string :=
  ("blocks-" +:+ fmt_d first +:+ "-" +:+ fmt_d last)%string.

(** ** Relations kept by stateful code *)

(** every run of [m], whatever its outcome, relates the states by [R] *)
Definition preserves {S A} (R : S → S → Prop) (m : M S A) : Prop :=
  ∀ s r s', m s = (r, s') → R s s'.

(** a file operation keeps the path of the file *)
Definition same_path (w w' : file_system * cfile) : Prop :=
  file_path (snd w') = file_path (snd w).

(** a file operation that only moves the position in the file *)
Definition read_only (w w' : file_system * cfile) : Prop :=
  fst w' = fst w ∧ file_path (snd w') = file_path (snd w).

Section catalog.
Context `{CL : chain_layer}.

(** ** The catalog of rotated segments *)

Record mapped_type := { last_block_num_of : Z; filename_base : path }.

(** [boost::container::flat_map]: a vector of pairs kept sorted by key *)
Abbreviation collection_t := (list (Z * mapped_type)).

Fixpoint collection_find (k : Z) (c : collection_t) : option mapped_type :=
  match c with
  | [] => None
  | (k', v) :: r => if k =? k' then Some v else collection_find k r
  end.

(** [emplace]: inserts at the sorted position unless the key is present *)
Fixpoint collection_emplace (k : Z) (v : mapped_type) (c : collection_t) : collection_t :=
  match c with
  | [] => [(k, v)]
  | (k', v') :: r =>
      if k <? k' then (k, v) :: c
      else if k =? k' then c
      else (k', v') :: collection_emplace k v r
  end.

Fixpoint collection_insert_or_assign (k : Z) (v : mapped_type) (c : collection_t)
  : collection_t :=
  match c with
  | [] => [(k, v)]
  | (k', v') :: r =>
      if k <? k' then (k, v) :: c
      else if k =? k' then (k, v) :: r
      else (k', v') :: collection_insert_or_assign k v r
  end.

(** [upper_bound(k)]: the ordinal of the first item whose key exceeds [k] *)
Fixpoint collection_upper_bound (k : Z) (c : collection_t) : nat :=
  match c with
  | [] => 0
  | (k', _) :: r => if k <? k' then 0 else S (collection_upper_bound k r)
  end.

Record block_log_catalog := {
  archive_dir : option string;            (* [None]: the empty path *)
  max_retained_files : Z;
  collection : collection_t;
  active_index : option nat;              (* [None]: [npos] *)
  cat_log_data : option block_log_data;   (* [None]: not open *)
  cat_log_index : option block_log_index;
  chain_id : chain_id_type;
}.

Definition cat_with_collection (c : block_log_catalog) (coll : collection_t)
  (active : option nat) : block_log_catalog :=
  {| archive_dir := archive_dir c; max_retained_files := max_retained_files c;
     collection := coll; active_index := active;
     cat_log_data := cat_log_data c; cat_log_index := cat_log_index c;
     chain_id := chain_id c |}.
Definition cat_with_active (c : block_log_catalog) (active : option nat) : block_log_catalog :=
  cat_with_collection c (collection c) active.
Definition cat_with_log_data (c : block_log_catalog) (l : option block_log_data)
  : block_log_catalog :=
  {| archive_dir := archive_dir c; max_retained_files := max_retained_files c;
     collection := collection c; active_index := active_index c;
     cat_log_data := l; cat_log_index := cat_log_index c; chain_id := chain_id c |}.
Definition cat_with_log_index (c : block_log_catalog) (i : option block_log_index)
  : block_log_catalog :=
  {| archive_dir := archive_dir c; max_retained_files := max_retained_files c;
     collection := collection c; active_index := active_index c;
     cat_log_data := cat_log_data c; cat_log_index := i; chain_id := chain_id c |}.
Definition cat_with_chain_id (c : block_log_catalog) (id : chain_id_type)
  : block_log_catalog :=
  {| archive_dir := archive_dir c; max_retained_files := max_retained_files c;
     collection := collection c; active_index := active_index c;
     cat_log_data := cat_log_data c; cat_log_index := cat_log_index c; chain_id := id |}.

Definition catalog_empty (c : block_log_catalog) : bool :=
  match collection c with [] => true | _ => false end.

Definition on_fs {T A} (m : M file_system A) : M (file_system * T) A :=
  zoom fst (λ fs '(_, t), (fs, t)) m.
Definition on_snd {T A} (m : M T A) : M (file_system * T) A :=
  zoom snd (λ t '(fs, _), (fs, t)) m.

(** [log_data.open(path)] and [log_index.open(path)] of the catalog's views;
    a view that failed to open is left closed *)
Definition cat_open_log_data (p : string) : M (file_system * block_log_catalog) unit :=
  λ '(fs, c),
  match block_log_data_open fs p with
  | Ok l => (Ok tt, (fs, cat_with_log_data c (Some l)))
  | Throw e => (Throw e, (fs, cat_with_log_data c None))
  | Undefined => (Undefined, (fs, c))
  end.

Definition cat_open_log_index (p : string) : M (file_system * block_log_catalog) unit :=
  λ '(fs, c),
  match block_log_index_open fs p with
  | Ok i => (Ok tt, (fs, cat_with_log_index c (Some i)))
  | Throw e => (Throw e, (fs, cat_with_log_index c None))
  | Undefined => (Undefined, (fs, c))
  end.

(** [set_active_item(block_num)] *)
Definition set_active_item_body (block_num : Z) : M (file_system * block_log_catalog) bool :=
  c ← gets snd;
  reuse ←
    match active_index c with
    | Some i =>
        match collection c !! i with
        | Some (first, item) =>
            if (first <=? block_num) && (block_num <=? last_block_num_of item) then
              _ ← match cat_log_index c with
                  | Some _ => mret tt
                  | None => cat_open_log_index (replace_extension (filename_base item) "index")
                  end;
              mret true
            else mret false
        | None => lift Undefined          (* [*collection.nth(i)] past the end *)
        end
    | None => mret false
    end;
  if (reuse : bool) then mret true else
  match collection c with
  | [] => mret false
  | (first, _) :: _ =>
      if block_num <? first then mret false else
      let i := (collection_upper_bound block_num (collection c) - 1)%nat in
      match collection c !! i with
      | Some (_, item) =>
          if block_num <=? last_block_num_of item then
            _ ← cat_open_log_data (replace_extension (filename_base item) "log");
            _ ← cat_open_log_index (replace_extension (filename_base item) "index");
            _ ← on_snd (modify (λ c, cat_with_active c (Some i)));
            mret true
          else mret false
      | None => lift Undefined
      end
  end.

Definition set_active_item (block_num : Z) : M (file_system * block_log_catalog) bool :=
  M_try (set_active_item_body block_num)
        (_ ← on_snd (modify (λ c, cat_with_active c None)); mret false).

(** [datastream_for_block(block_num)]: the stream and the segment's version *)
Definition datastream_for_block (block_num : Z) (c : block_log_catalog)
  : res (datastream * Z) :=
  match cat_log_data c, cat_log_index c with
  | Some l, Some i =>
      pos ← nth_block_position i (u32 (block_num - log_first_block_num l));
      Ok (datastream_at l pos, version (log_preamble l))
  | _, _ => Undefined                     (* a view that is not open *)
  end.

(** the loop of [add] over the evicted items *)
Fixpoint evict_files (adir : option string) (items : collection_t) : M file_system unit :=
  match items with
  | [] => mret tt
  | (_, item) :: r =>
      let name := filename_base item in
      _ ← match adir with
          | None =>
              _ ← fs_remove (replace_extension name "log");
              fs_remove (replace_extension name "index")
          | Some dir =>
              let new_name := {| parent_path := dir; filename := filename name |} in
              _ ← fs_rename (replace_extension name "log") (replace_extension new_name "log");
              fs_rename (replace_extension name "index") (replace_extension new_name "index")
          end;
      evict_files adir r
  end.

(** how many of the oldest items [add] evicts *)
Definition items_to_erase (c : block_log_catalog) : nat :=
  let n := length (collection c) in
  if max_retained_files c <=? Z.of_nat n then
    if 0 <? max_retained_files c
    then (n - Z.to_nat (max_retained_files c) + 1)%nat else n
  else 0%nat.

(** [add(start_block_num, end_block_num, filename_base)] *)
Definition catalog_add (start_block_num end_block_num : Z) (base : path)
  : M (file_system * block_log_catalog) unit :=
  c ← gets snd;
  _ ← (if max_retained_files c <=? Z.of_nat (length (collection c)) then
         let items_to_erase := items_to_erase c in
         _ ← on_fs (evict_files (archive_dir c) (take items_to_erase (collection c)));
         on_snd (modify (λ c,
           cat_with_collection c (drop items_to_erase (collection c))
             match active_index c with
             | None => None
             | Some a => if bool_decide (a < items_to_erase)%nat then None
                         else Some (a - items_to_erase)%nat
             end))
       else mret tt);
  if 0 <? max_retained_files c
  then on_snd (modify (λ c,
         cat_with_collection c
           (collection_emplace start_block_num
              {| last_block_num_of := end_block_num; filename_base := base |} (collection c))
           (active_index c)))
  else mret tt.

(** ** Building the index from the log *)

(** [reverse_block_position_iterator] over a mapping of the log *)
Record reverse_block_position_iterator := {
  it_data : list byte;
  begin_position : Z;
  current_position : Z;
}.

Definition make_reverse_block_position_iterator (data : list byte) (first_block_position : Z)
  : reverse_block_position_iterator :=
  {| it_data := data;
     begin_position := u64 (first_block_position - 8);
     current_position := u64 (Zlength' data - 8) |}.

Definition it_get_value (it : reverse_block_position_iterator) : res Z :=
  if current_position it <=? begin_position it then Ok npos
  else read_buffer 8 (it_data it) (current_position it).

Definition it_next (it : reverse_block_position_iterator) : res reverse_block_position_iterator :=
  _ ← EOS_ASSERT ((begin_position it <? current_position it) &&
                  (current_position it <? Zlength' (it_data it)))
        block_log_exception
        "Block log file formatting is incorrect, it contains a block position value: ${pos}, which is not in the range of (${begin_pos},${last_pos})";
  v ← read_buffer 8 (it_data it) (current_position it);
  Ok {| it_data := it_data it; begin_position := begin_position it;
        current_position := u64 (v - 8) |}.

(** [index_writer]: a mapping of [blocks_expected * 8] bytes, written from its end *)
Record index_writer := { current_offset : Z; index_mapping : list byte }.

Definition index_writer_new (blocks_expected : Z) : index_writer :=
  {| current_offset := blocks_expected * 8;
     index_mapping := zeros (Z.to_nat (blocks_expected * 8)) |}.

Definition index_writer_write (w : index_writer) (pos : Z) : index_writer :=
  {| current_offset := current_offset w - 8;
     index_mapping := write_at (index_mapping w) (current_offset w - 8) (le_encode 8 pos) |}.

(** the loop of [construct_index]; at most [num_blocks] rounds *)
Fixpoint construct_index_loop (fuel : nat) (it : reverse_block_position_iterator)
  (w : index_writer) (blocks_found : Z)
  : res (index_writer * Z) * index_writer :=
  match fuel with
  | O => (Ok (w, blocks_found), w)
  | S fuel =>
      match it_get_value it with
      | Ok v =>
          if v =? npos then (Ok (w, blocks_found), w)
          else
            let w' := index_writer_write w v in
            match it_next it with
            | Ok it' => construct_index_loop fuel it' w' (blocks_found + 1)
            | Throw e => (Throw e, w')
            | Undefined => (Undefined, w')
            end
      | Throw e => (Throw e, w)
      | Undefined => (Undefined, w)
      end
  end.

Definition construct_index (block_file_name index_file_name : string) : M file_system unit :=
  λ fs,
  match block_log_data_open fs block_file_name with
  | Ok l =>
      match log_num_blocks l with
      | Ok num_blocks =>
          if num_blocks =? 0 then (Ok tt, fs)
          else
            let '(r, w) :=
              construct_index_loop (Z.to_nat num_blocks)
                (make_reverse_block_position_iterator (log_file l) (first_block_pos l))
                (index_writer_new num_blocks) 0 in
            let fs' := <[index_file_name := index_mapping w]> fs in
            match r with
            | Ok (_, blocks_found) =>
                (EOS_ASSERT (blocks_found =? num_blocks) block_log_exception
                   "Block log file at '${blocks_log}' formatting indicated last block: ${last_block_num}, first block: ${first_block_num}, but found ${num} blocks",
                 fs')
            | Throw e => (Throw e, fs')
            | Undefined => (Undefined, fs')
            end
      | Throw e => (Throw e, fs)
      | Undefined => (Undefined, fs)
      end
  | Throw e => (Throw e, fs)
  | Undefined => (Undefined, fs)
  end.

(** ** Opening the catalog *)

(** [index_file.open("r"); index_file.seek_end(-8); index_file.read(&pos, 8)] *)
Definition read_last_position (idx : list byte) : res Z :=
  if 0 <=? Zlength' idx - 8
  then Ok (le_decode (drop (Z.to_nat (Zlength' idx - 8)) idx))
  else Throw (cfile_error "seek_end").

(** [index_matches_data(index_path, log)] *)
Definition index_matches_data (fs : file_system) (index_path : string) (log : block_log_data)
  : res bool :=
  match fs !! index_path with
  | Some idx =>
      num_blocks ← log_num_blocks log;
      if negb (u64 (Zlength' idx) / 8 =? num_blocks) then
        (* make sure the last 8 bytes of index and log matches *)
        pos ← read_last_position idx;
        last ← last_block_position log;
        Ok (pos =? last)
      else Ok false
  | None => Ok false
  end.

(** the body of the lambda of [open], run on one segment [base].log *)
Definition catalog_open_segment (base : path) : M (file_system * block_log_catalog) unit :=
  let log_path := replace_extension base "log" in
  let index_path := replace_extension base "index" in
  fs ← gets fst;
  log ← lift (block_log_data_open fs log_path);
  c ← gets snd;
  _ ← (if chain_id_empty (chain_id c)
       then on_snd (modify (λ c, cat_with_chain_id c (log_chain_id log)))
       else M_ASSERT (bool_decide (chain_id c = log_chain_id log)) block_log_exception
              "block log file ${path} has a different chain id");
  matches ← lift (index_matches_data fs index_path log);
  _ ← (if negb matches then on_fs (construct_index log_path index_path) else mret tt);
  last ← lift (last_block_num log);
  c ← gets snd;
  match collection_find (log_first_block_num log) (collection c) with
  | Some existing =>
      if last <=? last_block_num_of existing then mret tt
      else on_snd (modify (λ c, cat_with_collection c
             (collection_insert_or_assign (log_first_block_num log)
                {| last_block_num_of := last; filename_base := base |} (collection c))
             (active_index c)))
  | None =>
      on_snd (modify (λ c, cat_with_collection c
        (collection_insert_or_assign (log_first_block_num log)
           {| last_block_num_of := last; filename_base := base |} (collection c))
        (active_index c)))
  end.

(** [open(block_dir)] over the segments the directory iterator yields *)
Fixpoint catalog_open (segments : list path) : M (file_system * block_log_catalog) unit :=
  match segments with
  | [] => mret tt
  | base :: r => _ ← catalog_open_segment base; catalog_open r
  end.

(** ** block_log_impl: the log and the index opened for reading and writing *)

Record block_log_impl := {
  fs : file_system;                 (* the directory tree the log lives in *)
  data_dir : string;                (* the parent path of both files *)
  head : option signed_block;
  catalog : block_log_catalog;
  block_file : cfile;
  index_file : cfile;
  genesis_written_to_block_log : bool;
  preamble : block_log_preamble;
  stride : Z;
}.

Definition impl_with_files (s : block_log_impl) (fs' : file_system) (bf idxf : cfile)
  : block_log_impl :=
  {| fs := fs'; data_dir := data_dir s; head := head s; catalog := catalog s;
     block_file := bf; index_file := idxf;
     genesis_written_to_block_log := genesis_written_to_block_log s;
     preamble := preamble s; stride := stride s |}.
Definition impl_with_catalog (s : block_log_impl) (fs' : file_system) (c : block_log_catalog)
  : block_log_impl :=
  {| fs := fs'; data_dir := data_dir s; head := head s; catalog := c;
     block_file := block_file s; index_file := index_file s;
     genesis_written_to_block_log := genesis_written_to_block_log s;
     preamble := preamble s; stride := stride s |}.
Definition impl_with_head (s : block_log_impl) (h : option signed_block) : block_log_impl :=
  {| fs := fs s; data_dir := data_dir s; head := h; catalog := catalog s;
     block_file := block_file s; index_file := index_file s;
     genesis_written_to_block_log := genesis_written_to_block_log s;
     preamble := preamble s; stride := stride s |}.
Definition impl_with_preamble (s : block_log_impl) (p : block_log_preamble) : block_log_impl :=
  {| fs := fs s; data_dir := data_dir s; head := head s; catalog := catalog s;
     block_file := block_file s; index_file := index_file s;
     genesis_written_to_block_log := genesis_written_to_block_log s;
     preamble := p; stride := stride s |}.

Definition on_block_file {A} (m : M (file_system * cfile) A) : M block_log_impl A :=
  zoom (λ s, (fs s, block_file s)) (λ '(fs', f) s, impl_with_files s fs' f (index_file s)) m.
Definition on_index_file {A} (m : M (file_system * cfile) A) : M block_log_impl A :=
  zoom (λ s, (fs s, index_file s)) (λ '(fs', f) s, impl_with_files s fs' (block_file s) f) m.
Definition on_catalog {A} (m : M (file_system * block_log_catalog) A) : M block_log_impl A :=
  zoom (λ s, (fs s, catalog s)) (λ '(fs', c) s, impl_with_catalog s fs' c) m.
Definition on_file_system {A} (m : M file_system A) : M block_log_impl A :=
  zoom fs (λ fs' s, impl_with_files s fs' (block_file s) (index_file s)) m.

Definition AppendBeforeReset : exn :=
  Exn block_log_append_fail "Cannot append to block log until the genesis is first written".
Definition IndexDesync : exn :=
  Exn block_log_append_fail "Append to index file occuring at wrong position.".

(** [write_log_entry(b, segment_compression)] *)
Definition write_log_entry (b : signed_block) (segment_compression : Z) : M block_log_impl Z :=
  pos ← on_block_file cfile_tellp;
  p ← gets preamble;
  buffer ←
    (if pruned_transaction_version <=? version p
     then lift (pack b segment_compression)
     else
       match block_pack_v0 b with
       | None => throw (Exn block_log_append_fail "Unable to convert block to legacy format")
       | Some bytes =>
           _ ← M_ASSERT (segment_compression =? cf_compression_none) block_log_append_fail
                 "the compression must be none for legacy format";
           mret bytes
       end);
  _ ← on_block_file (cfile_write buffer);
  _ ← on_block_file (cfile_write (le_encode 8 pos));
  _ ← on_index_file (cfile_write (le_encode 8 pos));
  mret pos.

(** [split_log()]; [head] is set by the caller *)
Definition split_log : M block_log_impl unit :=
  _ ← on_block_file cfile_close;
  _ ← on_index_file cfile_close;
  s ← gets id;
  match head s with
  | None => lift Undefined                  (* [this->head->block_num()] on a null head *)
  | Some h =>
      let filename := segment_filename (first_block_num (preamble s)) (block_num h) in
      let base := {| parent_path := data_dir s; filename := filename |} in
      _ ← on_catalog (catalog_add (first_block_num (preamble s)) (block_num h) base);
      _ ← on_file_system (fs_rename (file_path (block_file s)) (replace_extension base "log"));
      _ ← on_file_system (fs_rename (file_path (index_file s)) (replace_extension base "index"));
      _ ← on_block_file cfile_open_truncate;
      _ ← on_index_file cfile_open_truncate;
      let new_preamble :=
        {| version := max_supported_version;
           first_block_num := u32 (block_num h + 1);
           chain_context := inr (preamble_chain_id (preamble s)) |} in
      _ ← modify (λ s, impl_with_preamble s new_preamble);
      on_block_file (cfile_write_to new_preamble)
  end.

(** lines 835-846 of [append]: the guards, the entry, the new head *)
Definition append_entry (b : signed_block) (segment_compression : Z) : M block_log_impl Z :=
  genesis_written ← gets genesis_written_to_block_log;
  _ ← M_ASSERT genesis_written block_log_append_fail
        "Cannot append to block log until the genesis is first written";
  _ ← on_block_file (cfile_seek_end 0);
  _ ← on_index_file (cfile_seek_end 0);
  tellp ← on_index_file cfile_tellp;
  p ← gets preamble;
  _ ← M_ASSERT (tellp =? 8 * u32 (block_num b - first_block_num p)) block_log_append_fail
        "Append to index file occuring at wrong position.";
  pos ← write_log_entry b segment_compression;
  _ ← modify (λ s, impl_with_head s (Some b));
  mret pos.

(** [block_log_impl::append(b, segment_compression)] *)
Definition append (b : signed_block) (segment_compression : Z) : M block_log_impl Z :=
  pos ← append_entry b segment_compression;
  stride ← gets stride;
  if stride =? 0 then lift Undefined        (* [block_num % 0] *)
  else if block_num b mod stride =? 0 then _ ← split_log; mret pos
  else mret pos.

(** [get_block_pos(block_num)] *)
Definition get_block_pos (block_num' : Z) : M block_log_impl Z :=
  s ← gets id;
  let in_range :=
    match head s with
    | Some h => (block_num' <=? block_num h) && (first_block_num (preamble s) <=? block_num')
    | None => false
    end in
  if negb in_range then mret npos
  else
    _ ← on_index_file (cfile_seek (8 * u32 (block_num' - first_block_num (preamble s))));
    bs ← on_index_file (cfile_read 8);
    mret (le_decode bs).

(** [read_block_id_by_num(block_num)] *)
Definition read_block_id_by_num (block_num' : Z) : M block_log_impl block_id_type :=
  pos ← get_block_pos block_num';
  if negb (pos =? npos) then
    _ ← on_block_file (cfile_seek pos);
    p ← gets preamble;
    on_block_file (cfile_stream (λ ds,
      id ← read_block_id ds (version p) block_num'; Ok (id, ds)))
  else
    found ← on_catalog (set_active_item block_num');
    if (found : bool) then
      c ← gets catalog;
      '(ds, version) ← lift (datastream_for_block block_num' c);
      lift (read_block_id ds version block_num')
    else mret empty_block_id.

(** [read_block_by_num(block_num)]; [None] is the null pointer *)
Definition read_block_by_num (block_num' : Z) : M block_log_impl (option signed_block) :=
  pos ← get_block_pos block_num';
  if negb (pos =? npos) then
    _ ← on_block_file (cfile_seek pos);
    p ← gets preamble;
    b ← on_block_file (cfile_stream (λ ds, read_block ds (version p) block_num'));
    mret (Some b)
  else
    found ← on_catalog (set_active_item block_num');
    if (found : bool) then
      c ← gets catalog;
      '(ds, version) ← lift (datastream_for_block block_num' c);
      '(b, _) ← lift (read_block ds version block_num');
      mret (Some b)
    else mret None.

(** [block_log::first_block_num()] *)
Definition block_log_first_block_num (s : block_log_impl) : Z :=
  if negb (catalog_empty (catalog s))
  then match collection (catalog s) with
       | (first, _) :: _ => first
       | [] => 0
       end
  else first_block_num (preamble s).

(** [recover_from_incomplete_block_head(log_data, index)] *)
Definition recover_from_incomplete_block_head (log_data : block_log_data)
  (index : block_log_index) : M block_log_impl bool :=
  p ← gets preamble;
  if pruned_transaction_version <=? version p then
    back ← lift (index_back index);
    if u64 (back + 4) <? log_size log_data then
      entry_size ← lift (read_buffer 4 (log_file log_data) back);
      let trimmed_block_file_size := u64 (back + entry_size) in
      let expected_block_num :=
        u32 (log_first_block_num log_data + index_num_blocks index - 1) in
      if trimmed_block_file_size <? log_size log_data then
        M_try
          (_ ← lift (light_validate_block_entry_at log_data back expected_block_num);
           path ← gets (λ s, file_path (block_file s));
           _ ← on_file_system (lift_resize path trimmed_block_file_size);
           mret true)
          (mret false)
      else mret false
    else mret false
  else mret false.

(** ** Pruning transactions *)

(** [ids.erase(std::find(ids.begin(), ids.end(), id))] when [id] is found *)
Fixpoint find_and_erase (id : transaction_id_type) (ids : list transaction_id_type)
  : option (list transaction_id_type) :=
  match ids with
  | [] => None
  | x :: r =>
      if decide (x = id) then Some r
      else r' ← find_and_erase id r; Some (x :: r')
  end.

(** the [pruner] visitor on one receipt: the receipt, the ids left, and its result *)
Definition pruner (trx : transaction_id_type + packed_transaction)
  (ids : list transaction_id_type)
  : (transaction_id_type + packed_transaction) * list transaction_id_type * bool :=
  match trx with
  | inl id => (inl id, ids, false)
  | inr ptx =>
      match find_and_erase (ptx_id ptx) ids with
      | Some ids' => (inr (prune_all ptx), ids', true)
      | None => (inr ptx, ids, false)
      end
  end.

(** [for (auto& trx : entry.block.transactions) num_trx_pruned += trx.trx.visit(pruner);] *)
Fixpoint prune_loop (trxs : list (transaction_id_type + packed_transaction))
  (ids : list transaction_id_type)
  : list (transaction_id_type + packed_transaction) * list transaction_id_type * Z :=
  match trxs with
  | [] => ([], ids, 0)
  | trx :: r =>
      let '(trx', ids1, pruned) := pruner trx ids in
      let '(r', ids2, n) := prune_loop r ids1 in
      (trx' :: r', ids2, (if pruned then 1 else 0) + n)
  end.

(** [block_log::prune_transactions(block_num, ids)]: the count, and [ids] as
    the call leaves it *)
Definition prune_transactions (block_num' : Z) (ids : list transaction_id_type)
  : M block_log_impl (Z * list transaction_id_type) :=
  p ← gets preamble;
  _ ← M_ASSERT (pruned_transaction_version <=? version p) block_log_exception
        "The block log version ${version} does not support transaction pruning.";
  pos ← get_block_pos block_num';
  _ ← M_ASSERT (negb (pos =? npos)) block_log_exception
        "Specified block_num ${block_num} does not exist in block log.";
  _ ← on_block_file (cfile_seek pos);
  entry ← on_block_file (cfile_stream unpack_entry_cfile);
  _ ← M_ASSERT (block_num (block entry) =? block_num') block_log_exception
        "Wrong block was read from block log.";
  let '(trxs, ids', num_trx_pruned) := prune_loop (transactions (block entry)) ids in
  let pruned_block := set_transactions (block entry) trxs in
  _ ← (if negb (num_trx_pruned =? 0) then
         (* we don't want to rewrite entire entry, just the block data itself. *)
         let block_offset := offset_to_block_start (version p) in
         _ ← on_block_file (cfile_seek (pos + block_offset));
         let max_block_size := u32 (u64 (u32 (meta_size (meta entry) - block_offset) - 8)) in
         buffer ← lift (pack_into (Z.to_nat max_block_size) (block_pack pruned_block));
         on_block_file (cfile_write buffer)
       else mret tt);
  mret (num_trx_pruned, ids').

(** ** Trimming the end of the log *)

(** [block_log::trim_blocklog_end(block_dir, n)] *)
Definition trim_blocklog_end (block_dir : string) (n : Z) : M file_system Z :=
  fs ← gets id;
  archive ← lift (block_log_archive_open fs block_dir);
  if n <? log_first_block_num (log_data archive) then mret 1 else
  last ← lift (last_block_num (log_data archive));
  if last <? n then mret 2 else
  let to_trim_block_index := u32 (n + 1 - log_first_block_num (log_data archive)) in
  to_trim_block_position ← lift (nth_block_position (log_index archive) to_trim_block_index);
  let index_file_size := u64 (to_trim_block_index * 8) in
  _ ← lift_resize (block_file_name archive) to_trim_block_position;
  _ ← lift_resize (index_file_name archive) index_file_size;
  mret 0.

(** ** Resetting the log *)

(** [block_log_impl::reset(first_bnum, chain_context)]; [default_version] is
    the process-wide setting of [block_log::set_version] *)
Definition impl_reset (default_version first_bnum : Z)
  (chain_context : genesis_state + chain_id_type) : M block_log_impl unit :=
  _ ← on_block_file cfile_open_truncate;
  _ ← on_index_file cfile_open_truncate;
  let p := {| version := default_version; first_block_num := first_bnum;
              chain_context := chain_context |} in
  _ ← modify (λ s, impl_with_preamble s p);
  _ ← on_block_file (cfile_write_to p);
  modify (λ s,
    {| fs := fs s; data_dir := data_dir s; head := head s; catalog := catalog s;
       block_file := block_file s; index_file := index_file s;
       genesis_written_to_block_log := true;
       preamble := preamble s; stride := stride s |}).

(** [block_log::reset(gs, first_block, segment_compression)] *)
Definition reset_genesis (default_version : Z) (gs : genesis_state)
  (first_block : signed_block) (segment_compression : Z) : M block_log_impl unit :=
  _ ← impl_reset default_version 1 (inl gs);
  _ ← append first_block segment_compression;
  mret tt.

(** [block_log::reset(chain_id, first_block_num)] *)
Definition reset_chain_id (default_version : Z) (id : chain_id_type) (first_block_num' : Z)
  : M block_log_impl unit :=
  _ ← M_ASSERT (1 <? first_block_num') block_log_exception
        "Block log version ${ver} needs to be created with a genesis state if starting from block number 1.";
  c ← gets catalog;
  _ ← M_ASSERT (chain_id_empty (chain_id c) || bool_decide (id = chain_id c))
        block_log_exception "Trying to reset to the chain to a different chain id";
  _ ← impl_reset default_version first_block_num' (inr id);
  modify (λ s, impl_with_head s None).

(** a freshly constructed log on an empty [data_dir]; the preamble is the
    default-constructed one, whose variant holds its first alternative, a
    default-constructed genesis state [gs0] *)
Definition new_block_log (gs0 : genesis_state) (dir : string) (adir : option string)
  (stride' : Z) (max_retained_files' : Z) : block_log_impl :=
  {| fs := {[ path_append dir "blocks.log" := []; path_append dir "blocks.index" := [] ]};
     data_dir := dir;
     head := None;
     catalog := {| archive_dir := adir; max_retained_files := max_retained_files';
                   collection := []; active_index := None;
                   cat_log_data := None; cat_log_index := None;
                   chain_id := zeros sizeof_chain_id |};
     block_file := {| file_path := path_append dir "blocks.log"; cf_is_open := true; cf_pos := 0 |};
     index_file := {| file_path := path_append dir "blocks.index"; cf_is_open := true; cf_pos := 0 |};
     genesis_written_to_block_log := false;
     preamble := {| version := 0; first_block_num := 0; chain_context := inl gs0 |};
     stride := stride' |}.

(** ** Notions used to state the properties *)

(** the conditions under which the incomplete head is cut off *)
Definition head_is_recoverable (s : block_log_impl) (log_data : block_log_data)
  (index : block_log_index) (back entry_size : Z) : Prop :=
  pruned_transaction_version ≤ version (preamble s) ∧
  u64 (back + 4) < log_size log_data ∧
  read_buffer 4 (log_file log_data) back = Ok entry_size ∧
  u64 (back + entry_size) < log_size log_data ∧
  light_validate_block_entry_at log_data back
    (u32 (log_first_block_num log_data + index_num_blocks index - 1)) = Ok tt.

(** the catalog [add] leaves behind *)
Definition catalog_after_add (c : block_log_catalog) (start_block_num end_block_num : Z)
  (base : path) : block_log_catalog :=
  let c1 :=
    if max_retained_files c <=? Z.of_nat (length (collection c)) then
      cat_with_collection c (drop (items_to_erase c) (collection c))
        match active_index c with
        | None => None
        | Some a => if bool_decide (a < items_to_erase c)%nat then None
                    else Some (a - items_to_erase c)%nat
        end
    else c in
  if 0 <? max_retained_files c then
    cat_with_collection c1
      (collection_emplace start_block_num
         {| last_block_num_of := end_block_num; filename_base := base |} (collection c1))
      (active_index c1)
  else c1.

(** the preamble [split_log] gives the new live log *)
Definition rotated_preamble (s : block_log_impl) (h : signed_block) : block_log_preamble :=
  {| version := max_supported_version;
     first_block_num := u32 (block_num h + 1);
     chain_context := inr (preamble_chain_id (preamble s)) |}.

(** what the operations on the two open files leave alone *)
Definition same_frame (s s' : block_log_impl) : Prop :=
  data_dir s' = data_dir s ∧ head s' = head s ∧ catalog s' = catalog s ∧
  preamble s' = preamble s ∧ stride s' = stride s ∧
  genesis_written_to_block_log s' = genesis_written_to_block_log s ∧
  file_path (block_file s') = file_path (block_file s) ∧
  file_path (index_file s') = file_path (index_file s).

(** the same, and no file has changed *)
Definition same_log (s s' : block_log_impl) : Prop :=
  fs s' = fs s ∧ same_frame s s'.


(** [block_num] lies in the range of the live log *)
Definition in_live_range (s : block_log_impl) (block_num' : Z) : Prop :=
  match head s with
  | Some h => first_block_num (preamble s) ≤ block_num' ≤ block_num h
  | None => False
  end.

(** [block_num] lies in the range of a segment of the catalog *)
Definition in_catalog (c : block_log_catalog) (block_num' : Z) : Prop :=
  ∃ first item, (first, item) ∈ collection c ∧ first ≤ block_num' ≤ last_block_num_of item.

(** ** Opening the log *)

(** [open(update_rw_mode)]: the file must be there *)
Definition cfile_open_update : M (file_system * cfile) unit := λ '(fs, f),
  match fs !! file_path f with
  | Some _ => (Ok tt, (fs, cf_with_open f true))
  | None => (Throw (cfile_error "open"), (fs, f))
  end.

(** [ensure_file_exists(f)]: [open(create_or_update_rw_mode); close()] on a
    file that is not there *)
Definition ensure_file_exists : M (file_system * cfile) unit := λ '(fs, f),
  match fs !! file_path f with
  | Some _ => (Ok tt, (fs, f))
  | None => (Ok tt, (<[file_path f := []]> fs, cf_with_open f false))
  end.

(** [fc::file_size(f.get_file_path())] *)
Definition cfile_size : M (file_system * cfile) Z :=
  data ← cfile_contents; mret (Zlength' data).

(** [path::is_relative()] *)
Definition is_relative (p : string) : bool := negb (String.prefix "/" p).


(** [block_log::extract_chain_id(data_dir)] *)
Definition extract_chain_id (fs : file_system) (data_dir' : string) : res chain_id_type :=
  l ← block_log_data_open fs (path_append data_dir' "blocks.log"); Ok (log_chain_id l).

(** [block_log_impl::read_head()] *)
Definition read_head : M block_log_impl unit :=
  _ ← on_block_file (cfile_seek_end (-8));
  bs ← on_block_file (cfile_read 8);
  let pos := le_decode bs in
  if negb (pos =? npos) then
    _ ← on_block_file (cfile_seek pos);
    p ← gets preamble;
    b ← on_block_file (cfile_stream (λ ds, read_block ds (version p) 0));
    modify (λ s, impl_with_head s (Some b))
  else mret tt.

(** the members the constructor sets from its arguments *)
Definition impl_with_settings (s : block_log_impl) (adir : option string)
  (max_retained_files' stride' : Z) : block_log_impl :=
  {| fs := fs s; data_dir := data_dir s; head := head s;
     catalog := {| archive_dir := adir; max_retained_files := max_retained_files';
                   collection := collection (catalog s);
                   active_index := active_index (catalog s);
                   cat_log_data := cat_log_data (catalog s);
                   cat_log_index := cat_log_index (catalog s);
                   chain_id := chain_id (catalog s) |};
     block_file := block_file s; index_file := index_file s;
     genesis_written_to_block_log := genesis_written_to_block_log s;
     preamble := preamble s; stride := stride' |}.

Definition impl_with_genesis_written (s : block_log_impl) : block_log_impl :=
  {| fs := fs s; data_dir := data_dir s; head := head s; catalog := catalog s;
     block_file := block_file s; index_file := index_file s;
     genesis_written_to_block_log := true;
     preamble := preamble s; stride := stride s |}.

(** the constructor of [block_log_impl], on an object whose members have
    their initial values and whose files are named; [segments] are the
    files of data_dir that [for_each_file_in_dir_matches] yields for the
    pattern of rotated logs, none when data_dir is not a directory, and
    [archive_dir'] is empty for no archive directory.  Directories are
    implicit in the paths of the files. *)
Definition block_log_impl_open (archive_dir' : string) (stride' max_retained_files' : Z)
  (segments : list path) : M block_log_impl unit :=
  _ ← on_catalog (catalog_open segments);
  dir ← gets data_dir;
  let adir :=
    if bool_decide (archive_dir' = ""%string) then None
    else Some (if is_relative archive_dir' then path_append dir archive_dir'
               else archive_dir') in
  _ ← modify (λ s, impl_with_settings s adir max_retained_files' stride');
  _ ← on_block_file ensure_file_exists;
  _ ← on_index_file ensure_file_exists;
  log_size ← on_block_file cfile_size;
  index_size ← on_index_file cfile_size;
  bp ← gets (λ s, file_path (block_file s));
  ip ← gets (λ s, file_path (index_file s));
  _ ← (if negb (log_size =? 0) then
         files ← gets fs;
         log_data ← lift (block_log_data_open files bp);
         _ ← modify (λ s, impl_with_preamble s (log_preamble log_data));
         c ← gets catalog;
         _ ← M_ASSERT (chain_id_empty (chain_id c) ||
                       bool_decide (chain_id c = log_chain_id log_data))
               block_log_exception "block log file ${path} has a different chain id";
         _ ← modify impl_with_genesis_written;
         if negb (index_size =? 0) then
           index ← lift (block_log_index_open files ip);
           last ← lift (last_block_position log_data);
           back ← lift (index_back index);
           if negb (last =? back) then
             recovered ← recover_from_incomplete_block_head log_data index;
             if negb recovered then on_file_system (construct_index bp ip) else mret tt
           else mret tt
         else on_file_system (construct_index bp ip)
       else if negb (index_size =? 0) then on_file_system (lift_resize ip 0)
       else mret tt);
  _ ← on_block_file cfile_open_update;
  _ ← on_index_file cfile_open_update;
  if negb (log_size =? 0) then read_head else mret tt.

(** the object before the body of the constructor runs: the files are
    named, nothing is open, the catalog is empty and retains 10 files, and
    the preamble is the default-constructed one, whose variant holds a
    default-constructed genesis state [gs0] *)
Definition block_log_impl_initial (gs0 : genesis_state) (files : file_system) (dir : string)
  : block_log_impl :=
  {| fs := files; data_dir := dir; head := None;
     catalog := {| archive_dir := None; max_retained_files := 10;
                   collection := []; active_index := None;
                   cat_log_data := None; cat_log_index := None;
                   chain_id := zeros sizeof_chain_id |};
     block_file := {| file_path := path_append dir "blocks.log";
                      cf_is_open := false; cf_pos := 0 |};
     index_file := {| file_path := path_append dir "blocks.index";
                      cf_is_open := false; cf_pos := 0 |};
     genesis_written_to_block_log := false;
     preamble := {| version := 0; first_block_num := 0; chain_context := inl gs0 |};
     stride := 2 ^ 64 - 1 |}.

(** the state in which [append] can write the entry of [b]: the log is
    reset, both files are there, the index ends at the slot of [b], and
    [buffer] is the serialization of [b] in the format of the log *)
Definition ready_to_append (s : block_log_impl) (b : signed_block) (compression : Z)
  (L I buffer : list byte) : Prop :=
  genesis_written_to_block_log s = true ∧
  fs s !! file_path (block_file s) = Some L ∧
  fs s !! file_path (index_file s) = Some I ∧
  file_path (block_file s) ≠ file_path (index_file s) ∧
  Zlength' I = 8 * u32 (block_num b - first_block_num (preamble s)) ∧
  (if pruned_transaction_version <=? version (preamble s)
   then pack b compression = Ok buffer
   else block_pack_v0 b = Some buffer ∧ compression = cf_compression_none).

(** the files of the segments [items] *)
Definition segment_files (items : list (Z * mapped_type)) : list string :=
  flat_map (λ '(_, item), [replace_extension (filename_base item) "log";
                           replace_extension (filename_base item) "index"]) items.

(** what [set_active_item] leaves alone: the files and the collection *)
Definition same_collection (w w' : file_system * block_log_catalog) : Prop :=
  fst w' = fst w ∧ collection (snd w') = collection (snd w).

(** the entries of [data] between [first] and [end_], read from the back:
    [backwards] lists the positions where they start, the last entry
    first; each entry ends in the 8 bytes of its own position, and the
    next entry, or [end_], follows *)
Fixpoint back_chain (data : list byte) (first end_ : Z) (backwards : list Z) : Prop :=
  match backwards with
  | [] => end_ = first
  | p :: r =>
      first ≤ p ∧ p + 8 ≤ end_ ∧ end_ ≤ Zlength' data ∧
      read_buffer 8 data (end_ - 8) = Ok p ∧ back_chain data first p r
  end.

(** the index [positions] make: one slot of 8 bytes each *)
Definition index_of_positions (positions : list Z) : list byte :=
  concat (map (le_encode 8) positions).

Definition reset_needs_genesis : exn :=
  Exn block_log_exception
    "Block log version ${ver} needs to be created with a genesis state if starting from block number 1.".
Definition reset_other_chain : exn :=
  Exn block_log_exception "Trying to reset to the chain to a different chain id".

(** ** Trimming the front of the log *)

(** [block_log_preamble::nbytes_with_chain_id] *)
Definition nbytes_with_chain_id : Z := 4 + 4 + Z.of_nat sizeof_chain_id + 8.

(** [create_mapped_file(sink, path, size)]: the file is made anew with
    [size] zero bytes and mapped for writing. With [size] 0 no file is made:
    the one there is opened, and a mapping of length 0 fails. A size that is
    negative as a file offset cannot be set; the file is there and empty. *)
Definition create_mapped_file (path : string) (size : Z) : M file_system (list byte) := λ fs,
  if size =? 0 then
    match fs !! path with
    | Some _ => (Throw (Exn ios_failure "failed mapping file"), fs)
    | None => (Throw open_failure, fs)
    end
  else if 2 ^ 63 <=? size then
    (Throw (Exn ios_failure "failed setting file size"), <[path := []]> fs)
  else (Ok (zeros (Z.to_nat size)), <[path := zeros (Z.to_nat size)]> fs).

(** [fc::datastream<char*>::write] on a mapping, the state being the mapping
    and the position of the stream: a chunk that runs over the end is not
    written *)
Definition mapped_write (chunk : list byte) : M (list byte * Z) unit := λ '(buf, pos),
  if pos + Zlength' chunk <=? Zlength' buf
  then (Ok tt, (write_at buf pos chunk, pos + Zlength' chunk))
  else (Throw stream_range_error, (buf, pos)).

(** [write_to] on the datastream of a mapping, chunk by chunk *)
Definition write_to_mapped (p : block_log_preamble) : M (list byte * Z) unit :=
  _ ← mapped_write (le_encode 4 (version p));
  if negb (version p =? initial_version) then
    _ ← mapped_write (le_encode 4 (first_block_num p));
    _ ← mapped_write match chain_context p with
                     | inr id => id
                     | inl state => genesis_pack state
                     end;
    mapped_write (le_encode 8 npos)
  else
    match chain_context p with
    | inl state => mapped_write (genesis_pack state)
    | inr _ => throw (Exn bad_variant_access "std::get<genesis_state>")
    end.

(** [memcpy(dst + d, src + s, n)] between two mappings: defined inside both *)
Definition memcpy (dst : list byte) (d : Z) (src : list byte) (s n : Z) : res (list byte) :=
  if (0 <=? d) && (d + n <=? Zlength' dst) && (0 <=? s) && (s + n <=? Zlength' src)
  then Ok (write_at dst d (take (Z.to_nat n) (drop (Z.to_nat s) src)))
  else Undefined.

(** [set_value(pos)]: the 8 bytes the iterator stands on are overwritten *)
Definition it_set_value (it : reverse_block_position_iterator) (pos : Z)
  : res reverse_block_position_iterator :=
  if (0 <=? current_position it) && (current_position it + 8 <=? Zlength' (it_data it))
  then Ok {| it_data := write_at (it_data it) (current_position it) (le_encode 8 pos);
             begin_position := begin_position it;
             current_position := current_position it |}
  else Undefined.

(** [index_writer::write] without a bound on the rounds of its caller: a
    slot below the mapping is outside it *)
Definition index_writer_write_checked (w : index_writer) (pos : Z) : res index_writer :=
  if (0 <=? current_offset w - 8) && (current_offset w <=? Zlength' (index_mapping w))
  then Ok (index_writer_write w pos)
  else Undefined.

(** the loop of [trim_blocklog_front] on the iterator over the new log and
    the writer of the new index. Every round writes one slot of the index,
    so a round after [blocks_expected] rounds writes outside the mapping:
    [blocks_expected + 1] rounds of fuel are never used up. *)
Fixpoint trim_front_loop (fuel : nat) (nbytes_to_trim : Z)
  (itr : reverse_block_position_iterator) (index : index_writer)
  : res unit * (reverse_block_position_iterator * index_writer) :=
  match fuel with
  | O => (Undefined, (itr, index))
  | S fuel =>
      match it_get_value itr with
      | Ok v =>
          if v =? npos then (Ok tt, (itr, index))
          else
            let new_pos := u64 (v - nbytes_to_trim) in
            match index_writer_write_checked index new_pos with
            | Ok index' =>
                match it_set_value itr new_pos with
                | Ok itr1 =>
                    match it_next itr1 with
                    | Ok itr' => trim_front_loop fuel nbytes_to_trim itr' index'
                    | Throw e => (Throw e, (itr1, index'))
                    | Undefined => (Undefined, (itr1, index'))
                    end
                | Throw e => (Throw e, (itr, index'))
                | Undefined => (Undefined, (itr, index'))
                end
            | Throw e => (Throw e, (itr, index))
            | Undefined => (Undefined, (itr, index))
            end
      | Throw e => (Throw e, (itr, index))
      | Undefined => (Undefined, (itr, index))
      end
  end.

(** what was written to the mapping of [path] is in the file, however the
    code that wrote it ended *)
Definition mapped_store {A} (path : string) (run : res A * list byte) : M file_system A :=
  λ fs, (fst run, <[path := snd run]> fs).

(** [block_log::trim_blocklog_front(block_dir, temp_dir, truncate_at_block)];
    [fc::create_directories] has nothing to do where files are named by
    their full paths *)
Definition trim_blocklog_front (block_dir temp_dir : string) (truncate_at_block : Z)
  : M file_system bool :=
  _ ← M_ASSERT (bool_decide (block_dir ≠ temp_dir)) block_log_exception
        "block_dir and temp_dir need to be different directories";
  fs ← gets id;
  archive ← lift (block_log_archive_open fs block_dir);
  if truncate_at_block <=? log_first_block_num (log_data archive) then mret false else
  last ← lift (last_block_num (log_data archive));
  if last <? truncate_at_block then mret false else
  (* create the new block log file and write out the header for the file *)
  let new_block_filename := path_append temp_dir "blocks.log" in
  let preamble_size := nbytes_with_chain_id in
  let num_blocks_to_truncate :=
    u32 (truncate_at_block - log_first_block_num (log_data archive)) in
  first_kept_block_pos ←
    lift (nth_block_position (log_index archive) num_blocks_to_truncate);
  let nbytes_to_trim := u64 (first_kept_block_pos - preamble_size) in
  let new_block_file_size := u64 (log_size (log_data archive) - nbytes_to_trim) in
  new_block_file ← create_mapped_file new_block_filename new_block_file_size;
  (* version 4 or above have different log entry format; therefore version 1
     to 3 can only be upgrade up to version 3 format. *)
  let preamble' :=
    {| version := if log_version (log_data archive) <? pruned_transaction_version
                  then genesis_state_or_chain_id_version else max_supported_version;
       first_block_num := truncate_at_block;
       chain_context := inr (log_chain_id (log_data archive)) |} in
  new_block_file ←
    mapped_store new_block_filename
      (let '(r, (buf, _)) := write_to_mapped preamble' (new_block_file, 0) in
       (match r with Ok _ => Ok buf | Throw e => Throw e | Undefined => Undefined end, buf));
  new_block_file ←
    mapped_store new_block_filename
      (match memcpy new_block_file preamble_size (log_file (log_data archive))
               first_kept_block_pos (u64 (new_block_file_size - preamble_size)) with
       | Ok buf => (Ok buf, buf)
       | Throw e => (Throw e, new_block_file)
       | Undefined => (Undefined, new_block_file)
       end);
  let new_index_filename := path_append temp_dir "blocks.index" in
  let blocks_expected :=
    u32 (index_num_blocks (log_index archive) - num_blocks_to_truncate) in
  _ ← create_mapped_file new_index_filename (blocks_expected * 8);
  (* walk along the block position of each block entry and decrement its
     value by nbytes_to_trim *)
  let '(r, (itr, index)) :=
    trim_front_loop (S (Z.to_nat blocks_expected)) nbytes_to_trim
      (make_reverse_block_position_iterator new_block_file preamble_size)
      (index_writer_new blocks_expected) in
  _ ← mapped_store new_index_filename (Ok tt, index_mapping index);
  _ ← mapped_store new_block_filename (r, it_data itr);
  let old_log := path_append temp_dir "old.log" in
  _ ← fs_rename (block_file_name archive) old_log;
  _ ← fs_rename new_block_filename (block_file_name archive);
  let old_ind := path_append temp_dir "old.index" in
  _ ← fs_rename (index_file_name archive) old_ind;
  _ ← fs_rename new_index_filename (index_file_name archive);
  mret true.

(** the entries that hold the payloads [payloads] from the position [pos]
    on: each payload is followed by the 8 bytes of the position where it
    starts *)
Fixpoint log_of_entries (pos : Z) (payloads : list (list byte)) : list byte :=
  match payloads with
  | [] => []
  | e :: r => e ++ le_encode 8 pos ++ log_of_entries (pos + Zlength' e + 8) r
  end.

(** the positions where these entries start *)
Fixpoint positions_of (pos : Z) (payloads : list (list byte)) : list Z :=
  match payloads with
  | [] => []
  | e :: r => pos :: positions_of (pos + Zlength' e + 8) r
  end.

(** the bytes these entries take *)
Definition entries_size (payloads : list (list byte)) : Z :=
  foldr (λ e n, Zlength' e + 8 + n) 0 payloads.

(** the files other than the two new ones in [temp_dir] *)
Definition kept_files (temp_dir : string) (files files' : file_system) : Prop :=
  ∀ q, q ≠ path_append temp_dir "blocks.log" → q ≠ path_append temp_dir "blocks.index" →
       files' !! q = files !! q.

End catalog.

(** ** A small chain layer to run the log on *)

Module Toy.

Record toy_ptx := { tid : byte; cfd : list byte }.

Record toy_block := {
  prev_num : Z;                               (* the number of the previous block *)
  trxs : list (byte + toy_ptx);
}.

Definition enc_trx (t : byte + toy_ptx) : list byte :=
  match t with
  | inl id => [x00; id]
  | inr p => [x01; tid p; byte_of_Z (Zlength' (cfd p))] ++ cfd p
  end.

(** 14 bytes of timestamp, producer and confirmed, the big-endian number of
    the previous block, then the receipts *)
Definition toy_header_pack (prev : Z) : list byte :=
  zeros 14 ++ rev (le_encode 4 prev).

Definition toy_block_pack (b : toy_block) : list byte :=
  toy_header_pack (prev_num b) ++ [byte_of_Z (Zlength' (trxs b))] ++
  concat (map enc_trx (trxs b)).

Fixpoint toy_parse_trxs (count : nat) (bs : list byte) : option (list (byte + toy_ptx) * nat) :=
  match count with
  | O => Some ([], O)
  | S c =>
      match bs with
      | x00 :: id :: r =>
          '(l, n) ← toy_parse_trxs c r; Some (inl id :: l, (2 + n)%nat)
      | x01 :: id :: len :: r =>
          let k := N.to_nat (Byte.to_N len) in
          if bool_decide (k ≤ length r)%nat then
            '(l, n) ← toy_parse_trxs c (drop k r);
            Some (inr {| tid := id; cfd := take k r |} :: l, (3 + k + n)%nat)
          else None
      | _ => None
      end
  end.

Definition toy_header_unpack (bs : list byte) : option (Z * nat) :=
  if bool_decide (18 ≤ length bs)%nat
  then Some (le_decode (rev (take 4 (drop 14 bs))), 18%nat)
  else None.

Definition toy_block_unpack (bs : list byte) : option (toy_block * nat) :=
  '(prev, _) ← toy_header_unpack bs;
  match drop 18 bs with
  | count :: r =>
      '(l, n) ← toy_parse_trxs (N.to_nat (Byte.to_N count)) r;
      Some ({| prev_num := prev; trxs := l |}, (19 + n)%nat)
  | [] => None
  end.

#[global, refine] Instance toy_chain : chain_layer := {|
  genesis_state := byte;
  genesis_unpack bs := match bs with b :: _ => Some (b, 1%nat) | [] => None end;
  genesis_pack g := [g];
  compute_chain_id g := replicate sizeof_chain_id g;
  transaction_id_type := byte;
  packed_transaction := toy_ptx;
  ptx_id := tid;
  prune_all p := {| tid := tid p; cfd := [] |};
  signed_block := toy_block;
  block_num b := u32 (prev_num b + 1);
  transactions := trxs;
  set_transactions b l := {| prev_num := prev_num b; trxs := l |};
  block_unpack := toy_block_unpack;
  block_pack := toy_block_pack;
  maximum_pruned_pack_size b := length (toy_block_pack b);
  block_pack_v0 b := Some (toy_block_pack b);
  block_unpack_v0 := toy_block_unpack;
  block_header := Z;
  header_unpack := toy_header_unpack;
  header_block_num prev := u32 (prev + 1);
  calculate_id prev := rev (le_encode 4 (u32 (prev + 1))) ++ zeros 28;
  COMPRESSION_TYPE_COUNT := 2;
|}.
Proof. reflexivity. Defined.

Definition T1 : byte := x11.
Definition T2 : byte := x22.
Definition T3 : byte := x33.

Definition with_cfd (id : byte) : byte + toy_ptx := inr {| tid := id; cfd := [xaa; xbb] |}.

Definition B (n : Z) : toy_block := {| prev_num := n - 1; trxs := [inl (byte_of_Z n)] |}.
(** block 1 of scenario S6: three transactions with context-free data *)
Definition B1 : toy_block := {| prev_num := 0; trxs := [with_cfd T1; with_cfd T2; with_cfd T3] |}.

Definition genesis : byte := x47.
(** the genesis state of a default-constructed preamble *)
Definition default_genesis : byte := x00.

(** the log after [reset(genesis, b)] in directory "d" *)
Definition log_after_reset (stride max_retained : Z) (b : toy_block) : block_log_impl :=
  snd (reset_genesis 4 genesis b 0 (new_block_log default_genesis "d" None stride max_retained)).

Definition append_ (b : toy_block) (s : block_log_impl) : block_log_impl :=
  snd (append b 0 s).

(** a log of the blocks 1, 2 and 3, not rotated *)
Definition log3 : block_log_impl :=
  append_ (B 3) (append_ (B 2) (log_after_reset 1000 10 (B 1))).

(** scenario S6: block 1 with the transactions T1, T2 and T3 *)
Definition log_s6 : block_log_impl := log_after_reset 1000 10 B1.

(** scenario S2: stride 2, the blocks 1 to 3; blocks 1 and 2 are rotated out *)
Definition log_s2 : block_log_impl :=
  append_ (B 3) (append_ (B 2) (log_after_reset 2 10 (B 1))).

(** the directory of [log_s2], whose catalog retains the segment 1-2, used
    with stride 3: the log is reset to the genesis and holds the blocks 1
    and 2 again *)
Definition log_reset_over_s2 : block_log_impl :=
  append_ (B 2)
    (snd (reset_genesis 4 genesis (B 1) 0
            {| fs := fs log_s2; data_dir := data_dir log_s2; head := head log_s2;
               catalog := catalog log_s2; block_file := block_file log_s2;
               index_file := index_file log_s2;
               genesis_written_to_block_log := genesis_written_to_block_log log_s2;
               preamble := preamble log_s2; stride := 3 |})).

(** the files of [log3] and the view of its log *)
Definition log3_log : list byte :=
  Eval vm_compute in default [] (fs log3 !! "d/blocks.log"%string).
Definition log3_index : list byte :=
  Eval vm_compute in default [] (fs log3 !! "d/blocks.index"%string).
Definition log3_data : block_log_data :=
  {| log_file := log3_log;
     log_preamble := {| version := 4; first_block_num := 1; chain_context := inl genesis |};
     first_block_pos := 17 |}.
(** the index as it is when the position of block 3 never reached the disk *)
Definition stale_index : block_log_index := {| index_file_data := take 16 log3_index |}.


(** a preamble of version 2 that starts at block 5: the version, the first
    block number, the genesis state and the separator *)
Definition v2_preamble_bytes : list byte :=
  le_encode 4 2 ++ le_encode 4 5 ++ [genesis] ++ le_encode 8 npos.

(** the log file of [log_s6], and what pruning T2 makes of it *)
Definition s6_log : list byte :=
  Eval vm_compute in default [] (fs log_s6 !! "d/blocks.log"%string).

(** the log after [reset(genesis, B 1)], its two files, its preamble, and
    the packed entry of block 2 *)
Definition log1 : block_log_impl := log_after_reset 1000 10 (B 1).
Definition log1_log : list byte :=
  Eval vm_compute in default [] (fs log1 !! "d/blocks.log"%string).
Definition log1_index : list byte :=
  Eval vm_compute in default [] (fs log1 !! "d/blocks.index"%string).
Definition preamble1 : block_log_preamble :=
  {| version := 4; first_block_num := 1; chain_context := inl genesis |}.
Definition preamble1_bytes : list byte := Eval vm_compute in take 17 log1_log.
Definition B2_entry : list byte :=
  Eval vm_compute in match pack (B 2) 0 with Ok buffer => buffer | _ => [] end.
Definition B1_entry : list byte :=
  Eval vm_compute in match pack (B 1) 0 with Ok buffer => buffer | _ => [] end.

(** stride 2 and one retained file: the blocks 1 to 3, the segment 1-2 retained *)
Definition log_one_retained : block_log_impl :=
  append_ (B 3) (append_ (B 2) (log_after_reset 2 1 (B 1))).

(** a chain id, the preamble of a log that starts at block 5 without a
    genesis state, and the bytes [write_to] gives for it *)
Definition id7 : list byte := replicate 32 x07.
Definition preamble5 : block_log_preamble :=
  {| version := 4; first_block_num := 5; chain_context := inr id7 |}.
Definition preamble5_bytes : list byte :=
  Eval vm_compute in match write_to preamble5 with Ok bytes => bytes | _ => [] end.

(** the payloads of the three entries of [log3]: each entry without the
    8 bytes of its position *)
Definition log3_payloads : list (list byte) :=
  Eval vm_compute in
    [take 26 (drop 17 log3_log); take 26 (drop 51 log3_log); take 26 (drop 85 log3_log)].

(** a log whose preamble starts at block 1 but whose entries are those of
    the blocks 2 and 3 only *)
Definition short_log : list byte :=
  Eval vm_compute in preamble1_bytes ++ log_of_entries 17 (drop 1 log3_payloads).

End Toy.

Example toy_reset_ok :
  fst (reset_genesis 4 Toy.genesis Toy.B1 0 (new_block_log Toy.default_genesis "d" None 1000 10)) = Ok tt.
Proof. vm_compute. reflexivity. Qed.

Example toy_read_back :
  fst (read_block_by_num 1 (Toy.log_after_reset 1000 10 Toy.B1)) = Ok (Some Toy.B1).
Proof. vm_compute. reflexivity. Qed.

(** * Properties *)

(** ** Outcomes and streams *)

Lemma EOS_ASSERT_true cls what : EOS_ASSERT true cls what = Ok tt.
Proof. reflexivity. Qed.

Lemma EOS_ASSERT_false cls what : EOS_ASSERT false cls what = Throw (Exn cls what).
Proof. reflexivity. Qed.

Lemma le_decode_bound bs : 0 ≤ le_decode bs < 256 ^ Z.of_nat (length bs).
Proof.
  induction bs as [|b r IH].
  - simpl. lia.
  - cbn [le_decode length]. rewrite Nat2Z.inj_succ, Z.pow_succ_r by lia.
    pose proof (Byte.to_N_bounded b) as Hb.
    assert (0 ≤ Z.of_N (Byte.to_N b) ≤ 255) by lia. lia.
Qed.

Lemma ds_read_Ok n ds bs ds' :
  ds_read n ds = Ok (bs, ds') →
  0 ≤ ds_pos ds ∧ ds_pos ds + Z.of_nat n ≤ Zlength' (ds_buf ds) ∧
  length bs = n ∧ ds' = ds_skip (Z.of_nat n) ds.
Proof.
  unfold ds_read. destruct (_ && _) eqn:E; [|discriminate].
  intros [= <- <-]. apply andb_prop in E as [E1 E2].
  apply Z.leb_le in E1. apply Z.leb_le in E2.
  repeat split; try lia.
  unfold ds_remaining_bytes, Zlength' in *.
  rewrite length_take, length_drop. lia.
Qed.

Lemma ds_read_uint_Ok n ds v ds' :
  ds_read_uint n ds = Ok (v, ds') →
  0 ≤ ds_pos ds ∧ ds_pos ds + Z.of_nat n ≤ Zlength' (ds_buf ds) ∧
  0 ≤ v < 256 ^ Z.of_nat n ∧ ds' = ds_skip (Z.of_nat n) ds.
Proof.
  unfold ds_read_uint. destruct (ds_read n ds) as [[bs d]| |] eqn:E; try discriminate.
  cbn. intros [= <- <-]. apply ds_read_Ok in E as (? & ? & Hl & ->).
  pose proof (le_decode_bound bs) as Hb. rewrite Hl in Hb. auto.
Qed.

Section codec_facts.
Context `{CL : chain_layer}.

(** ** The preamble *)

Lemma write_to_unfold p :
  write_to p =
  if negb (version p =? initial_version) then
    Ok (le_encode 4 (version p) ++
        le_encode 4 (first_block_num p) ++
        match chain_context p with
        | inr id => id
        | inl state => genesis_pack state
        end ++
        le_encode 8 npos)
  else
    match chain_context p with
    | inl state => Ok (le_encode 4 (version p) ++ genesis_pack state)
    | inr _ => Throw (Exn bad_variant_access "std::get<genesis_state>")
    end.
Proof.
  unfold write_to, write_to_stream.
  destruct (negb (version p =? initial_version)); [reflexivity|].
  destruct (chain_context p); reflexivity.
Qed.

(** a [write_to] that returns has handed all its bytes to the file *)
Lemma cfile_write_to_Ok p bytes s :
  write_to p = Ok bytes → cfile_write_to p s = cfile_write bytes s.
Proof.
  unfold write_to, cfile_write_to.
  destruct (write_to_stream p) as [written [[]| |]]; cbn; try discriminate.
  intros [= ->]. unfold mbind, M_bind, lift.
  destruct (cfile_write bytes s) as [[[]| |] s']; reflexivity.
Qed.

(** a [write_to] that throws has written the version *)
Lemma cfile_write_to_Throw p e s :
  write_to p = Throw e →
  cfile_write_to p s = (_ ← cfile_write (le_encode 4 (version p)); throw e) s.
Proof.
  rewrite write_to_unfold. unfold cfile_write_to, write_to_stream.
  destruct (negb (version p =? initial_version)); [discriminate|].
  destruct (chain_context p); [discriminate|].
  intros [= <-]. reflexivity.
Qed.

Lemma read_version_and_first_Ok ds v fbn ds1 :
  read_version_and_first ds = Ok (v, fbn, ds1) →
  1 ≤ v ≤ 4 ∧ (v = 1 → fbn = 1) ∧ 0 ≤ fbn < 2 ^ 32.
Proof.
  unfold read_version_and_first.
  destruct (ds_read_uint 4 ds) as [[ver d]| |] eqn:E; try discriminate. cbn.
  destruct (0 <? ver) eqn:Hpos; [|discriminate]. cbn.
  destruct (is_supported_version ver) eqn:Hsup; [|discriminate]. cbn.
  assert (1 ≤ ver ≤ 4) as Hver.
  { apply Z.ltb_lt in Hpos. unfold is_supported_version, clamp in Hsup.
    change min_supported_version with 1 in Hsup.
    change max_supported_version with 4 in Hsup.
    destruct (ver <? 1) eqn:E1; [apply Z.ltb_lt in E1; lia|].
    destruct (4 <? ver) eqn:E4; [apply Z.eqb_eq in Hsup; apply Z.ltb_lt in E4; lia|].
    apply Z.ltb_ge in E4. lia. }
  change initial_version with 1.
  destruct (ver =? 1) eqn:E1; cbn.
  - intros [= <- <- <-]. apply Z.eqb_eq in E1. repeat split; lia.
  - destruct (ds_read_uint 4 d) as [[f d']| |] eqn:E'; try discriminate. cbn.
    intros [= <- <- <-]. apply Z.eqb_neq in E1.
    apply ds_read_uint_Ok in E' as (_ & _ & Hf & _).
    change (256 ^ Z.of_nat 4) with (2 ^ 32) in Hf. repeat split; lia.
Qed.

(** C5 (amended). For a header that holds a supported version v and a
    first block number fbn (1 for version 1, which stores none), [read_from]
    decodes a genesis state when v is 1 or 2, whatever fbn is, and when
    v >= 3 with fbn = 1; it decodes a chain id when v >= 3 with fbn > 1; it
    throws the "does not contain a genesis_state nor a chain_id"
    block_log_exception in the one case left, v >= 3 with fbn = 0. *)
Theorem read_from_chain_context ds v fbn ds1 :
  read_version_and_first ds = Ok (v, fbn, ds1) →
  (1 ≤ v ≤ 4) ∧
  ((v ≤ 2 ∨ fbn = 1) →
     read_from ds =
       ('(state, ds2) ← ds_unpack genesis_unpack ds1;
        ds3 ← read_totem v ds2;
        Ok ({| version := v; first_block_num := fbn; chain_context := inl state |}, ds3))) ∧
  ((3 ≤ v ∧ 1 < fbn) →
     read_from ds =
       ('(id, ds2) ← ds_read sizeof_chain_id ds1;
        ds3 ← read_totem v ds2;
        Ok ({| version := v; first_block_num := fbn; chain_context := inr id |}, ds3))) ∧
  ((3 ≤ v ∧ fbn = 0) → read_from ds = Throw MalformedPreamble) ∧
  (v ≤ 2 ∨ fbn = 1 ∨ (3 ≤ v ∧ 1 < fbn) ∨ (3 ≤ v ∧ fbn = 0)).
Proof.
  intros H. pose proof (read_version_and_first_Ok _ _ _ _ H) as (Hv & H1 & Hf).
  split; [exact Hv|].
  unfold read_from. rewrite H. cbn. unfold read_chain_context.
  split; [|split; [|split]].
  - intros Hg.
    assert (contains_genesis_state v fbn = true) as ->.
    { unfold contains_genesis_state. change genesis_state_or_chain_id_version with 3.
      apply orb_true_iff. rewrite Z.ltb_lt, Z.eqb_eq. lia. }
    destruct (ds_unpack genesis_unpack ds1) as [[g d]| |]; reflexivity.
  - intros [H3 Hgt].
    assert (contains_genesis_state v fbn = false) as ->.
    { unfold contains_genesis_state. change genesis_state_or_chain_id_version with 3.
      apply orb_false_iff. rewrite Z.ltb_ge, Z.eqb_neq. lia. }
    assert (contains_chain_id v fbn = true) as ->.
    { unfold contains_chain_id. change genesis_state_or_chain_id_version with 3.
      apply andb_true_iff. rewrite Z.leb_le, Z.ltb_lt. lia. }
    destruct (ds_read sizeof_chain_id ds1) as [[c d]| |]; reflexivity.
  - intros [H3 H0].
    assert (contains_genesis_state v fbn = false) as ->.
    { unfold contains_genesis_state. change genesis_state_or_chain_id_version with 3.
      apply orb_false_iff. rewrite Z.ltb_ge, Z.eqb_neq. lia. }
    assert (contains_chain_id v fbn = false) as ->.
    { unfold contains_chain_id. change genesis_state_or_chain_id_version with 3.
      apply andb_false_iff. rewrite Z.leb_gt, Z.ltb_ge. lia. }
    reflexivity.
  - lia.
Qed.

(** ** Version-4 entries *)

Lemma to_int64_small z : - 2 ^ 63 ≤ z < 2 ^ 63 → to_int64 z = z.
Proof.
  intros Hz. unfold to_int64, u64.
  destruct (Z.neg_nonneg_cases z) as [Hn|Hp].
  - replace (z mod 2 ^ 64) with (z + 2 ^ 64).
    + destruct (z + 2 ^ 64 <? 2 ^ 63) eqn:E; [apply Z.ltb_lt in E|]; lia.
    + apply Z.mod_unique with (-1); lia.
  - rewrite Z.mod_small by lia.
    destruct (z <? 2 ^ 63) eqn:E; [|apply Z.ltb_ge in E]; lia.
Qed.

Lemma ds_unpack_Ok {A} (f : list byte → option (A * nat)) ds a n :
  0 ≤ ds_pos ds ≤ Zlength' (ds_buf ds) →
  f (ds_remaining_bytes ds) = Some (a, n) →
  ds_unpack f ds = Ok (a, ds_skip (Z.of_nat n) ds).
Proof.
  intros [H0 H1] Hf. unfold ds_unpack.
  apply Z.leb_le in H0. apply Z.leb_le in H1. rewrite H0, H1, Hf. reflexivity.
Qed.

(** C6. Once the size and the compression tag of a version-4 entry are
    read, [unpack] throws a block_log_exception when the tag is not "none";
    with the tag "none" and a block that decodes from n bytes, it throws
    "Invalid block log entry size" when size - 8 - (5 + n) is negative, and
    otherwise skips exactly size - 8 - (5 + n) bytes, which leaves the
    stream at entry start + size - 8, the trailing position. *)
Theorem unpack_v4_entry ds size compression ds1 ds2 :
  ds_read_uint 4 ds = Ok (size, ds1) →
  ds_read_uint 1 ds1 = Ok (compression, ds2) →
  (compression ≠ cf_compression_none →
     ∃ what, unpack ds = Throw (Exn block_log_exception what)) ∧
  (compression = cf_compression_none →
     ∀ b n, block_unpack (ds_remaining_bytes ds2) = Some (b, n) →
       Z.of_nat n < 2 ^ 62 →
       let consumed := 5 + Z.of_nat n in
       (size - 8 - consumed < 0 → unpack ds = Throw MalformedEntry) ∧
       (0 ≤ size - 8 - consumed →
          let ds' := ds_skip (size - 8 - consumed) (ds_skip (Z.of_nat n) ds2) in
          unpack ds = Ok ({| meta_compression := cf_compression_none; meta_size := size |},
                          b, ds') ∧
          ds_tellp ds' = ds_tellp ds + size - 8)).
Proof.
  intros Hs Hc.
  pose proof (ds_read_uint_Ok _ _ _ _ Hs) as (Hp0 & Hp4 & Hsz & ->).
  pose proof (ds_read_uint_Ok _ _ _ _ Hc) as (_ & Hp5 & Hcv & ->).
  change (256 ^ Z.of_nat 4) with (2 ^ 32) in Hsz.
  cbn [ds_skip ds_pos ds_buf] in Hp5.
  unfold unpack. rewrite Hs. cbn [mbind res_bind]. rewrite Hc. cbn [mbind res_bind].
  pose proof COMPRESSION_TYPE_COUNT_pos as Hcount.
  split.
  - intros Hne. unfold cf_compression_none in *.
    destruct (compression <? COMPRESSION_TYPE_COUNT); cbn; [|eauto].
    apply Z.eqb_neq in Hne. rewrite Hne. cbn. eauto.
  - intros -> b n Hb Hn. cbv zeta. set (consumed := 5 + Z.of_nat n).
    unfold cf_compression_none.
    assert ((0 <? COMPRESSION_TYPE_COUNT) = true) as -> by (apply Z.ltb_lt; lia).
    cbn [EOS_ASSERT mbind res_bind Z.eqb].
    rewrite (ds_unpack_Ok _ _ b n); [|cbn [ds_skip ds_pos ds_buf]; lia|exact Hb].
    cbn [mbind res_bind ds_skip ds_pos ds_buf ds_tellp].
    unfold ds_tellp.
    assert (u64 (ds_pos ds + Z.of_nat 4 + Z.of_nat 1 + Z.of_nat n - ds_pos ds) = consumed) as ->.
    { unfold u64, consumed. rewrite Z.mod_small; lia. }
    rewrite to_int64_small by (unfold consumed; lia).
    split.
    + intros Hneg. apply Z.leb_gt in Hneg. rewrite Hneg. reflexivity.
    + intros Hpos. pose proof Hpos as Hpos'. apply Z.leb_le in Hpos'. rewrite Hpos'.
      cbn. split; [reflexivity|]. unfold consumed. lia.
Qed.


(** ** Entries read through [fc::cfile_datastream] *)




End codec_facts.

(** ** Stepping through stateful code *)

Lemma M_bind_Ok {S A B} (m : M S A) (f : A → M S B) s a s' :
  m s = (Ok a, s') → (m ≫= f) s = f a s'.
Proof. intros H. unfold mbind, M_bind. rewrite H. reflexivity. Qed.

Lemma M_bind_Throw {S A B} (m : M S A) (f : A → M S B) s e s' :
  m s = (Throw e, s') → (m ≫= f) s = (Throw e, s').
Proof. intros H. unfold mbind, M_bind. rewrite H. reflexivity. Qed.

Lemma M_bind_Undefined {S A B} (m : M S A) (f : A → M S B) s s' :
  m s = (Undefined, s') → (m ≫= f) s = (Undefined, s').
Proof. intros H. unfold mbind, M_bind. rewrite H. reflexivity. Qed.

Lemma M_bind_inv_Ok {S A B} (m : M S A) (f : A → M S B) s b s' :
  (m ≫= f) s = (Ok b, s') → ∃ a s1, m s = (Ok a, s1) ∧ f a s1 = (Ok b, s').
Proof.
  unfold mbind, M_bind. destruct (m s) as [[a| |] s1]; try discriminate. eauto.
Qed.

Section preserves.
Context {S : Type} (R : S → S → Prop) `{!Reflexive R, !Transitive R}.

Lemma preserves_bind {A B} (m : M S A) (f : A → M S B) :
  preserves R m → (∀ a, preserves R (f a)) → preserves R (m ≫= f).
Proof.
  intros Hm Hf s r s'. unfold mbind, M_bind.
  destruct (m s) as [[a| |] s1] eqn:E.
  - intros H. etrans; [eapply Hm, E|eapply Hf, H].
  - intros [= <- <-]. eapply Hm, E.
  - intros [= <- <-]. eapply Hm, E.
Qed.

Lemma preserves_ret {A} (a : A) : preserves R (mret a).
Proof. intros s r s' [= <- <-]. reflexivity. Qed.

Lemma preserves_gets {A} (f : S → A) : preserves R (gets f).
Proof. intros s r s' [= <- <-]. reflexivity. Qed.

Lemma preserves_lift {A} (r : res A) : preserves R (lift r).
Proof. intros s r' s' [= <- <-]. reflexivity. Qed.

Lemma preserves_modify (f : S → S) : (∀ s, R s (f s)) → preserves R (modify f).
Proof. intros Hf s r s' [= <- <-]. apply Hf. Qed.

Lemma preserves_try {A} (m h : M S A) :
  preserves R m → preserves R h → preserves R (M_try m h).
Proof.
  intros Hm Hh s r s'. unfold M_try.
  destruct (m s) as [[a|e|] s1] eqn:E.
  - intros [= <- <-]. eapply Hm, E.
  - intros H. etrans; [eapply Hm, E|eapply Hh, H].
  - intros [= <- <-]. eapply Hm, E.
Qed.

End preserves.

Lemma preserves_zoom {S T A} (R : S → S → Prop) (Q : T → T → Prop)
  (proj : S → T) (upd : T → S → S) (m : M T A) :
  preserves Q m → (∀ s t, Q (proj s) t → R s (upd t s)) → preserves R (zoom proj upd m).
Proof.
  intros Hm Hup s r s'. unfold zoom. destruct (m (proj s)) as [r1 t] eqn:E.
  intros [= <- <-]. eapply Hup, Hm, E.
Qed.

#[local] Instance same_path_refl : Reflexive same_path.
Proof. intros w. reflexivity. Qed.
#[local] Instance same_path_trans : Transitive same_path.
Proof. intros a b c. unfold same_path. congruence. Qed.

Create HintDb frame.

(** decomposes a goal [preserves R m] along the structure of [m] *)
Ltac frame :=
  repeat first
    [ solve [tc_solve]
    | match goal with |- forall _, preserves _ _ => intros ? end
    | apply preserves_ret
    | apply preserves_gets
    | apply preserves_lift
    | solve [auto with frame]
    | apply preserves_bind
    | apply preserves_try
    | match goal with |- preserves _ (if ?c then _ else _) => destruct c end
    | match goal with |- preserves _ (match ?c with _ => _ end) => destruct c end ].

Lemma cfile_contents_same_path : preserves same_path cfile_contents.
Proof.
  intros [fs f] r w'. unfold cfile_contents.
  destruct (fs !! file_path f); intros [= <- <-]; reflexivity.
Qed.

Lemma cfile_seek_same_path pos : preserves same_path (cfile_seek pos).
Proof. apply preserves_modify. intros [fs f]. reflexivity. Qed.
#[global] Hint Resolve cfile_contents_same_path cfile_seek_same_path : frame.

Lemma cfile_seek_end_same_path off : preserves same_path (cfile_seek_end off).
Proof. unfold cfile_seek_end, throw. frame. Qed.

Lemma cfile_tellp_same_path : preserves same_path cfile_tellp.
Proof. unfold cfile_tellp. frame. Qed.

Lemma cfile_read_same_path n : preserves same_path (cfile_read n).
Proof. unfold cfile_read, cfile_tellp, throw. frame. Qed.

Lemma cfile_write_same_path bytes : preserves same_path (cfile_write bytes).
Proof.
  unfold cfile_write, cfile_tellp. frame.
  apply preserves_modify. intros [fs f]. reflexivity.
Qed.

Lemma cfile_stream_same_path {A} (reader : datastream → res (A * datastream)) :
  preserves same_path (cfile_stream reader).
Proof. unfold cfile_stream, cfile_tellp. frame. Qed.
#[global] Hint Resolve cfile_seek_end_same_path cfile_tellp_same_path cfile_read_same_path
  cfile_write_same_path cfile_stream_same_path : frame.

(** ** Paths *)

Lemma string_app_assoc (a b c : string) : ((a +:+ b) +:+ c = a +:+ (b +:+ c))%string.
Proof.
  induction a as [|x a IH]; [reflexivity|].
  change (String x ((a +:+ b) +:+ c) = String x (a +:+ (b +:+ c)))%string.
  f_equal. exact IH.
Qed.

Lemma replace_extension_unfold d f ext :
  replace_extension {| parent_path := d; filename := f |} ext
  = (d +:+ "/" +:+ f +:+ "." +:+ ext)%string.
Proof.
  unfold replace_extension, path_string, path_append. cbn [parent_path filename].
  rewrite (string_app_assoc d). f_equal.
Qed.

Lemma segment_not_live d a b ext name :
  name = "blocks.log"%string ∨ name = "blocks.index"%string →
  replace_extension {| parent_path := d; filename := segment_filename a b |} ext
  ≠ path_append d name.
Proof.
  intros Hn. rewrite replace_extension_unfold. unfold path_append, segment_filename.
  intros H. apply String.app_inj in H.
  destruct Hn as [-> | ->]; cbv -[fmt_d] in H; discriminate.
Qed.

Lemma live_paths_distinct d : path_append d "blocks.log" ≠ path_append d "blocks.index".
Proof. unfold path_append. intros H. apply String.app_inj in H. discriminate. Qed.

Lemma segment_log_not_index p : replace_extension p "log" ≠ replace_extension p "index".
Proof. unfold replace_extension. intros H. apply String.app_inj in H. discriminate. Qed.

Lemma to_int32_small z : 0 ≤ z < 2 ^ 31 → to_int32 z = z.
Proof.
  intros Hz. unfold to_int32, u32. rewrite Z.mod_small by lia.
  destruct (z <? 2 ^ 31) eqn:E; [reflexivity|]. apply Z.ltb_ge in E. lia.
Qed.

(** below 2^31, [%d] prints the decimal numeral of an unsigned number *)
Lemma segment_filename_decimal first last :
  0 ≤ first < 2 ^ 31 → 0 ≤ last < 2 ^ 31 →
  segment_filename first last =
    ("blocks-" +:+ NilZero.string_of_int (Z.to_int first) +:+ "-" +:+
     NilZero.string_of_int (Z.to_int last))%string.
Proof.
  intros Hf Hl. unfold segment_filename, fmt_d. rewrite !to_int32_small by assumption.
  reflexivity.
Qed.

Section log_facts.
Context `{CL : chain_layer}.

(** ** Appending *)

Lemma cfile_seek_end_0 fs f data :
  fs !! file_path f = Some data →
  cfile_seek_end 0 (fs, f) = (Ok tt, (fs, cf_with_pos f (Zlength' data))).
Proof.
  intros H. unfold cfile_seek_end.
  rewrite (M_bind_Ok _ _ _ data (fs, f)) by (unfold cfile_contents; rewrite H; reflexivity).
  rewrite Z.add_0_r.
  assert ((0 <=? Zlength' data) = true) as -> by (apply Z.leb_le; unfold Zlength'; lia).
  reflexivity.
Qed.

(** C3. [append] throws "Cannot append to block log until the genesis is
    first written" when the genesis has not been written, and throws
    "Append to index file occuring at wrong position." when the end of the
    index file is not at 8 * (block_num - first_block_num), the difference
    taken in uint32_t; in both cases no file has changed, and neither have
    the head, the catalog and the preamble. *)
Theorem append_guards b compression s :
  (genesis_written_to_block_log s = false →
     append b compression s = (Throw AppendBeforeReset, s)) ∧
  (genesis_written_to_block_log s = true →
     ∀ log idx,
       fs s !! file_path (block_file s) = Some log →
       fs s !! file_path (index_file s) = Some idx →
       Zlength' idx ≠ 8 * u32 (block_num b - first_block_num (preamble s)) →
       ∃ s', append b compression s = (Throw IndexDesync, s') ∧
             fs s' = fs s ∧ head s' = head s ∧ catalog s' = catalog s ∧
             preamble s' = preamble s).
Proof.
  split.
  - intros Hg. unfold append. apply M_bind_Throw.
    unfold append_entry. rewrite (M_bind_Ok _ _ _ false s) by (unfold gets; rewrite Hg; reflexivity).
    reflexivity.
  - intros Hg log idx Hlog Hidx Hne.
    set (s1 := impl_with_files s (fs s) (cf_with_pos (block_file s) (Zlength' log)) (index_file s)).
    set (s2 := impl_with_files s1 (fs s1) (block_file s1)
                 (cf_with_pos (index_file s1) (Zlength' idx))).
    exists s2. split; [|repeat split].
    unfold append. apply M_bind_Throw.
    unfold append_entry.
    rewrite (M_bind_Ok _ _ _ true s) by (unfold gets; rewrite Hg; reflexivity).
    rewrite (M_bind_Ok _ _ _ tt s) by reflexivity.
    rewrite (M_bind_Ok _ _ _ tt s1).
    2:{ unfold on_block_file, zoom. rewrite (cfile_seek_end_0 _ _ log Hlog). reflexivity. }
    rewrite (M_bind_Ok _ _ _ tt s2).
    2:{ unfold on_index_file, zoom.
        change (cfile_seek_end 0 (fs s1, index_file s1))
          with (cfile_seek_end 0 (fs s, index_file s)).
        rewrite (cfile_seek_end_0 _ _ idx Hidx). reflexivity. }
    rewrite (M_bind_Ok _ _ _ (Zlength' idx) s2) by reflexivity.
    rewrite (M_bind_Ok _ _ _ (preamble s) s2) by reflexivity.
    apply M_bind_Throw. unfold M_ASSERT, lift.
    apply Z.eqb_neq in Hne. rewrite Hne. reflexivity.
Qed.

(** ** Recovery from an incomplete head *)

(** C4. With [back] the last slot of the index,
    [recover_from_incomplete_block_head] returns true, having resized the
    log file to back + entry_size, exactly when the preamble version is at
    least 4, the log is longer than back + 4, longer than back + entry_size
    (entry_size the uint32_t at back) and the entry at back light-validates
    for block first_block_num + index.num_blocks() - 1; in every other case
    it returns false and changes nothing: without reading the log when the
    version or the first size test fails, and otherwise as long as the
    reads it gets to, of entry_size and then of the validation, stay inside
    the mapped log. *)
Theorem recover_from_incomplete_block_head_iff s log_data index back data :
  index_back index = Ok back →
  fs s !! file_path (block_file s) = Some data →
  (∀ entry_size, head_is_recoverable s log_data index back entry_size →
     recover_from_incomplete_block_head log_data index s =
       (Ok true,
        impl_with_files s
          (<[file_path (block_file s) := resize data (u64 (back + entry_size))]> (fs s))
          (block_file s) (index_file s))) ∧
  ((¬ ∃ entry_size, head_is_recoverable s log_data index back entry_size) →
     (pruned_transaction_version ≤ version (preamble s) →
      u64 (back + 4) < log_size log_data →
      read_buffer 4 (log_file log_data) back ≠ Undefined ∧
      ∀ entry_size,
        read_buffer 4 (log_file log_data) back = Ok entry_size →
        u64 (back + entry_size) < log_size log_data →
        light_validate_block_entry_at log_data back
          (u32 (log_first_block_num log_data + index_num_blocks index - 1)) ≠ Undefined) →
     recover_from_incomplete_block_head log_data index s = (Ok false, s)).
Proof.
  intros Hback Hfile.
  unfold recover_from_incomplete_block_head, head_is_recoverable.
  rewrite (M_bind_Ok _ _ _ (preamble s) s) by reflexivity.
  split.
  - intros es (Hv & H4 & Hes & Htr & Hlv).
    apply Z.leb_le in Hv. rewrite Hv.
    rewrite (M_bind_Ok _ _ _ back s) by (unfold lift; rewrite Hback; reflexivity).
    apply Z.ltb_lt in H4. rewrite H4.
    rewrite (M_bind_Ok _ _ _ es s) by (unfold lift; rewrite Hes; reflexivity).
    apply Z.ltb_lt in Htr. rewrite Htr.
    unfold M_try.
    rewrite (M_bind_Ok _ _ _ tt s) by (unfold lift; rewrite Hlv; reflexivity).
    rewrite (M_bind_Ok _ _ _ (file_path (block_file s)) s) by reflexivity.
    unfold on_file_system, zoom, lift_resize, resize_file, mbind, M_bind.
    rewrite Hfile. reflexivity.
  - intros Hnot Hdef.
    destruct (pruned_transaction_version <=? version (preamble s)) eqn:Hv; [|reflexivity].
    rewrite (M_bind_Ok _ _ _ back s) by (unfold lift; rewrite Hback; reflexivity).
    destruct (u64 (back + 4) <? log_size log_data) eqn:H4; [|reflexivity].
    apply Z.leb_le in Hv. apply Z.ltb_lt in H4.
    destruct (Hdef Hv H4) as [Hsize Hvalid].
    destruct (read_buffer 4 (log_file log_data) back) as [es|e|] eqn:Hes;
      [|unfold read_buffer in Hes; destruct (_ && _); discriminate|contradiction].
    rewrite (M_bind_Ok _ _ _ es s) by reflexivity.
    destruct (u64 (back + es) <? log_size log_data) eqn:Htr; [|reflexivity].
    apply Z.ltb_lt in Htr.
    unfold M_try.
    destruct (light_validate_block_entry_at log_data back
                (u32 (log_first_block_num log_data + index_num_blocks index - 1)))
      as [[]|e|] eqn:Hlv.
    + exfalso. apply Hnot. exists es. auto.
    + rewrite (M_bind_Throw _ _ _ e s) by reflexivity.
      reflexivity.
    + exfalso. apply (Hvalid es); auto.
Qed.

(** ** Reading a block id that no file holds *)

Lemma collection_upper_bound_pred bn (c : list (Z * mapped_type)) n :
  collection_upper_bound bn c = S n →
  ∃ k v, c !! n = Some (k, v) ∧ k ≤ bn.
Proof.
  revert n. induction c as [|[k v] r IH]; intros n; cbn; [discriminate|].
  destruct (bn <? k) eqn:E; [discriminate|]. apply Z.ltb_ge in E.
  intros [= Hn]. destruct n as [|n].
  - exists k, v. split; [reflexivity|lia].
  - destruct (IH n) as (k' & v' & Hl & Hk); [|eauto].
    destruct r as [|[k1 v1] r]; [discriminate|]. cbn in Hn |- *. exact Hn.
Qed.

Lemma set_active_item_not_found fs c bn :
  ¬ in_catalog c bn →
  (∀ i, active_index c = Some i → (i < length (collection c))%nat) →
  set_active_item bn (fs, c) = (Ok false, (fs, c)).
Proof.
  intros Hnot Hact.
  assert (∀ first item, (first, item) ∈ collection c →
            (first <=? bn) && (bn <=? last_block_num_of item) = false) as Hout.
  { intros first item Hin. apply not_true_iff_false. intros Ht.
    apply andb_prop in Ht as [H1 H2]. apply Z.leb_le in H1. apply Z.leb_le in H2.
    apply Hnot. exists first, item. auto. }
  unfold set_active_item, M_try.
  assert (set_active_item_body bn (fs, c) = (Ok false, (fs, c))) as ->; [|reflexivity].
  unfold set_active_item_body.
  rewrite (M_bind_Ok _ _ _ c (fs, c)) by reflexivity.
  rewrite (M_bind_Ok _ _ _ false (fs, c)).
  2:{ destruct (active_index c) as [i|] eqn:Ha; [|reflexivity].
      destruct (lookup_lt_is_Some_2 (collection c) i (Hact i eq_refl)) as [[first item] Hl].
      rewrite Hl. rewrite (Hout first item); [reflexivity|].
      apply list_elem_of_lookup. eauto. }
  destruct (collection c) as [|[first0 item0] r] eqn:Hc; [reflexivity|].
  destruct (bn <? first0) eqn:Hlt; [reflexivity|].
  destruct (collection_upper_bound bn ((first0, item0) :: r)) as [|n] eqn:Hub.
  { cbn in Hub. rewrite Hlt in Hub. discriminate. }
  destruct (collection_upper_bound_pred _ _ _ Hub) as (k & v & Hl & Hk).
  replace (S n - 1)%nat with n by lia. rewrite Hl.
  assert ((bn <=? last_block_num_of v) = false) as ->; [|reflexivity].
  specialize (Hout k v). rewrite andb_false_iff in Hout.
  destruct Hout as [H|H]; [apply list_elem_of_lookup; eauto| |exact H].
  apply Z.leb_gt in H. lia.
Qed.

Lemma impl_with_catalog_id s : impl_with_catalog s (fs s) (catalog s) = s.
Proof. destruct s. reflexivity. Qed.

(** C9. For a block number outside the range of the live log and outside
    every segment of the catalog, [read_block_id_by_num] returns the
    default-constructed block id and throws nothing, and the log is left as
    it was; the path that does find an entry throws "Wrong block header was
    read from block log." when the decoded header carries another number. *)
Theorem read_block_id_by_num_absent s bn :
  ¬ in_live_range s bn →
  ¬ in_catalog (catalog s) bn →
  (∀ i, active_index (catalog s) = Some i → (i < length (collection (catalog s)))%nat) →
  read_block_id_by_num bn s = (Ok empty_block_id, s) ∧
  (∀ ds version ds1 bh ds2,
     read_entry_prefix ds version = Ok ds1 →
     ds_unpack header_unpack ds1 = Ok (bh, ds2) →
     header_block_num bh ≠ bn →
     read_block_id ds version bn = Throw wrong_block_header).
Proof.
  intros Hlive Hcat Hact. split.
  - unfold read_block_id_by_num.
    rewrite (M_bind_Ok _ _ _ npos s).
    2:{ unfold get_block_pos. rewrite (M_bind_Ok _ _ _ s s) by reflexivity.
        unfold in_live_range in Hlive.
        destruct (head s) as [h|]; [|reflexivity].
        destruct ((bn <=? block_num h) && (first_block_num (preamble s) <=? bn)) eqn:E;
          [|reflexivity].
        apply andb_prop in E as [E1 E2]. apply Z.leb_le in E1. apply Z.leb_le in E2.
        exfalso. apply Hlive. lia. }
    change (negb (npos =? npos)) with false. cbv iota.
    rewrite (M_bind_Ok _ _ _ false s); [reflexivity|].
    unfold on_catalog, zoom.
    rewrite (set_active_item_not_found _ _ _ Hcat Hact).
    rewrite impl_with_catalog_id. reflexivity.
  - intros ds ver ds1 bh ds2 Hpre Hhdr Hne.
    unfold read_block_id. rewrite Hpre. cbn [mbind res_bind]. rewrite Hhdr. cbn [mbind res_bind].
    apply Z.eqb_neq in Hne. rewrite Hne. reflexivity.
Qed.

(** ** What appending an entry leaves alone *)

#[local] Instance same_frame_refl : Reflexive same_frame.
Proof. intros s. unfold same_frame. auto 10. Qed.
#[local] Instance same_frame_trans : Transitive same_frame.
Proof. intros a b c. unfold same_frame. intuition congruence. Qed.

Lemma on_block_file_frame {A} (m : M (file_system * cfile) A) :
  preserves same_path m → preserves same_frame (on_block_file m).
Proof.
  intros Hm. unfold on_block_file. eapply preserves_zoom; [exact Hm|].
  intros s [fs' f] Hp. unfold same_path in Hp. cbn in Hp.
  unfold same_frame. cbn. auto 10.
Qed.

Lemma on_index_file_frame {A} (m : M (file_system * cfile) A) :
  preserves same_path m → preserves same_frame (on_index_file m).
Proof.
  intros Hm. unfold on_index_file. eapply preserves_zoom; [exact Hm|].
  intros s [fs' f] Hp. unfold same_path in Hp. cbn in Hp.
  unfold same_frame. cbn. auto 10.
Qed.

Hint Resolve on_block_file_frame on_index_file_frame : frame.

Lemma write_log_entry_frame b c : preserves same_frame (write_log_entry b c).
Proof. unfold write_log_entry, M_ASSERT, throw. frame. Qed.

Lemma append_entry_Ok b c s pos s1 :
  append_entry b c s = (Ok pos, s1) →
  head s1 = Some b ∧ data_dir s1 = data_dir s ∧ catalog s1 = catalog s ∧
  preamble s1 = preamble s ∧ stride s1 = stride s ∧
  genesis_written_to_block_log s1 = true ∧
  file_path (block_file s1) = file_path (block_file s) ∧
  file_path (index_file s1) = file_path (index_file s).
Proof.
  unfold append_entry. intros H.
  apply M_bind_inv_Ok in H as (g & sa & [= <- <-] & H).
  apply M_bind_inv_Ok in H as ([] & sa & Hg & H).
  assert (genesis_written_to_block_log s = true ∧ sa = s) as [Hgw ->].
  { unfold M_ASSERT, lift in Hg. destruct (genesis_written_to_block_log s); [|discriminate].
    injection Hg as <-. auto. }
  apply M_bind_inv_Ok in H as ([] & sb & Hb & H).
  apply M_bind_inv_Ok in H as ([] & sc & Hc & H).
  apply M_bind_inv_Ok in H as (tellp & sd & Ht & H).
  apply M_bind_inv_Ok in H as (p & sd' & [= <- <-] & H).
  apply M_bind_inv_Ok in H as ([] & sd' & Hd & H).
  assert (sd' = sd) as -> by (unfold M_ASSERT, lift in Hd; injection Hd; auto).
  apply M_bind_inv_Ok in H as (pos' & se & He & H).
  apply M_bind_inv_Ok in H as ([] & sf & [= <-] & [= <- <-]).
  assert (same_frame s se) as F.
  { etrans; [eapply on_block_file_frame, Hb; auto with frame|].
    etrans; [eapply on_index_file_frame, Hc; auto with frame|].
    etrans; [eapply on_index_file_frame, Ht; auto with frame|].
    eapply write_log_entry_frame, He. }
  destruct F as (? & ? & ? & ? & ? & ? & ? & ?). unfold impl_with_head. cbn.
  repeat split; congruence.
Qed.

(** ** Rotation *)

Lemma write_at_nil bytes : write_at [] 0 bytes = bytes.
Proof. unfold write_at. cbn. rewrite drop_nil, app_nil_r. reflexivity. Qed.

Lemma catalog_add_Ok fs fs2 c start_block_num end_block_num base :
  evict_files (archive_dir c) (take (items_to_erase c) (collection c)) fs = (Ok tt, fs2) →
  catalog_add start_block_num end_block_num base (fs, c) =
    (Ok tt, (fs2, catalog_after_add c start_block_num end_block_num base)).
Proof.
  intros Hev. unfold catalog_add, catalog_after_add.
  rewrite (M_bind_Ok _ _ _ c (fs, c)) by reflexivity.
  destruct (max_retained_files c <=? Z.of_nat (length (collection c))) eqn:Hfull.
  - unfold on_fs, on_snd, zoom, mbind, M_bind, modify. cbn [fst snd].
    rewrite Hev. destruct (0 <? max_retained_files c); reflexivity.
  - assert (items_to_erase c = 0%nat) as Hz by (unfold items_to_erase; rewrite Hfull; reflexivity).
    rewrite Hz in Hev. cbn in Hev. injection Hev as <-.
    unfold on_fs, on_snd, zoom, mbind, M_bind, modify. cbn.
    destruct (0 <? max_retained_files c); reflexivity.
Qed.

Lemma split_log_spec s h fs2 L I :
  head s = Some h →
  file_path (block_file s) = path_append (data_dir s) "blocks.log" →
  file_path (index_file s) = path_append (data_dir s) "blocks.index" →
  evict_files (archive_dir (catalog s))
    (take (items_to_erase (catalog s)) (collection (catalog s))) (fs s) = (Ok tt, fs2) →
  fs2 !! file_path (block_file s) = Some L →
  fs2 !! file_path (index_file s) = Some I →
  let fbn := first_block_num (preamble s) in
  let base := {| parent_path := data_dir s; filename := segment_filename fbn (block_num h) |} in
  ∃ s' bytes, split_log s = (Ok tt, s') ∧
    write_to (rotated_preamble s h) = Ok bytes ∧
    fs s' !! replace_extension base "log" = Some L ∧
    fs s' !! replace_extension base "index" = Some I ∧
    fs s' !! file_path (block_file s) = Some bytes ∧
    fs s' !! file_path (index_file s) = Some [] ∧
    preamble s' = rotated_preamble s h ∧
    catalog s' = catalog_after_add (catalog s) fbn (block_num h) base ∧
    head s' = head s ∧ stride s' = stride s ∧ data_dir s' = data_dir s ∧
    genesis_written_to_block_log s' = genesis_written_to_block_log s ∧
    file_path (block_file s') = file_path (block_file s) ∧
    file_path (index_file s') = file_path (index_file s).
Proof.
  intros Hh Hlp Hip Hev HL HI fbn base. subst fbn base.
  destruct s as [fs0 dd hd cat [lp lo lpos] [ip io ipos] gw pre st].
  cbn [head fs data_dir catalog block_file index_file preamble stride file_path
       genesis_written_to_block_log] in *. subst hd.
  set (base := {| parent_path := dd;
                  filename := segment_filename (first_block_num pre) (block_num h) |}).
  assert (replace_extension base "log" ≠ lp) as N1
    by (rewrite Hlp; apply segment_not_live; auto).
  assert (replace_extension base "log" ≠ ip) as N2
    by (rewrite Hip; apply segment_not_live; auto).
  assert (replace_extension base "index" ≠ lp) as N3
    by (rewrite Hlp; apply segment_not_live; auto).
  assert (replace_extension base "index" ≠ ip) as N4
    by (rewrite Hip; apply segment_not_live; auto).
  assert (lp ≠ ip) as N5 by (rewrite Hlp, Hip; apply live_paths_distinct).
  pose proof (segment_log_not_index base) as N6.
  unfold split_log, on_block_file, on_index_file, on_catalog, on_file_system, zoom,
    mbind, M_bind, gets, modify, cfile_close, cfile_open_truncate.
  cbn -[catalog_add replace_extension write_to cfile_write fs_rename].
  fold base.
  rewrite (catalog_add_Ok _ fs2) by exact Hev.
  cbn -[catalog_add replace_extension write_to cfile_write fs_rename].
  unfold fs_rename at 1. rewrite HL.
  cbn -[catalog_add replace_extension write_to cfile_write fs_rename].
  unfold fs_rename at 1. rewrite lookup_insert_ne, lookup_delete_ne, HI by congruence.
  cbn -[catalog_add replace_extension write_to cfile_write fs_rename].
  unfold write_to. cbn [version first_block_num chain_context].
  change (negb (max_supported_version =? initial_version)) with true. cbv iota.
  unfold cfile_write, cfile_contents, cfile_tellp, gets, modify, mbind, M_bind, mret, M_ret.
  cbn [file_path cf_with_open cf_pos fst snd].
  rewrite lookup_insert_ne, lookup_insert_eq by congruence.
  cbv beta iota.
  eexists _, _. split; [reflexivity|]. split; [reflexivity|].
  lazy [head fs data_dir catalog block_file index_file preamble stride file_path
        genesis_written_to_block_log cf_with_pos cf_with_open
        impl_with_files impl_with_preamble impl_with_catalog rotated_preamble].
  repeat split.
  - rewrite lookup_insert_ne by congruence. rewrite lookup_insert_ne by congruence.
    rewrite lookup_insert_ne by congruence. rewrite lookup_insert_ne by congruence.
    rewrite lookup_delete_ne by congruence. apply lookup_insert_eq.
  - rewrite lookup_insert_ne by congruence. rewrite lookup_insert_ne by congruence.
    rewrite lookup_insert_ne by congruence. apply lookup_insert_eq.
  - rewrite lookup_insert_eq. f_equal. etrans; [apply write_at_nil|reflexivity].
  - rewrite lookup_insert_ne by congruence. apply lookup_insert_eq.
Qed.

(** [emplace] under a key that is not in the map puts the value there *)
Lemma collection_emplace_find k v (c : list (Z * mapped_type)) :
  collection_find k c = None →
  collection_find k (collection_emplace k v c) = Some v.
Proof.
  induction c as [|[k0 v0] r IH]; cbn.
  - intros _. rewrite Z.eqb_refl. reflexivity.
  - destruct (k =? k0) eqn:E; [discriminate|]. intros Hnone.
    destruct (k <? k0); cbn.
    + rewrite Z.eqb_refl. reflexivity.
    + rewrite E. apply IH, Hnone.
Qed.

(** [emplace] never raises the first key above the key it is given, and
    keeps a first key that is not above it *)
Lemma collection_emplace_first k v (c : list (Z * mapped_type)) :
  ∃ k0 v0 r, collection_emplace k v c = (k0, v0) :: r ∧ k0 ≤ k ∧
    (c = [] → k0 = k) ∧
    (∀ k1 v1 r1, c = (k1, v1) :: r1 → k1 ≤ k → k0 = k1).
Proof.
  destruct c as [|[k1 v1] r1]; cbn.
  - exists k, v, []. split; [reflexivity|]. split; [lia|]. split; [reflexivity|]. discriminate.
  - destruct (k <? k1) eqn:E1.
    + apply Z.ltb_lt in E1. exists k, v, ((k1, v1) :: r1).
      split; [reflexivity|]. split; [lia|]. split; [discriminate|].
      intros k2 v2 r2 [= <- <- <-] Hle. lia.
    + apply Z.ltb_ge in E1. destruct (k =? k1) eqn:E2.
      * exists k1, v1, r1. split; [reflexivity|]. split; [lia|]. split; [discriminate|].
        intros k2 v2 r2 [= <- <- <-] _. reflexivity.
      * exists k1, v1, (collection_emplace k v r1).
        split; [reflexivity|]. split; [lia|]. split; [discriminate|].
        intros k2 v2 r2 [= <- <- <-] _. reflexivity.
Qed.

(** C7 (amended). Once [append] has written the entry of block b (state
    s1), with a stride other than 0: when b's number is not a multiple of
    the stride, [append] returns in s1, nothing rotated.  When it is a
    multiple, and the eviction of the oldest segments succeeds and leaves
    the live files in place, the live log and index are renamed to
    blocks-<first_block_num>-<b.num>.log and .index in the data directory
    (the numbers printed by %d, which is their decimal numeral below
    2^31), the live log is started afresh with the preamble of version 4,
    first block number b.num + 1 and the chain id, the live index is
    empty, and the segment is in the catalog when max_retained_files > 0
    and none of the segments that stay retained is registered under
    first_block_num already (emplace does not replace an entry); with
    max_retained_files = 0 the catalog is left empty. *)
Theorem append_rotation b compression s pos s1 :
  append_entry b compression s = (Ok pos, s1) →
  stride s ≠ 0 →
  (block_num b mod stride s ≠ 0 → append b compression s = (Ok pos, s1)) ∧
  (block_num b mod stride s = 0 →
   file_path (block_file s) = path_append (data_dir s) "blocks.log" →
   file_path (index_file s) = path_append (data_dir s) "blocks.index" →
   ∀ fs2 L I,
     evict_files (archive_dir (catalog s))
       (take (items_to_erase (catalog s)) (collection (catalog s))) (fs s1) = (Ok tt, fs2) →
     fs2 !! file_path (block_file s) = Some L →
     fs2 !! file_path (index_file s) = Some I →
     let fbn := first_block_num (preamble s) in
     let base := {| parent_path := data_dir s;
                    filename := segment_filename fbn (block_num b) |} in
     ∃ s' bytes,
       append b compression s = (Ok pos, s') ∧
       fs s' !! replace_extension base "log" = Some L ∧
       fs s' !! replace_extension base "index" = Some I ∧
       preamble s' = {| version := max_supported_version;
                        first_block_num := u32 (block_num b + 1);
                        chain_context := inr (preamble_chain_id (preamble s)) |} ∧
       write_to (preamble s') = Ok bytes ∧
       fs s' !! file_path (block_file s) = Some bytes ∧
       fs s' !! file_path (index_file s) = Some [] ∧
       (0 < max_retained_files (catalog s) →
        collection_find fbn
          (drop (items_to_erase (catalog s)) (collection (catalog s))) = None →
        collection_find fbn (collection (catalog s')) =
          Some {| last_block_num_of := block_num b; filename_base := base |}) ∧
       (max_retained_files (catalog s) ≤ 0 → collection (catalog s') = []) ∧
       (0 ≤ fbn < 2 ^ 31 → 0 ≤ block_num b < 2 ^ 31 →
        filename base =
          ("blocks-" +:+ NilZero.string_of_int (Z.to_int fbn) +:+ "-" +:+
           NilZero.string_of_int (Z.to_int (block_num b)))%string)).
Proof.
  intros Hentry Hstride.
  pose proof (append_entry_Ok _ _ _ _ _ Hentry) as (Hh & Hdd & Hcat & Hpre & Hst & _ & Hlp & Hip).
  apply Z.eqb_neq in Hstride.
  split.
  - intros Hmod. unfold append. rewrite (M_bind_Ok _ _ _ pos s1 Hentry).
    rewrite (M_bind_Ok _ _ _ (stride s) s1) by (unfold gets; rewrite Hst; reflexivity).
    rewrite Hstride. apply Z.eqb_neq in Hmod. rewrite Hmod. reflexivity.
  - intros Hmod Hlive Hidx fs2 L I Hev HL HI fbn base.
    destruct (split_log_spec s1 b fs2 L I) as (s' & bytes & Hsplit & Hw & F1 & F2 & F3 & F4
      & F5 & F6 & _); try congruence.
    rewrite Hdd, Hpre, Hcat, ?Hlp, ?Hip in *. fold fbn base in F1, F2, F6.
    exists s', bytes. split; [|repeat split].
    + unfold append. rewrite (M_bind_Ok _ _ _ pos s1 Hentry).
      rewrite (M_bind_Ok _ _ _ (stride s) s1) by (unfold gets; rewrite Hst; reflexivity).
      rewrite Hstride. apply Z.eqb_eq in Hmod. rewrite Hmod.
      rewrite (M_bind_Ok _ _ _ tt s' Hsplit). reflexivity.
    + exact F1.
    + exact F2.
    + rewrite F5. unfold rotated_preamble. rewrite Hpre. reflexivity.
    + rewrite F5. exact Hw.
    + exact F3.
    + exact F4.
    + intros Hmax Hfresh. rewrite F6. unfold catalog_after_add.
      apply Z.ltb_lt in Hmax. rewrite Hmax.
      destruct (max_retained_files (catalog s) <=? Z.of_nat (length (collection (catalog s))))
        eqn:Hfull; cbn [collection cat_with_collection]; apply collection_emplace_find.
      * exact Hfresh.
      * unfold items_to_erase in Hfresh. rewrite Hfull in Hfresh. exact Hfresh.
    + intros Hmax. rewrite F6. unfold catalog_after_add, items_to_erase.
      assert ((0 <? max_retained_files (catalog s)) = false) as -> by (apply Z.ltb_ge; lia).
      assert ((max_retained_files (catalog s) <=? Z.of_nat (length (collection (catalog s))))
              = true) as -> by (apply Z.leb_le; lia).
      cbn [collection cat_with_collection]. apply drop_all.
    + intros Hf Hb. apply segment_filename_decimal; assumption.
Qed.

(** C10 (amended). [first_block_num()] is the first key of the catalog
    when the catalog is not empty and the preamble's first block number
    only when it is empty.  After an [append] that rotates the log (the
    eviction of old segments succeeding and leaving the live files in
    place), the new live preamble starts at b.num + 1, and: with
    max_retained_files > 0 the catalog is not empty and [first_block_num()]
    is the first block of the oldest retained segment, which is not above
    the first block of the log that was rotated, hence below the new live
    preamble's (b.num not below that first block, and b.num + 1 within 32
    bits); it is what it was before the rotation when the catalog
    had room (no segment evicted) and its oldest segment did not start
    above the live log.  With max_retained_files = 0 nothing is retained
    and [first_block_num()] is the new live preamble's. *)
Theorem first_block_num_prefers_catalog s :
  (∀ k v r, collection (catalog s) = (k, v) :: r → block_log_first_block_num s = k) ∧
  (collection (catalog s) = [] →
     block_log_first_block_num s = first_block_num (preamble s)) ∧
  (∀ b compression pos s1 fs2 L I,
     append_entry b compression s = (Ok pos, s1) →
     stride s ≠ 0 → block_num b mod stride s = 0 →
     file_path (block_file s) = path_append (data_dir s) "blocks.log" →
     file_path (index_file s) = path_append (data_dir s) "blocks.index" →
     evict_files (archive_dir (catalog s))
       (take (items_to_erase (catalog s)) (collection (catalog s))) (fs s1) = (Ok tt, fs2) →
     fs2 !! file_path (block_file s) = Some L →
     fs2 !! file_path (index_file s) = Some I →
     ∃ s', append b compression s = (Ok pos, s') ∧
       first_block_num (preamble s') = u32 (block_num b + 1) ∧
       (0 < max_retained_files (catalog s) →
          collection (catalog s') ≠ [] ∧
          block_log_first_block_num s' ≤ first_block_num (preamble s) ∧
          (first_block_num (preamble s) ≤ block_num b → 0 ≤ block_num b < 2 ^ 32 - 1 →
             block_log_first_block_num s' < first_block_num (preamble s')) ∧
          (Z.of_nat (length (collection (catalog s))) < max_retained_files (catalog s) →
           (∀ k v r, collection (catalog s) = (k, v) :: r → k ≤ first_block_num (preamble s)) →
           block_log_first_block_num s' = block_log_first_block_num s)) ∧
       (max_retained_files (catalog s) ≤ 0 →
          collection (catalog s') = [] ∧
          block_log_first_block_num s' = first_block_num (preamble s'))).
Proof.
  split; [|split].
  - intros k v r Hc. unfold block_log_first_block_num, catalog_empty. rewrite Hc. reflexivity.
  - intros Hc. unfold block_log_first_block_num, catalog_empty. rewrite Hc. reflexivity.
  - intros b compression pos s1 fs2 L I Hentry Hstride Hmod Hlive Hidx Hev HL HI.
    pose proof (append_entry_Ok _ _ _ _ _ Hentry)
      as (Hh & Hdd & Hcat & Hpre & Hst & _ & Hlp & Hip).
    destruct (split_log_spec s1 b fs2 L I) as (s' & bytes & Hsplit & _ & _ & _ & _ & _
      & F5 & F6 & _); try congruence.
    rewrite Hdd, Hpre, Hcat in *.
    set (fbn := first_block_num (preamble s)) in *.
    set (item := {| last_block_num_of := block_num b;
                    filename_base := {| parent_path := data_dir s;
                                        filename := segment_filename fbn (block_num b) |} |}).
    assert (first_block_num (preamble s') = u32 (block_num b + 1)) as Hnew
      by (rewrite F5; reflexivity).
    exists s'. split; [|split; [exact Hnew|split]].
    + unfold append. rewrite (M_bind_Ok _ _ _ pos s1 Hentry).
      rewrite (M_bind_Ok _ _ _ (stride s) s1) by (unfold gets; rewrite Hst; reflexivity).
      apply Z.eqb_neq in Hstride. rewrite Hstride.
      apply Z.eqb_eq in Hmod. rewrite Hmod.
      rewrite (M_bind_Ok _ _ _ tt s' Hsplit). reflexivity.
    + intros Hmax.
      assert (∃ c1, collection (catalog s') = collection_emplace fbn item c1 ∧
                    (Z.of_nat (length (collection (catalog s))) < max_retained_files (catalog s) →
                     c1 = collection (catalog s))) as (c1 & Hc' & Hroom).
      { rewrite F6. unfold catalog_after_add.
        assert ((0 <? max_retained_files (catalog s)) = true) as -> by (apply Z.ltb_lt; lia).
        destruct (max_retained_files (catalog s) <=? Z.of_nat (length (collection (catalog s))))
          eqn:Hfull; cbn [collection cat_with_collection].
        - eexists. split; [reflexivity|]. apply Z.leb_le in Hfull. lia.
        - eexists. split; [reflexivity|]. reflexivity. }
      destruct (collection_emplace_first fbn item c1) as (k0 & v0 & r & He & Hle & Hnil & Hkeep).
      assert (block_log_first_block_num s' = k0) as Hval.
      { unfold block_log_first_block_num, catalog_empty. rewrite Hc', He. reflexivity. }
      split; [rewrite Hc', He; discriminate|].
      split; [lia|]. split.
      * intros Hb Hrange. rewrite Hnew, Hval. unfold u32. rewrite Z.mod_small; lia.
      * intros Hlt Hold. rewrite Hval. specialize (Hroom Hlt). subst c1.
        unfold block_log_first_block_num, catalog_empty.
        destruct (collection (catalog s)) as [|[k1 v1] r1] eqn:Hc.
        -- cbn. apply Hnil. reflexivity.
        -- cbn. apply (Hkeep k1 v1 r1 eq_refl). apply (Hold k1 v1 r1 eq_refl).
    + intros Hmax.
      assert (collection (catalog s') = []) as Hc'.
      { rewrite F6. unfold catalog_after_add, items_to_erase.
        assert ((0 <? max_retained_files (catalog s)) = false) as -> by (apply Z.ltb_ge; lia).
        assert ((max_retained_files (catalog s) <=? Z.of_nat (length (collection (catalog s))))
                = true) as -> by (apply Z.leb_le; lia).
        cbn [collection cat_with_collection]. apply drop_all. }
      split; [exact Hc'|].
      unfold block_log_first_block_num, catalog_empty. rewrite Hc'. reflexivity.
Qed.

End log_facts.

(** ** Does the index match the log? *)

Lemma res_bind_inv_Ok {A B} (m : res A) (f : A → res B) b :
  m ≫= f = Ok b → ∃ a, m = Ok a ∧ f a = Ok b.
Proof. destruct m as [a| |]; cbn; try discriminate. eauto. Qed.

Section index_facts.
Context `{CL : chain_layer}.

(** an index with as many slots as the log has blocks is never accepted *)
Lemma index_matches_data_equal_count (fs : file_system) index_path log idx n :
  fs !! index_path = Some idx →
  log_num_blocks log = Ok n →
  u64 (Zlength' idx) / 8 = n →
  index_matches_data fs index_path log = Ok false.
Proof.
  intros Hidx Hn Heq. unfold index_matches_data. rewrite Hidx, Hn. cbn [mbind res_bind].
  apply Z.eqb_eq in Heq. rewrite Heq. reflexivity.
Qed.

(** an index of another length is accepted as soon as its last slot is the
    position of the last block *)
Lemma index_matches_data_other_count (fs : file_system) index_path log idx n pos :
  fs !! index_path = Some idx →
  log_num_blocks log = Ok n →
  u64 (Zlength' idx) / 8 ≠ n →
  read_last_position idx = Ok pos →
  last_block_position log = Ok pos →
  index_matches_data fs index_path log = Ok true.
Proof.
  intros Hidx Hn Hne Hpos Hlast. unfold index_matches_data. rewrite Hidx, Hn.
  cbn [mbind res_bind]. apply Z.eqb_neq in Hne. rewrite Hne. cbn [negb].
  rewrite Hpos, Hlast. cbn [mbind res_bind]. rewrite Z.eqb_refl. reflexivity.
Qed.

(** [open] rebuilds the index of a segment whenever [index_matches_data]
    returns false *)
Lemma catalog_open_segment_rebuilds base (fs : file_system) c log :
  block_log_data_open fs (replace_extension base "log") = Ok log →
  chain_id_empty (chain_id c) = true →
  index_matches_data fs (replace_extension base "index") log = Ok false →
  ∀ r fs', construct_index (replace_extension base "log") (replace_extension base "index") fs
           = (r, fs') →
  fst (snd (catalog_open_segment base (fs, c))) = fs'.
Proof.
  intros Hlog Hid Hm r fs' Hc. unfold catalog_open_segment.
  rewrite (M_bind_Ok _ _ _ fs (fs, c)) by reflexivity.
  rewrite (M_bind_Ok _ _ _ log (fs, c)) by (unfold lift; rewrite Hlog; reflexivity).
  rewrite (M_bind_Ok _ _ _ c (fs, c)) by reflexivity.
  rewrite Hid.
  set (c1 := cat_with_chain_id c (log_chain_id log)).
  rewrite (M_bind_Ok _ _ _ tt (fs, c1)) by reflexivity.
  rewrite (M_bind_Ok _ _ _ false (fs, c1)) by (unfold lift; rewrite Hm; reflexivity).
  cbn [negb].
  destruct r as [[]|e|].
  - rewrite (M_bind_Ok _ _ _ tt (fs', c1)) by (unfold on_fs, zoom; cbn; rewrite Hc; reflexivity).
    destruct (last_block_num log) as [last|e|] eqn:Hl.
    + rewrite (M_bind_Ok _ _ _ last (fs', c1)) by reflexivity.
      rewrite (M_bind_Ok _ _ _ c1 (fs', c1)) by reflexivity.
      destruct (collection_find _ _) as [ex|]; [destruct (last <=? _)|]; reflexivity.
    + rewrite (M_bind_Throw _ _ _ e (fs', c1)) by reflexivity.
      reflexivity.
    + rewrite (M_bind_Undefined _ _ _ (fs', c1)) by reflexivity.
      reflexivity.
  - rewrite (M_bind_Throw _ _ _ e (fs', c1)) by (unfold on_fs, zoom; cbn; rewrite Hc; reflexivity).
    reflexivity.
  - rewrite (M_bind_Undefined _ _ _ (fs', c1)) by (unfold on_fs, zoom; cbn; rewrite Hc; reflexivity).
    reflexivity.
Qed.

End index_facts.

(** supplies the witness of an existential by evaluating [e] *)
Ltac exists_value e :=
  let v := eval vm_compute in e in
  match v with
  | Ok ?a => exists a
  | Some ?a => exists a
  end.

(** C1. The index that [append] itself wrote for three blocks exists, has
    as many slots as the log has blocks, and ends in the position of the
    last block; [index_matches_data] returns false for it.  The same index
    without its first slot, one slot short, is accepted. *)
Theorem index_matches_data_rejects_the_matching_index :
  ∃ log idx pos,
    block_log_data_open (fs Toy.log3) "d/blocks.log" = Ok log ∧
    fs Toy.log3 !! "d/blocks.index"%string = Some idx ∧
    log_num_blocks log = Ok (Zlength' idx / 8) ∧
    read_last_position idx = Ok pos ∧ last_block_position log = Ok pos ∧
    index_matches_data (fs Toy.log3) "d/blocks.index" log = Ok false ∧
    index_matches_data (<["d/blocks.index"%string := drop 8 idx]> (fs Toy.log3))
      "d/blocks.index" log = Ok true.
Proof.
  exists_value (block_log_data_open (fs Toy.log3) "d/blocks.log").
  exists_value (fs Toy.log3 !! "d/blocks.index"%string).
  exists_value (log ← block_log_data_open (fs Toy.log3) "d/blocks.log"; last_block_position log).
  repeat split; vm_compute; reflexivity.
Qed.

(** ** Trimming the end *)

Section trim_facts.
Context `{CL : chain_layer}.

(** what [trim_blocklog_end] does below, above and strictly inside the
    range of the log *)
Lemma trim_blocklog_end_cases (fs : file_system) dir n archive :
  block_log_archive_open fs dir = Ok archive →
  let first := log_first_block_num (log_data archive) in
  (n < first → trim_blocklog_end dir n fs = (Ok 1, fs)) ∧
  (first ≤ n → ∀ last, last_block_num (log_data archive) = Ok last →
     (last < n → trim_blocklog_end dir n fs = (Ok 2, fs)) ∧
     (n ≤ last → ∀ pos L I,
        nth_block_position (log_index archive) (u32 (n + 1 - first)) = Ok pos →
        fs !! block_file_name archive = Some L →
        fs !! index_file_name archive = Some I →
        block_file_name archive ≠ index_file_name archive →
        trim_blocklog_end dir n fs =
          (Ok 0, <[index_file_name archive := resize I (u64 (u32 (n + 1 - first) * 8))]>
                   (<[block_file_name archive := resize L pos]> fs)))).
Proof.
  intros Hopen first. unfold trim_blocklog_end.
  rewrite (M_bind_Ok _ _ _ fs fs) by reflexivity.
  rewrite (M_bind_Ok _ _ _ archive fs) by (unfold lift; rewrite Hopen; reflexivity).
  fold first. split.
  - intros Hlt. apply Z.ltb_lt in Hlt. rewrite Hlt. reflexivity.
  - intros Hge last Hlast. apply Z.ltb_ge in Hge. rewrite Hge.
    rewrite (M_bind_Ok _ _ _ last fs) by (unfold lift; rewrite Hlast; reflexivity).
    split.
    + intros Hlt. apply Z.ltb_lt in Hlt. rewrite Hlt. reflexivity.
    + intros Hle pos L I Hpos HL HI Hne. apply Z.ltb_ge in Hle. rewrite Hle.
      rewrite (M_bind_Ok _ _ _ pos fs) by (unfold lift; rewrite Hpos; reflexivity).
      rewrite (M_bind_Ok _ _ _ tt (<[block_file_name archive := resize L pos]> fs))
        by (unfold lift_resize, resize_file; rewrite HL; reflexivity).
      rewrite (M_bind_Ok _ _ _ tt
                 (<[index_file_name archive := resize I (u64 (u32 (n + 1 - first) * 8))]>
                    (<[block_file_name archive := resize L pos]> fs))).
      * reflexivity.
      * unfold lift_resize, resize_file. rewrite lookup_insert_ne by exact Hne.
        rewrite HI. reflexivity.
Qed.

(** at the last block of the log, the slot looked up lies past the end of
    the index: the call has no defined outcome *)
Lemma trim_blocklog_end_at_last (fs : file_system) dir archive last :
  block_log_archive_open fs dir = Ok archive →
  first_block_pos (log_data archive) ≠ log_size (log_data archive) →
  last_block_num (log_data archive) = Ok last →
  log_first_block_num (log_data archive) ≤ last →
  index_size (log_index archive) < 2 ^ 34 →
  trim_blocklog_end dir last fs = (Undefined, fs).
Proof.
  intros Hopen Hnonempty Hlast Hle Hsmall.
  pose proof Hopen as Ho. unfold block_log_archive_open in Ho.
  apply res_bind_inv_Ok in Ho as (l & Hl & Ho).
  apply res_bind_inv_Ok in Ho as (i & Hi & Ho).
  apply res_bind_inv_Ok in Ho as (nb & Hnb & Ho).
  apply res_bind_inv_Ok in Ho as ([] & Hassert & [= <-]).
  cbn [log_data log_index] in *.
  unfold log_num_blocks in Hnb. apply Z.eqb_neq in Hnonempty. rewrite Hnonempty in Hnb.
  rewrite Hlast in Hnb. cbn in Hnb. injection Hnb as <-.
  unfold EOS_ASSERT in Hassert.
  destruct (u32 (last - log_first_block_num l + 1) =? u32 (index_num_blocks i)) eqn:E;
    [|discriminate]. apply Z.eqb_eq in E.
  unfold block_log_index_open in Hi.
  apply res_bind_inv_Ok in Hi as (data & Hdata & Hi).
  apply res_bind_inv_Ok in Hi as ([] & Hmod & [= <-]).
  unfold EOS_ASSERT in Hmod. destruct (Zlength' data mod 8 =? 0) eqn:Hm; [|discriminate].
  apply Z.eqb_eq in Hm. unfold index_size in *. cbn [index_file_data] in *.
  assert (0 ≤ Zlength' data) as Hnn by (unfold Zlength'; lia).
  assert (u32 (index_num_blocks {| index_file_data := data |}) = Zlength' data / 8) as Hcount.
  { unfold index_num_blocks, index_size, to_int32, u32. cbn [index_file_data].
    assert (0 ≤ Zlength' data / 8 < 2 ^ 31) as Hq.
    { split; [apply Z.div_pos; lia|]. apply Z.div_lt_upper_bound; lia. }
    rewrite (Z.mod_small (Zlength' data / 8)) by lia.
    destruct (Zlength' data / 8 <? 2 ^ 31) eqn:E31; [|apply Z.ltb_ge in E31; lia].
    apply Z.mod_small. lia. }
  unfold trim_blocklog_end.
  rewrite (M_bind_Ok _ _ _ fs fs) by reflexivity.
  rewrite (M_bind_Ok _ _ _ _ fs) by (unfold lift; rewrite Hopen; reflexivity).
  cbn [log_data log_index].
  assert ((last <? log_first_block_num l) = false) as -> by (apply Z.ltb_ge; lia).
  rewrite (M_bind_Ok _ _ _ last fs) by (unfold lift; rewrite Hlast; reflexivity).
  rewrite Z.ltb_irrefl.
  apply M_bind_Undefined. unfold lift. f_equal.
  replace (last + 1 - log_first_block_num l) with (last - log_first_block_num l + 1) by lia.
  rewrite E, Hcount. unfold nth_block_position, read_buffer. cbn [index_file_data].
  assert (8 * (Zlength' data / 8) = Zlength' data) as ->.
  { pose proof (Z.div_mod (Zlength' data) 8). lia. }
  assert ((Zlength' data + Z.of_nat 8 <=? Zlength' data) = false) as ->
    by (apply Z.leb_gt; lia).
  rewrite andb_false_r. reflexivity.
Qed.

End trim_facts.

(** C8. On the log of the blocks 1 to 3, [trim_blocklog_end] returns 1
    below the first block, 2 above the last block and 0 for block 2,
    having cut the log at the position in slot 2 and the index to 16
    bytes; for block 3, the last block, it reads slot 3 of an index that
    has the slots 0 to 2, and has no defined outcome. *)
Theorem trim_blocklog_end_on_three_blocks :
  ∃ archive pos L I,
    block_log_archive_open (fs Toy.log3) "d" = Ok archive ∧
    log_first_block_num (log_data archive) = 1 ∧
    last_block_num (log_data archive) = Ok 3 ∧
    trim_blocklog_end "d" 0 (fs Toy.log3) = (Ok 1, fs Toy.log3) ∧
    trim_blocklog_end "d" 4 (fs Toy.log3) = (Ok 2, fs Toy.log3) ∧
    nth_block_position (log_index archive) 2 = Ok pos ∧
    fs Toy.log3 !! "d/blocks.log"%string = Some L ∧
    fs Toy.log3 !! "d/blocks.index"%string = Some I ∧
    trim_blocklog_end "d" 2 (fs Toy.log3) =
      (Ok 0, <["d/blocks.index"%string := take 16 I]>
               (<["d/blocks.log"%string := take (Z.to_nat pos) L]> (fs Toy.log3))) ∧
    nth_block_position (log_index archive) 3 = Undefined ∧
    fst (trim_blocklog_end "d" 3 (fs Toy.log3)) = Undefined.
Proof.
  exists_value (block_log_archive_open (fs Toy.log3) "d").
  exists_value (a ← block_log_archive_open (fs Toy.log3) "d"; nth_block_position (log_index a) 2).
  exists_value (fs Toy.log3 !! "d/blocks.log"%string).
  exists_value (fs Toy.log3 !! "d/blocks.index"%string).
  repeat split; vm_compute; reflexivity.
Qed.

(** ** Pruning *)

#[local] Instance read_only_refl : Reflexive read_only.
Proof. intros w. split; reflexivity. Qed.
#[local] Instance read_only_trans : Transitive read_only.
Proof. intros a b c [? ?] [? ?]. split; congruence. Qed.

Lemma cfile_contents_read_only : preserves read_only cfile_contents.
Proof.
  intros [fs f] r w'. unfold cfile_contents.
  destruct (fs !! file_path f); intros [= <- <-]; reflexivity.
Qed.

Lemma cfile_seek_read_only pos : preserves read_only (cfile_seek pos).
Proof. apply preserves_modify. intros [fs f]. split; reflexivity. Qed.
#[global] Hint Resolve cfile_contents_read_only cfile_seek_read_only : frame.

Lemma cfile_tellp_read_only : preserves read_only cfile_tellp.
Proof. unfold cfile_tellp. frame. Qed.

Lemma cfile_read_read_only n : preserves read_only (cfile_read n).
Proof. unfold cfile_read, cfile_tellp, throw. frame. Qed.

Lemma cfile_stream_read_only {A} (reader : datastream → res (A * datastream)) :
  preserves read_only (cfile_stream reader).
Proof. unfold cfile_stream, cfile_tellp. frame. Qed.
#[global] Hint Resolve cfile_tellp_read_only cfile_read_read_only cfile_stream_read_only : frame.





Section prune_facts.
Context `{CL : chain_layer}.

#[local] Instance same_frame_refl' : Reflexive same_frame.
Proof. intros s. unfold same_frame. auto 10. Qed.
#[local] Instance same_frame_trans' : Transitive same_frame.
Proof. intros a b c. unfold same_frame. intuition congruence. Qed.

#[local] Instance same_log_refl : Reflexive same_log.
Proof. intros s. split; reflexivity. Qed.
#[local] Instance same_log_trans : Transitive same_log.
Proof. intros a b c [? ?] [? ?]. split; [congruence|etrans; eassumption]. Qed.

Lemma on_block_file_read_only {A} (m : M (file_system * cfile) A) :
  preserves read_only m → preserves same_log (on_block_file m).
Proof.
  intros Hm. unfold on_block_file. eapply preserves_zoom; [exact Hm|].
  intros s [fs' f] [Hfs Hp]. cbn in Hfs, Hp.
  unfold same_log, same_frame. cbn. auto 10.
Qed.

Lemma on_index_file_read_only {A} (m : M (file_system * cfile) A) :
  preserves read_only m → preserves same_log (on_index_file m).
Proof.
  intros Hm. unfold on_index_file. eapply preserves_zoom; [exact Hm|].
  intros s [fs' f] [Hfs Hp]. cbn in Hfs, Hp.
  unfold same_log, same_frame. cbn. auto 10.
Qed.
Hint Resolve on_block_file_read_only on_index_file_read_only : frame.

Lemma get_block_pos_same_log bn : preserves same_log (get_block_pos bn).
Proof. unfold get_block_pos. frame. Qed.













End prune_facts.

Lemma Ok_inj {A} (a b : A) : Ok a = Ok b → a = b.
Proof. congruence. Qed.

Lemma Zlength'_nonneg {A} (l : list A) : 0 ≤ Zlength' l.
Proof. unfold Zlength'. lia. Qed.

Lemma Zlength'_app {A} (l k : list A) : Zlength' (l ++ k) = Zlength' l + Zlength' k.
Proof. unfold Zlength'. rewrite length_app. lia. Qed.

Lemma zeros_add n m : zeros (n + m) = zeros n ++ zeros m.
Proof. unfold zeros. apply replicate_add. Qed.

Lemma length_zeros n : length (zeros n) = n.
Proof. unfold zeros. apply length_replicate. Qed.

(** ** Little-endian integers *)

Lemma byte_of_Z_to_N z : Z.of_N (Byte.to_N (byte_of_Z z)) = z mod 256.
Proof.
  unfold byte_of_Z.
  pose proof (Z.mod_pos_bound z 256 ltac:(lia)) as Hb.
  destruct (Byte.of_N (Z.to_N (z mod 256))) as [b|] eqn:E.
  - apply Byte.to_of_N in E. cbn. rewrite E. lia.
  - apply Byte.of_N_None_iff in E. lia.
Qed.

Lemma length_le_encode n z : length (le_encode n z) = n.
Proof. revert z. induction n as [|n IH]; intros z; cbn; [reflexivity|]. rewrite IH. reflexivity. Qed.

Lemma Zlength'_le_encode n z : Zlength' (le_encode n z) = Z.of_nat n.
Proof. unfold Zlength'. rewrite length_le_encode. reflexivity. Qed.

Lemma le_decode_encode n z : le_decode (le_encode n z) = z mod 256 ^ Z.of_nat n.
Proof.
  revert z. induction n as [|n IH]; intros z.
  - cbn. rewrite Z.mod_1_r. reflexivity.
  - cbn [le_encode le_decode]. rewrite byte_of_Z_to_N, IH.
    rewrite Nat2Z.inj_succ, Z.pow_succ_r by lia.
    rewrite Z.rem_mul_r by lia. reflexivity.
Qed.

Lemma le_decode_encode_small n z :
  0 ≤ z < 256 ^ Z.of_nat n → le_decode (le_encode n z) = z.
Proof. intros H. rewrite le_decode_encode. apply Z.mod_small. exact H. Qed.

(** ** Reading what was written *)

Lemma ds_read_here buf pos bs post :
  0 ≤ pos →
  drop (Z.to_nat pos) buf = bs ++ post →
  pos + Zlength' bs ≤ Zlength' buf →
  ds_read (length bs) {| ds_buf := buf; ds_pos := pos |}
  = Ok (bs, {| ds_buf := buf; ds_pos := pos + Zlength' bs |}).
Proof.
  intros H0 Hd Hl. unfold ds_read, ds_remaining_bytes. cbn [ds_pos ds_buf].
  apply Z.leb_le in H0. unfold Zlength' in *. apply Z.leb_le in Hl. rewrite H0, Hl. cbn.
  rewrite Hd, take_app_length. reflexivity.
Qed.

Lemma ds_read_uint_here n buf pos z post :
  0 ≤ pos → 0 ≤ z < 256 ^ Z.of_nat n →
  drop (Z.to_nat pos) buf = le_encode n z ++ post →
  pos + Z.of_nat n ≤ Zlength' buf →
  ds_read_uint n {| ds_buf := buf; ds_pos := pos |}
  = Ok (z, {| ds_buf := buf; ds_pos := pos + Z.of_nat n |}).
Proof.
  intros H0 Hz Hd Hl. unfold ds_read_uint.
  pose proof (ds_read_here buf pos (le_encode n z) post H0 Hd) as Hr.
  unfold Zlength' in Hr. rewrite length_le_encode in Hr. rewrite Hr by exact Hl.
  cbn. rewrite le_decode_encode_small by exact Hz. reflexivity.
Qed.

Lemma drop_app_Zlength {A} (pre l : list A) k :
  0 ≤ k → drop (Z.to_nat (Zlength' pre + k)) (pre ++ l) = drop (Z.to_nat k) l.
Proof.
  intros Hk. unfold Zlength'. rewrite Z2Nat.inj_add, Nat2Z.id by lia.
  rewrite drop_app_add'; reflexivity.
Qed.

Section codec_round_trips.
Context `{CL : chain_layer}.

Lemma npos_bound : 0 ≤ npos < 256 ^ Z.of_nat 8.
Proof. unfold npos. change (256 ^ Z.of_nat 8) with (2 ^ 64). lia. Qed.

(** the stream [read_from] is left with after a preamble of version 2 to 4 *)
Lemma read_from_later_version v fbn ctx c rest g_or_id :
  2 ≤ v ≤ 4 → 0 ≤ fbn < 2 ^ 32 →
  let buf := le_encode 4 v ++ le_encode 4 fbn ++ c ++ le_encode 8 npos ++ rest in
  read_chain_context v fbn {| ds_buf := buf; ds_pos := 8 |}
  = Ok (g_or_id, {| ds_buf := buf; ds_pos := 8 + Zlength' c |}) →
  ctx = g_or_id →
  read_from {| ds_buf := buf; ds_pos := 0 |}
  = Ok ({| version := v; first_block_num := fbn; chain_context := ctx |},
        {| ds_buf := buf; ds_pos := 8 + Zlength' c + 8 |}).
Proof.
  intros Hv Hf buf Hctx ->.
  assert (Zlength' buf = 16 + Zlength' c + Zlength' rest) as Hlen.
  { unfold buf, Zlength'. rewrite !length_app, !length_le_encode. lia. }
  assert (0 ≤ Zlength' c ∧ 0 ≤ Zlength' rest) as [Hc Hr] by (unfold Zlength'; lia).
  unfold read_from, read_version_and_first.
  rewrite (ds_read_uint_here 4 buf 0 v (le_encode 4 fbn ++ c ++ le_encode 8 npos ++ rest));
    [|lia|change (256 ^ Z.of_nat 4) with (2 ^ 32); lia|reflexivity|lia].
  cbn [mbind res_bind].
  assert ((0 <? v) = true) as -> by (apply Z.ltb_lt; lia).
  assert (is_supported_version v = true) as ->.
  { unfold is_supported_version, clamp.
    change min_supported_version with 1. change max_supported_version with 4.
    assert ((v <? 1) = false) as -> by (apply Z.ltb_ge; lia).
    assert ((4 <? v) = false) as -> by (apply Z.ltb_ge; lia). apply Z.eqb_refl. }
  assert ((v =? initial_version) = false) as Hne by (apply Z.eqb_neq; unfold initial_version; lia).
  cbn [EOS_ASSERT mbind res_bind]. rewrite Hne. cbn [negb].
  rewrite (ds_read_uint_here 4 buf (0 + Z.of_nat 4) fbn (c ++ le_encode 8 npos ++ rest));
    [|lia|change (256 ^ Z.of_nat 4) with (2 ^ 32); lia| |lia].
  2:{ unfold buf. change (Z.to_nat (0 + Z.of_nat 4)) with (length (le_encode 4 v)) at 1.
      - rewrite drop_app_length. reflexivity. }
  cbn [mbind res_bind]. change (0 + Z.of_nat 4 + Z.of_nat 4) with 8.
  rewrite Hctx. cbn [mbind res_bind].
  unfold read_totem. rewrite Hne. cbn [negb].
  rewrite (ds_read_uint_here 8 buf (8 + Zlength' c) npos rest);
    [|lia|exact npos_bound| |lia].
  2:{ unfold buf. rewrite !app_assoc. rewrite <- (app_assoc _ (le_encode 8 npos) rest).
      replace (Z.to_nat (8 + Zlength' c))
        with (length ((le_encode 4 v ++ le_encode 4 fbn) ++ c)).
      - rewrite drop_app_length. reflexivity.
      - rewrite !length_app, !length_le_encode. unfold Zlength'. lia. }
  cbn [mbind res_bind]. rewrite Z.eqb_refl. cbn [EOS_ASSERT mbind res_bind]. reflexivity.
Qed.

Lemma read_from_first_version g rest :
  (∀ tail, genesis_unpack (genesis_pack g ++ tail) = Some (g, length (genesis_pack g))) →
  let buf := le_encode 4 1 ++ genesis_pack g ++ rest in
  read_from {| ds_buf := buf; ds_pos := 0 |}
  = Ok ({| version := 1; first_block_num := 1; chain_context := inl g |},
        {| ds_buf := buf; ds_pos := 4 + Zlength' (genesis_pack g) |}).
Proof.
  intros Hg buf.
  assert (Zlength' buf = 4 + Zlength' (genesis_pack g) + Zlength' rest) as Hlen.
  { unfold buf, Zlength'. rewrite !length_app, !length_le_encode. lia. }
  assert (0 ≤ Zlength' (genesis_pack g) ∧ 0 ≤ Zlength' rest) as [Hc Hr]
    by (unfold Zlength'; lia).
  unfold read_from, read_version_and_first.
  rewrite (ds_read_uint_here 4 buf 0 1 (genesis_pack g ++ rest));
    [|lia|change (256 ^ Z.of_nat 4) with (2 ^ 32); lia|reflexivity|lia].
  cbn [mbind res_bind]. change (0 <? 1) with true. change (is_supported_version 1) with true.
  change (1 =? initial_version) with true. cbn [EOS_ASSERT mbind res_bind negb].
  unfold read_chain_context. change (contains_genesis_state 1 1) with true. cbn iota.
  rewrite (ds_unpack_Ok genesis_unpack _ g (length (genesis_pack g))).
  - cbn [mbind res_bind]. unfold read_totem. change (1 =? initial_version) with true.
    cbn [negb mbind res_bind ds_skip ds_pos ds_buf]. reflexivity.
  - cbn [ds_pos ds_buf]. lia.
  - unfold ds_remaining_bytes. cbn [ds_pos ds_buf]. unfold buf.
    change (Z.to_nat (0 + Z.of_nat 4)) with (length (le_encode 4 1)).
    rewrite drop_app_length. apply Hg.
Qed.

(** a preamble that [write_to] wrote is read back by [read_from], which
    stops right behind it *)
Lemma read_from_after_write_to p bytes rest :
  write_to p = Ok bytes →
  1 ≤ version p ≤ 4 →
  0 ≤ first_block_num p < 2 ^ 32 →
  (version p = initial_version → first_block_num p = 1) →
  (∀ g, chain_context p = inl g →
     contains_genesis_state (version p) (first_block_num p) = true ∧
     ∀ tail, genesis_unpack (genesis_pack g ++ tail) = Some (g, length (genesis_pack g))) →
  (∀ id, chain_context p = inr id →
     contains_chain_id (version p) (first_block_num p) = true ∧
     length id = sizeof_chain_id) →
  read_from {| ds_buf := bytes ++ rest; ds_pos := 0 |}
  = Ok (p, {| ds_buf := bytes ++ rest; ds_pos := Zlength' bytes |}).
Proof.
  destruct p as [v fbn ctx]. cbn [version first_block_num chain_context].
  intros Hw Hv Hf H1 Hgen Hid. rewrite write_to_unfold in Hw.
  cbn [version first_block_num chain_context] in Hw.
  destruct (v =? initial_version) eqn:Ev; simpl negb in Hw; cbv iota in Hw.
  - apply Z.eqb_eq in Ev. rewrite (H1 Ev). subst v.
    destruct ctx as [g|id]; [|discriminate]. change initial_version with 1 in *.
    assert (bytes = le_encode 4 1 ++ genesis_pack g) as -> by congruence. clear Hw.
    destruct (Hgen g eq_refl) as [_ Hg].
    rewrite <- app_assoc.
    rewrite (read_from_first_version g rest Hg). do 3 f_equal.
    unfold Zlength'. rewrite length_app, length_le_encode. lia.
  - apply Z.eqb_neq in Ev. unfold initial_version in Ev.
    set (c := match ctx with inr id => id | inl state => genesis_pack state end) in *.
    assert (bytes = le_encode 4 v ++ le_encode 4 fbn ++ c ++ le_encode 8 npos) as ->
      by congruence. clear Hw.
    rewrite <- !app_assoc.
    assert (0 ≤ Zlength' c) as Hc by (unfold Zlength'; lia).
    rewrite (read_from_later_version v fbn ctx c rest ctx); [|lia|exact Hf| |reflexivity].
    + do 3 f_equal. unfold Zlength'. rewrite !length_app, !length_le_encode. lia.
    + unfold read_chain_context. destruct ctx as [g|id].
      * destruct (Hgen g eq_refl) as [-> Hg].
        rewrite (ds_unpack_Ok genesis_unpack _ g (length (genesis_pack g))).
        -- reflexivity.
        -- cbn [ds_pos ds_buf]. unfold Zlength'.
           rewrite !length_app, !length_le_encode. lia.
        -- unfold ds_remaining_bytes. cbn [ds_pos ds_buf].
           rewrite (app_assoc (le_encode 4 v)).
           change (Z.to_nat 8) with (4 + 4)%nat.
           replace (4 + 4)%nat with (length (le_encode 4 v ++ le_encode 4 fbn))
             by (rewrite length_app, !length_le_encode; reflexivity).
           rewrite drop_app_length. apply Hg.
      * destruct (Hid id eq_refl) as [Hcid Hl].
        assert (contains_genesis_state v fbn = false) as ->.
        { unfold contains_chain_id, contains_genesis_state in *.
          change genesis_state_or_chain_id_version with 3 in *.
          apply andb_prop in Hcid as [Ha Hb]. apply Z.leb_le in Ha. apply Z.ltb_lt in Hb.
          apply orb_false_iff. rewrite Z.ltb_ge, Z.eqb_neq. lia. }
        rewrite Hcid. rewrite <- Hl.
        rewrite (ds_read_here _ 8 id (le_encode 8 npos ++ rest)).
        -- reflexivity.
        -- lia.
        -- rewrite (app_assoc (le_encode 4 v)).
           change (Z.to_nat 8) with (4 + 4)%nat.
           replace (4 + 4)%nat with (length (le_encode 4 v ++ le_encode 4 fbn))
             by (rewrite length_app, !length_le_encode; reflexivity).
           rewrite drop_app_length. reflexivity.
        -- unfold c, Zlength'. rewrite !length_app, !length_le_encode. lia.
Qed.

End codec_round_trips.

Lemma drop_app_Zlength' {A} (buf : list A) p k l :
  0 ≤ p → drop (Z.to_nat p) buf = l → 0 ≤ k →
  drop (Z.to_nat (p + k)) buf = drop (Z.to_nat k) l.
Proof.
  intros Hp <- Hk. rewrite Z2Nat.inj_add by lia. rewrite drop_drop. reflexivity.
Qed.

Section codec_round_trips2.
Context `{CL : chain_layer}.

(** X2. [read_from] on a stream that starts with the 32-bit number v: it
    throws "Block log was not setup properly" for v = 0 and
    block_log_unsupported_version for v above 4; for v from 2 to 4 it
    throws "Expected separator ..." when the 8 bytes behind the chain
    context are not npos. *)
Theorem read_from_rejects ds v ds1 :
  ds_read_uint 4 ds = Ok (v, ds1) →
  (v = 0 → read_from ds = Throw not_setup) ∧
  (4 < v → read_from ds = Throw UnsupportedVersion) ∧
  (2 ≤ v ≤ 4 → ∀ fbn ds2 ctx ds3 totem ds4,
     ds_read_uint 4 ds1 = Ok (fbn, ds2) →
     read_chain_context v fbn ds2 = Ok (ctx, ds3) →
     ds_read_uint 8 ds3 = Ok (totem, ds4) →
     totem ≠ npos →
     read_from ds = Throw MalformedPreamble_totem).
Proof.
  intros Hv. unfold read_from, read_version_and_first. rewrite Hv. cbn [mbind res_bind].
  split; [|split].
  - intros ->. reflexivity.
  - intros H4. assert ((0 <? v) = true) as -> by (apply Z.ltb_lt; lia).
    cbn [EOS_ASSERT mbind res_bind].
    assert (is_supported_version v = false) as ->; [|reflexivity].
    unfold is_supported_version, clamp.
    change min_supported_version with 1. change max_supported_version with 4.
    assert ((v <? 1) = false) as -> by (apply Z.ltb_ge; lia).
    assert ((4 <? v) = true) as -> by (apply Z.ltb_lt; lia). apply Z.eqb_neq. lia.
  - intros H24 fbn ds2 ctx ds3 totem ds4 Hf Hc Ht Hne.
    assert ((0 <? v) = true) as -> by (apply Z.ltb_lt; lia).
    assert (is_supported_version v = true) as ->.
    { unfold is_supported_version, clamp.
      change min_supported_version with 1. change max_supported_version with 4.
      assert ((v <? 1) = false) as -> by (apply Z.ltb_ge; lia).
      assert ((4 <? v) = false) as -> by (apply Z.ltb_ge; lia). apply Z.eqb_refl. }
    assert ((v =? initial_version) = false) as Hi
      by (apply Z.eqb_neq; unfold initial_version; lia).
    cbn [EOS_ASSERT mbind res_bind]. rewrite Hi. cbn [negb]. rewrite Hf.
    cbn [mbind res_bind]. rewrite Hc. cbn [mbind res_bind].
    unfold read_totem. rewrite Hi. cbn [negb]. rewrite Ht. cbn [mbind res_bind].
    apply Z.eqb_neq in Hne. rewrite Hne. reflexivity.
Qed.

(** the length of what [pack] returns *)
Lemma pack_length b c buffer :
  pack b c = Ok buffer →
  Zlength' buffer = Z.of_nat (maximum_pruned_pack_size b) + 5 ∧
  ∃ payload, pack_into (maximum_pruned_pack_size b) (block_pack b) = Ok payload ∧
    buffer = le_encode 4 (u32 (Zlength' buffer + 8)) ++ le_encode 1 c ++ payload.
Proof.
  unfold pack. cbv zeta. intros H. apply res_bind_inv_Ok in H as (payload & Hp & H).
  apply Ok_inj in H. subst buffer.
  change (offset_to_block_start max_supported_version) with 5.
  assert (length payload = maximum_pruned_pack_size b) as Hl.
  { unfold pack_into in Hp. case_bool_decide; [|discriminate]. injection Hp as <-.
    rewrite length_app. unfold zeros. rewrite length_replicate. lia. }
  assert (Zlength' (le_encode 4 (u32 (Z.of_nat (maximum_pruned_pack_size b) + 5 + 8)) ++
                    le_encode 1 c ++ payload)
          = Z.of_nat (maximum_pruned_pack_size b) + 5) as Hlen.
  { unfold Zlength'. rewrite !length_app, !length_le_encode, Hl. lia. }
  split; [exact Hlen|]. exists payload. split; [exact Hp|]. rewrite Hlen. reflexivity.
Qed.

(** the header of an entry that [pack] built, read back from a stream *)
Lemma pack_header_read b c buffer pre rest :
  pack b c = Ok buffer →
  Zlength' buffer + 8 < 2 ^ 32 →
  0 ≤ c < 256 →
  let buf := pre ++ buffer ++ rest in
  ds_read_uint 4 {| ds_buf := buf; ds_pos := Zlength' pre |}
  = Ok (Zlength' buffer + 8, {| ds_buf := buf; ds_pos := Zlength' pre + Z.of_nat 4 |}) ∧
  ds_read_uint 1 {| ds_buf := buf; ds_pos := Zlength' pre + Z.of_nat 4 |}
  = Ok (c, {| ds_buf := buf; ds_pos := Zlength' pre + Z.of_nat 4 + Z.of_nat 1 |}) ∧
  (length (block_pack b) ≤ maximum_pruned_pack_size b)%nat ∧
  ds_remaining_bytes {| ds_buf := buf; ds_pos := Zlength' pre + Z.of_nat 4 + Z.of_nat 1 |}
  = block_pack b ++ zeros (maximum_pruned_pack_size b - length (block_pack b)) ++ rest.
Proof.
  intros Hpack Hsize Hc buf.
  destruct (pack_length _ _ _ Hpack) as (Hlen & payload & Hp & Hbuf).
  assert (0 ≤ Zlength' buffer) as Hnn by (unfold Zlength'; lia).
  set (size := Zlength' buffer + 8) in *.
  assert (u32 size = size) as Hu by (apply Z.mod_small; lia).
  rewrite Hu in Hbuf.
  unfold pack_into in Hp. case_bool_decide as Hfit; [|discriminate].
  apply Ok_inj in Hp. subst payload.
  set (n := length (block_pack b)) in *.
  set (pad := zeros (maximum_pruned_pack_size b - n)) in *.
  assert (0 ≤ Zlength' pre ∧ 0 ≤ Zlength' rest) as [Hpre Hrest] by (unfold Zlength'; lia).
  assert (Zlength' buf = Zlength' pre + Zlength' buffer + Zlength' rest) as Hbl.
  { unfold buf, Zlength'. rewrite !length_app. lia. }
  assert (drop (Z.to_nat (Zlength' pre)) buf
          = le_encode 4 size ++ le_encode 1 c ++ block_pack b ++ pad ++ rest)
    as Hd0.
  { unfold buf, Zlength'. rewrite Nat2Z.id, drop_app_length. rewrite Hbuf at 1.
    rewrite <- !app_assoc. reflexivity. }
  split; [|split; [|split; [exact Hfit|]]].
  - apply (ds_read_uint_here 4 buf (Zlength' pre) size
             (le_encode 1 c ++ block_pack b ++ pad ++ rest) Hpre);
      [change (256 ^ Z.of_nat 4) with (2 ^ 32); lia|exact Hd0|lia].
  - apply (ds_read_uint_here 1 buf (Zlength' pre + Z.of_nat 4) c
             (block_pack b ++ pad ++ rest)); [lia|cbn; lia| |lia].
    change (Z.of_nat 4) with 4.
    rewrite (drop_app_Zlength' buf (Zlength' pre) 4 _ Hpre Hd0) by lia.
    change (Z.to_nat 4) with (length (le_encode 4 size)).
    rewrite drop_app_length. reflexivity.
  - unfold ds_remaining_bytes. cbn [ds_pos ds_buf].
    replace (Zlength' pre + Z.of_nat 4 + Z.of_nat 1) with (Zlength' pre + 5) by lia.
    rewrite (drop_app_Zlength' buf (Zlength' pre) 5 _ Hpre Hd0) by lia.
    rewrite app_assoc.
    replace (Z.to_nat 5) with (length (le_encode 4 size ++ le_encode 1 c))
      by (rewrite length_app, !length_le_encode; reflexivity).
    rewrite drop_app_length. reflexivity.
Qed.

(** an entry packed with compression none is decoded, and the stream is
    left right behind the packed entry *)
Lemma unpack_pack_none b buffer pre rest :
  pack b cf_compression_none = Ok buffer →
  Zlength' buffer + 8 < 2 ^ 32 →
  (∀ tail, block_unpack (block_pack b ++ tail) = Some (b, length (block_pack b))) →
  unpack {| ds_buf := pre ++ buffer ++ rest; ds_pos := Zlength' pre |}
  = Ok ({| meta_compression := cf_compression_none; meta_size := Zlength' buffer + 8 |}, b,
        {| ds_buf := pre ++ buffer ++ rest; ds_pos := Zlength' pre + Zlength' buffer |}).
Proof.
  intros Hpack Hsize Hblock.
  destruct (pack_header_read b cf_compression_none buffer pre rest Hpack Hsize)
    as (Hrs & Hrc & Hfit & Hrem); [unfold cf_compression_none; lia|].
  destruct (pack_length _ _ _ Hpack) as (Hlen & _).
  assert (0 ≤ Zlength' pre ∧ 0 ≤ Zlength' rest) as [Hpre Hrest] by (unfold Zlength'; lia).
  unfold unpack. cbn [ds_tellp ds_pos]. rewrite Hrs. cbn [mbind res_bind].
  rewrite Hrc. cbn [mbind res_bind].
  assert ((cf_compression_none <? COMPRESSION_TYPE_COUNT) = true) as ->
    by (apply Z.ltb_lt; pose proof COMPRESSION_TYPE_COUNT_pos; unfold cf_compression_none; lia).
  rewrite Z.eqb_refl. cbn [EOS_ASSERT mbind res_bind].
  set (n := length (block_pack b)) in *.
  rewrite (ds_unpack_Ok block_unpack _ b n).
  2:{ cbn [ds_pos ds_buf]. unfold Zlength'. rewrite !length_app. unfold Zlength' in Hlen. lia. }
  2:{ rewrite Hrem. apply Hblock. }
  cbn [mbind res_bind ds_skip ds_pos ds_buf ds_tellp].
  replace (Zlength' pre + Z.of_nat 4 + Z.of_nat 1 + Z.of_nat n - Zlength' pre)
    with (5 + Z.of_nat n) by lia.
  unfold u64. rewrite (Z.mod_small (5 + Z.of_nat n)) by lia.
  rewrite to_int64_small by lia.
  assert ((0 <=? Zlength' buffer + 8 - 8 - (5 + Z.of_nat n)) = true) as ->
    by (apply Z.leb_le; lia).
  cbn [EOS_ASSERT mbind res_bind]. do 2 f_equal.
  unfold ds_skip. cbn [ds_pos ds_buf]. f_equal. lia.
Qed.

(** X3. [unpack] on an entry that [pack] built, wherever it lies in a
    stream.  Packed with compression none, the entry is decoded: the size
    is the length of the packed entry plus the 8 bytes of the position that
    follows it, the block is the one packed, and the stream is left right
    behind the packed entry, where the position is.  Packed with any other
    compression tag, which [pack] takes without a check, the entry is
    rejected with a block_log_exception. *)
Theorem unpack_what_pack_wrote b c buffer pre rest :
  pack b c = Ok buffer →
  Zlength' buffer + 8 < 2 ^ 32 →
  0 ≤ c < 256 →
  (∀ tail, block_unpack (block_pack b ++ tail) = Some (b, length (block_pack b))) →
  let ds := {| ds_buf := pre ++ buffer ++ rest; ds_pos := Zlength' pre |} in
  (c = cf_compression_none →
     unpack ds
     = Ok ({| meta_compression := cf_compression_none; meta_size := Zlength' buffer + 8 |}, b,
           ds_skip (Zlength' buffer) ds)) ∧
  (c ≠ cf_compression_none →
     ∃ what, unpack ds = Throw (Exn block_log_exception what)).
Proof.
  intros Hpack Hsize Hc Hblock ds. split.
  - intros ->. apply unpack_pack_none; assumption.
  - intros Hne.
    destruct (pack_header_read b c buffer pre rest Hpack Hsize Hc) as (Hrs & Hrc & _).
    unfold unpack, ds. cbn [ds_tellp ds_pos]. rewrite Hrs. cbn [mbind res_bind].
    rewrite Hrc. cbn [mbind res_bind].
    destruct (c <? COMPRESSION_TYPE_COUNT); cbn [EOS_ASSERT mbind res_bind]; [|eauto].
    apply Z.eqb_neq in Hne. rewrite Hne. cbn [EOS_ASSERT mbind res_bind]. eauto.
Qed.

End codec_round_trips2.


Lemma write_at_end data bytes : write_at data (Zlength' data) bytes = data ++ bytes.
Proof.
  unfold write_at, Zlength'. rewrite Nat2Z.id, Nat.sub_diag. cbn [zeros replicate].
  rewrite app_nil_r, take_ge by lia. rewrite drop_ge by lia. rewrite app_nil_r. reflexivity.
Qed.

Lemma cfile_write_run (fs : file_system) f data bytes :
  fs !! file_path f = Some data →
  cfile_write bytes (fs, f) =
    (Ok tt, (<[file_path f := write_at data (cf_pos f) bytes]> fs,
             cf_with_pos f (cf_pos f + Zlength' bytes))).
Proof.
  intros H. unfold cfile_write.
  rewrite (M_bind_Ok _ _ _ data (fs, f)) by (unfold cfile_contents; rewrite H; reflexivity).
  reflexivity.
Qed.

Lemma cfile_read_run (fs : file_system) f data n :
  fs !! file_path f = Some data →
  0 ≤ cf_pos f → cf_pos f + Z.of_nat n ≤ Zlength' data →
  cfile_read n (fs, f) =
    (Ok (take n (drop (Z.to_nat (cf_pos f)) data)), (fs, cf_with_pos f (cf_pos f + Z.of_nat n))).
Proof.
  intros H H0 H1. unfold cfile_read.
  rewrite (M_bind_Ok _ _ _ data (fs, f)) by (unfold cfile_contents; rewrite H; reflexivity).
  rewrite (M_bind_Ok _ _ _ (cf_pos f) (fs, f)) by reflexivity.
  apply Z.leb_le in H0. apply Z.leb_le in H1. rewrite H0, H1. reflexivity.
Qed.

Lemma cfile_stream_run {A} (reader : datastream → res (A * datastream))
    (fs : file_system) f data a ds :
  fs !! file_path f = Some data →
  reader {| ds_buf := data; ds_pos := cf_pos f |} = Ok (a, ds) →
  cfile_stream reader (fs, f) = (Ok a, (fs, cf_with_pos f (ds_pos ds))).
Proof.
  intros H Hr. unfold cfile_stream.
  rewrite (M_bind_Ok _ _ _ data (fs, f)) by (unfold cfile_contents; rewrite H; reflexivity).
  rewrite (M_bind_Ok _ _ _ (cf_pos f) (fs, f)) by reflexivity.
  rewrite (M_bind_Ok _ _ _ (a, ds) (fs, f)) by (unfold lift; rewrite Hr; reflexivity).
  reflexivity.
Qed.

Section append_facts.
Context `{CL : chain_layer}.

Lemma impl_with_files_eta s : impl_with_files s (fs s) (block_file s) (index_file s) = s.
Proof. destruct s. reflexivity. Qed.

Lemma on_block_file_tellp s : on_block_file cfile_tellp s = (Ok (cf_pos (block_file s)), s).
Proof. destruct s. reflexivity. Qed.

Lemma on_index_file_tellp s : on_index_file cfile_tellp s = (Ok (cf_pos (index_file s)), s).
Proof. destruct s. reflexivity. Qed.

Lemma on_block_file_run {A} (m : M (file_system * cfile) A) s r fs' f' :
  m (fs s, block_file s) = (r, (fs', f')) →
  on_block_file m s = (r, impl_with_files s fs' f' (index_file s)).
Proof. unfold on_block_file, zoom. intros ->. reflexivity. Qed.

Lemma on_index_file_run {A} (m : M (file_system * cfile) A) s r fs' f' :
  m (fs s, index_file s) = (r, (fs', f')) →
  on_index_file m s = (r, impl_with_files s fs' (block_file s) f').
Proof. unfold on_index_file, zoom. intros ->. reflexivity. Qed.

(** [write_log_entry] on files that are there: the entry and its position
    go to the log at the position of the log file, the position goes to
    the index at the position of the index file *)
Lemma write_log_entry_run b c s L I buffer :
  fs s !! file_path (block_file s) = Some L →
  fs s !! file_path (index_file s) = Some I →
  file_path (block_file s) ≠ file_path (index_file s) →
  (if pruned_transaction_version <=? version (preamble s)
   then pack b c = Ok buffer
   else block_pack_v0 b = Some buffer ∧ c = cf_compression_none) →
  let pos := cf_pos (block_file s) in
  ∃ s', write_log_entry b c s = (Ok pos, s') ∧
    fs s' = <[file_path (index_file s) := write_at I (cf_pos (index_file s)) (le_encode 8 pos)]>
              (<[file_path (block_file s) :=
                   write_at (write_at L pos buffer) (pos + Zlength' buffer) (le_encode 8 pos)]>
                 (fs s)) ∧
    same_frame s s'.
Proof.
  intros HL HI Hne Hbuf pos.
  set (s1 := impl_with_files s (<[file_path (block_file s) := write_at L pos buffer]> (fs s))
               (cf_with_pos (block_file s) (pos + Zlength' buffer)) (index_file s)).
  set (s2 := impl_with_files s1
               (<[file_path (block_file s1) :=
                    write_at (write_at L pos buffer) (cf_pos (block_file s1)) (le_encode 8 pos)]>
                  (fs s1))
               (cf_with_pos (block_file s1) (cf_pos (block_file s1) + Zlength' (le_encode 8 pos)))
               (index_file s1)).
  set (s3 := impl_with_files s2
               (<[file_path (index_file s2) :=
                    write_at I (cf_pos (index_file s2)) (le_encode 8 pos)]> (fs s2))
               (block_file s2)
               (cf_with_pos (index_file s2) (cf_pos (index_file s2) + Zlength' (le_encode 8 pos)))).
  exists s3. split; [|split].
  - unfold write_log_entry.
    rewrite (M_bind_Ok _ _ _ pos s) by apply on_block_file_tellp.
    rewrite (M_bind_Ok _ _ _ (preamble s) s) by reflexivity.
    rewrite (M_bind_Ok _ _ _ buffer s).
    2:{ destruct (pruned_transaction_version <=? version (preamble s)).
        - unfold lift. rewrite Hbuf. reflexivity.
        - destruct Hbuf as [-> ->]. reflexivity. }
    rewrite (M_bind_Ok _ _ _ tt s1).
    2:{ apply on_block_file_run. apply cfile_write_run. exact HL. }
    rewrite (M_bind_Ok _ _ _ tt s2).
    2:{ apply on_block_file_run. apply cfile_write_run. apply lookup_insert_eq. }
    rewrite (M_bind_Ok _ _ _ tt s3).
    2:{ apply on_index_file_run. apply cfile_write_run.
        change (fs s2) with (<[file_path (block_file s) :=
                    write_at (write_at L pos buffer) (pos + Zlength' buffer) (le_encode 8 pos)]>
                  (<[file_path (block_file s) := write_at L pos buffer]> (fs s))).
        change (file_path (index_file s2)) with (file_path (index_file s)).
        rewrite !lookup_insert_ne by exact Hne. exact HI. }
    reflexivity.
  - change (fs s3) with
      (<[file_path (index_file s) := write_at I (cf_pos (index_file s)) (le_encode 8 pos)]>
         (<[file_path (block_file s) :=
              write_at (write_at L pos buffer) (pos + Zlength' buffer) (le_encode 8 pos)]>
            (<[file_path (block_file s) := write_at L pos buffer]> (fs s)))).
    rewrite insert_insert_eq. reflexivity.
  - unfold same_frame. repeat split; reflexivity.
Qed.

Lemma append_entry_run b c s L I buffer :
  ready_to_append s b c L I buffer →
  ∃ s1, append_entry b c s = (Ok (Zlength' L), s1) ∧
    fs s1 = <[file_path (index_file s) := I ++ le_encode 8 (Zlength' L)]>
              (<[file_path (block_file s) := L ++ buffer ++ le_encode 8 (Zlength' L)]> (fs s)) ∧
    head s1 = Some b ∧
    data_dir s1 = data_dir s ∧ catalog s1 = catalog s ∧ preamble s1 = preamble s ∧
    stride s1 = stride s ∧ genesis_written_to_block_log s1 = true ∧
    file_path (block_file s1) = file_path (block_file s) ∧
    file_path (index_file s1) = file_path (index_file s).
Proof.
  intros (Hg & HL & HI & Hne & Hidx & Hbuf).
  set (sA := impl_with_files s (fs s) (cf_with_pos (block_file s) (Zlength' L)) (index_file s)).
  set (sB := impl_with_files sA (fs sA) (block_file sA)
               (cf_with_pos (index_file sA) (Zlength' I))).
  destruct (write_log_entry_run b c sB L I buffer HL HI Hne Hbuf) as (s' & Hw & Hfs & Hframe).
  exists (impl_with_head s' (Some b)). split.
  - unfold append_entry.
    rewrite (M_bind_Ok _ _ _ true s) by (unfold gets; rewrite Hg; reflexivity).
    rewrite (M_bind_Ok _ _ _ tt s) by reflexivity.
    rewrite (M_bind_Ok _ _ _ tt sA).
    2:{ apply on_block_file_run. apply cfile_seek_end_0. exact HL. }
    rewrite (M_bind_Ok _ _ _ tt sB).
    2:{ apply on_index_file_run. apply (cfile_seek_end_0 (fs s) (index_file s)). exact HI. }
    rewrite (M_bind_Ok _ _ _ (Zlength' I) sB) by apply on_index_file_tellp.
    rewrite (M_bind_Ok _ _ _ (preamble s) sB) by reflexivity.
    rewrite (M_bind_Ok _ _ _ tt sB).
    2:{ unfold M_ASSERT, lift. rewrite Hidx, Z.eqb_refl. reflexivity. }
    rewrite (M_bind_Ok _ _ _ (Zlength' L) s') by exact Hw.
    reflexivity.
  - change (fs (impl_with_head s' (Some b))) with (fs s'). rewrite Hfs.
    change (cf_pos (index_file sB)) with (Zlength' I).
    change (cf_pos (block_file sB)) with (Zlength' L).
    change (file_path (index_file sB)) with (file_path (index_file s)).
    change (file_path (block_file sB)) with (file_path (block_file s)).
    change (fs sB) with (fs s).
    rewrite !write_at_end.
    replace (Zlength' L + Zlength' buffer) with (Zlength' (L ++ buffer))
      by (unfold Zlength'; rewrite length_app; lia).
    rewrite write_at_end, <- app_assoc.
    destruct Hframe as (Hd & _ & Hc & Hp & Hst & Hgw & Hbp & Hip).
    split; [reflexivity|]. split; [reflexivity|].
    split; [exact Hd|]. split; [exact Hc|]. split; [exact Hp|]. split; [exact Hst|].
    split; [rewrite <- Hg; exact Hgw|]. split; [exact Hbp|exact Hip].
Qed.

(** [get_block_pos] inside the range of the live log, the slot being in the
    index: the position is what the slot holds *)
Lemma get_block_pos_run s n h I :
  head s = Some h →
  first_block_num (preamble s) ≤ n ≤ block_num h →
  fs s !! file_path (index_file s) = Some I →
  8 * u32 (n - first_block_num (preamble s)) + 8 ≤ Zlength' I →
  ∃ s', get_block_pos n s =
          (Ok (le_decode (take 8 (drop (Z.to_nat (8 * u32 (n - first_block_num (preamble s)))) I))),
           s') ∧
        same_log s s'.
Proof.
  intros Hh [Hlo Hhi] HI Hslot.
  set (k := 8 * u32 (n - first_block_num (preamble s))) in *.
  assert (0 ≤ k) as Hk by (unfold k, u32; pose proof (Z.mod_pos_bound (n - first_block_num (preamble s)) (2 ^ 32)); lia).
  set (sA := impl_with_files s (fs s) (block_file s) (cf_with_pos (index_file s) k)).
  set (sB := impl_with_files sA (fs sA) (block_file sA)
               (cf_with_pos (index_file sA) (cf_pos (index_file sA) + Z.of_nat 8))).
  assert (get_block_pos n s = (Ok (le_decode (take 8 (drop (Z.to_nat k) I))), sB)) as Hrun.
  { unfold get_block_pos. rewrite (M_bind_Ok _ _ _ s s) by reflexivity.
    unfold id. rewrite Hh.
    apply Z.leb_le in Hlo. apply Z.leb_le in Hhi. rewrite Hlo, Hhi. cbn [andb negb].
    fold k.
    rewrite (M_bind_Ok _ _ _ tt sA) by (apply on_index_file_run; reflexivity).
    rewrite (M_bind_Ok _ _ _ (take 8 (drop (Z.to_nat k) I)) sB); [reflexivity|].
    apply on_index_file_run.
    apply (cfile_read_run (fs s) (cf_with_pos (index_file s) k) I 8 HI); cbn [cf_pos cf_with_pos]; lia. }
  exists sB. split; [exact Hrun|]. exact (get_block_pos_same_log n s _ _ Hrun).
Qed.

Lemma take_drop_app_end {A} (l x : list A) n :
  take n (drop (length l) (l ++ x)) = take n x.
Proof. rewrite drop_app_length. reflexivity. Qed.

Lemma take_drop_app_inside {A} (l x : list A) k n :
  (k + n ≤ length l)%nat → take n (drop k (l ++ x)) = take n (drop k l).
Proof.
  intros H. rewrite drop_app_le by lia. rewrite take_app_le; [reflexivity|].
  rewrite length_drop. lia.
Qed.

(** [append] of a block that the stride does not divide: the entry is
    written and nothing rotates *)
Lemma append_run b c s L I buffer :
  ready_to_append s b c L I buffer →
  stride s ≠ 0 → block_num b mod stride s ≠ 0 →
  ∃ s1, append b c s = (Ok (Zlength' L), s1) ∧
    fs s1 = <[file_path (index_file s) := I ++ le_encode 8 (Zlength' L)]>
              (<[file_path (block_file s) := L ++ buffer ++ le_encode 8 (Zlength' L)]> (fs s)) ∧
    head s1 = Some b ∧
    data_dir s1 = data_dir s ∧ catalog s1 = catalog s ∧ preamble s1 = preamble s ∧
    stride s1 = stride s ∧ genesis_written_to_block_log s1 = true ∧
    file_path (block_file s1) = file_path (block_file s) ∧
    file_path (index_file s1) = file_path (index_file s).
Proof.
  intros Hready Hstride Hmod.
  destruct (append_entry_run b c s L I buffer Hready) as (s1 & Hrun & Hrest).
  exists s1. split; [|exact Hrest].
  destruct Hrest as (_ & _ & _ & _ & _ & Hst & _).
  unfold append. rewrite (M_bind_Ok _ _ _ (Zlength' L) s1 Hrun).
  rewrite (M_bind_Ok _ _ _ (stride s) s1) by (unfold gets; rewrite Hst; reflexivity).
  apply Z.eqb_neq in Hstride. rewrite Hstride.
  apply Z.eqb_neq in Hmod. rewrite Hmod. reflexivity.
Qed.

(** X4. In a state that is ready for it, [append] of a block whose
    number the stride does not divide (an append that does not rotate the
    log) writes the entry of the block at the end of the log, followed by
    the position where the entry starts, writes that position at the end of
    the index, makes the block the head and returns the position; nothing
    that was in the two files is changed, and the last 8 bytes of the log
    and the last slot of the index hold the same position afterwards. *)
Theorem append_appends b c s L I buffer :
  ready_to_append s b c L I buffer →
  stride s ≠ 0 → block_num b mod stride s ≠ 0 →
  Zlength' L < 2 ^ 64 →
  ∃ s1 L' I',
    append b c s = (Ok (Zlength' L), s1) ∧
    L' = L ++ buffer ++ le_encode 8 (Zlength' L) ∧
    I' = I ++ le_encode 8 (Zlength' L) ∧
    fs s1 = <[file_path (index_file s) := I']> (<[file_path (block_file s) := L']> (fs s)) ∧
    head s1 = Some b ∧ preamble s1 = preamble s ∧ catalog s1 = catalog s ∧
    read_buffer 8 L' (Zlength' L' - 8) = Ok (Zlength' L) ∧
    index_back {| index_file_data := I' |} = Ok (Zlength' L).
Proof.
  intros Hready Hstride Hmod Hsmall.
  destruct (append_run b c s L I buffer Hready Hstride Hmod)
    as (s1 & Hrun & Hfs & Hhead & _ & Hcat & Hpre & _).
  exists s1, (L ++ buffer ++ le_encode 8 (Zlength' L)), (I ++ le_encode 8 (Zlength' L)).
  assert (0 ≤ Zlength' L < 256 ^ Z.of_nat 8) as Hpos
    by (change (256 ^ Z.of_nat 8) with (2 ^ 64); pose proof (Zlength'_nonneg L); lia).
  assert (∀ pre : list byte,
            read_buffer 8 (pre ++ le_encode 8 (Zlength' L))
              (Zlength' (pre ++ le_encode 8 (Zlength' L)) - 8) = Ok (Zlength' L)) as Hlast.
  { intros pre. unfold read_buffer.
    assert (Zlength' (pre ++ le_encode 8 (Zlength' L)) - 8 = Zlength' pre) as ->
      by (unfold Zlength'; rewrite length_app, length_le_encode; lia).
    assert ((0 <=? Zlength' pre) = true) as -> by (apply Z.leb_le; unfold Zlength'; lia).
    assert ((Zlength' pre + Z.of_nat 8 <=? Zlength' (pre ++ le_encode 8 (Zlength' L))) = true)
      as -> by (apply Z.leb_le; unfold Zlength'; rewrite length_app, length_le_encode; lia).
    cbn [andb]. unfold Zlength' at 1. rewrite Nat2Z.id, take_drop_app_end.
    rewrite take_ge by (rewrite length_le_encode; lia).
    rewrite le_decode_encode_small by exact Hpos. reflexivity. }
  repeat split; try assumption.
  - rewrite (app_assoc L). apply Hlast.
  - unfold index_back, index_size. cbn [index_file_data]. apply Hlast.
Qed.



(** X6. [append] of a block whose number the stride does not divide (an
    append that does not rotate the log) leaves the index positions of the
    blocks before it where they were: [get_block_pos] for a block of the
    live log whose slot is in the index returns the same position after the
    append as before. *)
Theorem append_keeps_positions b c s L I buffer h n :
  ready_to_append s b c L I buffer →
  stride s ≠ 0 → block_num b mod stride s ≠ 0 →
  head s = Some h →
  first_block_num (preamble s) ≤ n ≤ block_num h →
  n ≤ block_num b →
  8 * u32 (n - first_block_num (preamble s)) + 8 ≤ Zlength' I →
  ∃ s1 pos,
    append b c s = (Ok (Zlength' L), s1) ∧
    fst (get_block_pos n s) = Ok pos ∧
    fst (get_block_pos n s1) = Ok pos.
Proof.
  intros Hready Hstride Hmod Hh Hn Hnb Hslot.
  destruct (append_run b c s L I buffer Hready Hstride Hmod)
    as (s1 & Hrun & Hfs & Hhead & _ & _ & Hpre & _ & _ & _ & Hip).
  destruct Hready as (_ & _ & HI & _).
  destruct (get_block_pos_run s n h I Hh Hn HI Hslot) as (sA & Hget & _).
  destruct (get_block_pos_run s1 n b (I ++ le_encode 8 (Zlength' L)) Hhead) as (sB & Hget1 & _).
  - rewrite Hpre. lia.
  - rewrite Hip, Hfs. apply lookup_insert_eq.
  - rewrite Hpre. unfold Zlength'. rewrite length_app. unfold Zlength' in Hslot. lia.
  - exists s1. eexists. split; [exact Hrun|]. rewrite Hget, Hget1. cbn [fst].
    split; [reflexivity|]. rewrite Hpre. do 2 f_equal.
    apply take_drop_app_inside.
    assert (0 ≤ 8 * u32 (n - first_block_num (preamble s))) as Hk
      by (unfold u32; pose proof (Z.mod_pos_bound (n - first_block_num (preamble s)) (2 ^ 32)); lia).
    unfold Zlength' in Hslot. lia.
Qed.

End append_facts.


Section catalog_facts.
Context `{CL : chain_layer}.

Lemma get_block_pos_out_of_range s bn :
  ¬ in_live_range s bn → get_block_pos bn s = (Ok npos, s).
Proof.
  intros Hlive. unfold get_block_pos. rewrite (M_bind_Ok _ _ _ s s) by reflexivity.
  unfold in_live_range in Hlive. unfold id.
  destruct (head s) as [h|]; [|reflexivity].
  destruct ((bn <=? block_num h) && (first_block_num (preamble s) <=? bn)) eqn:E;
    [|reflexivity].
  apply andb_prop in E as [E1 E2]. apply Z.leb_le in E1. apply Z.leb_le in E2.
  exfalso. apply Hlive. lia.
Qed.

(** X21. [prune_transactions] works on the live log only. On a log below
    version 4 it throws that the version does not support pruning; for a
    block number outside the range of the live log, a block of a retained
    segment of the catalog included, it throws that the block does not
    exist. In both cases the log and [ids] are as they were. *)
Theorem prune_transactions_rejects s bn ids :
  version (preamble s) < pruned_transaction_version ∨ ¬ in_live_range s bn →
  ∃ what,
    prune_transactions bn ids s = (Throw (Exn block_log_exception what), s) ∧
    what = if version (preamble s) <? pruned_transaction_version
           then "The block log version ${version} does not support transaction pruning."%string
           else "Specified block_num ${block_num} does not exist in block log."%string.
Proof.
  intros H. unfold prune_transactions.
  rewrite (M_bind_Ok _ _ _ (preamble s) s) by reflexivity.
  destruct (version (preamble s) <? pruned_transaction_version) eqn:Ev.
  - eexists. split; [|reflexivity]. apply M_bind_Throw. unfold M_ASSERT, lift, EOS_ASSERT.
    apply Z.ltb_lt in Ev.
    assert ((pruned_transaction_version <=? version (preamble s)) = false) as ->
      by (apply Z.leb_gt; exact Ev).
    reflexivity.
  - apply Z.ltb_ge in Ev. destruct H as [H|H]; [lia|].
    eexists. split; [|reflexivity].
    rewrite (M_bind_Ok _ _ _ tt s).
    2:{ unfold M_ASSERT, lift, EOS_ASSERT.
        assert ((pruned_transaction_version <=? version (preamble s)) = true) as ->
          by (apply Z.leb_le; exact Ev).
        reflexivity. }
    rewrite (M_bind_Ok _ _ _ npos s) by (apply get_block_pos_out_of_range; exact H).
    apply M_bind_Throw. reflexivity.
Qed.

(** X7. For a block number outside the range of the live log and outside
    every segment of the catalog, [read_block_by_num] returns the null
    pointer and leaves the log as it was; it throws nothing. *)
Theorem read_block_by_num_absent s bn :
  ¬ in_live_range s bn →
  ¬ in_catalog (catalog s) bn →
  (∀ i, active_index (catalog s) = Some i → (i < length (collection (catalog s)))%nat) →
  read_block_by_num bn s = (Ok None, s).
Proof.
  intros Hlive Hcat Hact. unfold read_block_by_num.
  rewrite (M_bind_Ok _ _ _ npos s) by (apply get_block_pos_out_of_range; exact Hlive).
  change (negb (npos =? npos)) with false. cbv iota.
  rewrite (M_bind_Ok _ _ _ false s); [reflexivity|].
  unfold on_catalog, zoom.
  rewrite (set_active_item_not_found _ _ _ Hcat Hact).
  rewrite impl_with_catalog_id. reflexivity.
Qed.

#[local] Instance same_collection_refl : Reflexive same_collection.
Proof. intros w. split; reflexivity. Qed.
#[local] Instance same_collection_trans : Transitive same_collection.
Proof. intros a b c [H1 H2] [H3 H4]. split; congruence. Qed.

Lemma cat_open_log_data_same p : preserves same_collection (cat_open_log_data p).
Proof.
  intros [fs c] r w'. unfold cat_open_log_data.
  destruct (block_log_data_open fs p); intros [= <- <-]; split; reflexivity.
Qed.

Lemma cat_open_log_index_same p : preserves same_collection (cat_open_log_index p).
Proof.
  intros [fs c] r w'. unfold cat_open_log_index.
  destruct (block_log_index_open fs p); intros [= <- <-]; split; reflexivity.
Qed.

Lemma set_active_same a :
  preserves same_collection
    (on_snd (T := block_log_catalog) (modify (λ c, cat_with_active c a))).
Proof.
  intros [fs c] r w'. unfold on_snd, zoom, modify. cbn. intros [= <- <-]. split; reflexivity.
Qed.

Hint Resolve cat_open_log_data_same cat_open_log_index_same set_active_same : frame.







End catalog_facts.

Section add_facts.
Context `{CL : chain_layer}.

Lemma collection_emplace_last k v (c : list (Z * mapped_type)) :
  (∀ k' v', (k', v') ∈ c → k' < k) → collection_emplace k v c = c ++ [(k, v)].
Proof.
  induction c as [|[k0 v0] r IH]; intros Hlt; [reflexivity|].
  cbn [collection_emplace].
  assert (k0 < k) as H0 by (apply (Hlt k0 v0); left).
  assert ((k <? k0) = false) as -> by (apply Z.ltb_ge; lia).
  assert ((k =? k0) = false) as -> by (apply Z.eqb_neq; lia).
  rewrite IH; [reflexivity|]. intros k' v' Hin. apply (Hlt k' v'). right. exact Hin.
Qed.

(** X9. [add] with a first block number above those of the collection,
    when the eviction of the oldest segments succeeds: the collection
    never holds more than max_retained_files segments afterwards; it is
    what was there without its oldest items, followed by the new segment
    when max_retained_files is positive; and the active index moves with
    its item, or becomes npos when the item is evicted. *)
Theorem catalog_add_retains (fs fs2 : file_system) c start_block_num end_block_num base :
  evict_files (archive_dir c) (take (items_to_erase c) (collection c)) fs = (Ok tt, fs2) →
  (∀ k v, (k, v) ∈ collection c → k < start_block_num) →
  ∃ c',
    catalog_add start_block_num end_block_num base (fs, c) = (Ok tt, (fs2, c')) ∧
    Z.of_nat (length (collection c')) ≤ Z.max 0 (max_retained_files c) ∧
    collection c' =
      drop (items_to_erase c) (collection c) ++
      (if 0 <? max_retained_files c
       then [(start_block_num, {| last_block_num_of := end_block_num; filename_base := base |})]
       else []) ∧
    max_retained_files c' = max_retained_files c ∧
    (∀ a, active_index c = Some a →
       active_index c' = if bool_decide (a < items_to_erase c)%nat then None
                         else Some (a - items_to_erase c)%nat) ∧
    (∀ a a' x, active_index c = Some a → collection c !! a = Some x →
       active_index c' = Some a' → collection c' !! a' = Some x).
Proof.
  intros Hev Hlt.
  exists (catalog_after_add c start_block_num end_block_num base).
  split; [apply catalog_add_Ok; exact Hev|].
  set (n := length (collection c)).
  set (m := max_retained_files c).
  set (e := items_to_erase c).
  set (new := (start_block_num,
               {| last_block_num_of := end_block_num; filename_base := base |})).
  assert (e = if m <=? Z.of_nat n then if 0 <? m then (n - Z.to_nat m + 1)%nat else n
              else 0%nat) as He by reflexivity.
  assert (collection (catalog_after_add c start_block_num end_block_num base)
          = drop e (collection c) ++ (if 0 <? m then [new] else [])) as Hcoll.
  { unfold catalog_after_add. fold m n e.
    assert (∀ l : list (Z * mapped_type), (∀ k v, (k, v) ∈ l → k < start_block_num) →
              (if 0 <? m then collection_emplace start_block_num (snd new) l else l)
              = l ++ (if 0 <? m then [new] else [])) as Hem.
    { intros l Hl. destruct (0 <? m); [|rewrite app_nil_r; reflexivity].
      apply collection_emplace_last. exact Hl. }
    destruct (m <=? Z.of_nat n) eqn:Hm.
    - rewrite <- Hem.
      + destruct (0 <? m); reflexivity.
      + intros k v Hin. apply (Hlt k v). eapply subseteq_drop, Hin.
    - assert (e = 0%nat) as -> by (rewrite He; reflexivity). rewrite drop_0.
      rewrite <- Hem by exact Hlt. destruct (0 <? m); reflexivity. }
  assert (active_index (catalog_after_add c start_block_num end_block_num base)
          = match active_index c with
            | None => None
            | Some a => if bool_decide (a < e)%nat then None else Some (a - e)%nat
            end) as Hact.
  { unfold catalog_after_add. fold m n e.
    destruct (m <=? Z.of_nat n) eqn:Hm.
    - destruct (0 <? m); reflexivity.
    - assert (e = 0%nat) as -> by (rewrite He; reflexivity).
      destruct (active_index c) as [a|] eqn:Ha.
      + rewrite bool_decide_eq_false_2 by lia. rewrite Nat.sub_0_r.
        destruct (0 <? m); cbn; first [reflexivity|exact Ha].
      + destruct (0 <? m); cbn; first [reflexivity|exact Ha]. }
  split; [|split; [exact Hcoll|split; [|split]]].
  - rewrite Hcoll, length_app, length_drop. fold n. rewrite He.
    destruct (m <=? Z.of_nat n) eqn:Hm; destruct (0 <? m) eqn:Hp; cbn [length];
      try apply Z.leb_le in Hm; try apply Z.leb_gt in Hm;
      try apply Z.ltb_lt in Hp; try apply Z.ltb_ge in Hp; lia.
  - unfold catalog_after_add. fold m n.
    destruct (m <=? Z.of_nat n); destruct (0 <? m); reflexivity.
  - intros a Ha. rewrite Hact, Ha. reflexivity.
  - intros a a' x Ha Hx Ha'. rewrite Hact, Ha in Ha'.
    case_bool_decide as Hlt'; [discriminate|]. injection Ha' as <-.
    rewrite Hcoll. apply lookup_app_l_Some. rewrite lookup_drop.
    replace (e + (a - e))%nat with a by lia. exact Hx.
Qed.

Lemma evict_files_None (items : list (Z * mapped_type)) (fs : file_system) :
  ∃ fs', evict_files None items fs = (Ok tt, fs') ∧
    ∀ p, fs' !! p = if bool_decide (p ∈ segment_files items) then None else fs !! p.
Proof.
  revert fs. induction items as [|[k item] r IH]; intros fs.
  - exists fs. split; [reflexivity|]. intros p. cbn.
    rewrite bool_decide_eq_false_2 by apply not_elem_of_nil. reflexivity.
  - set (lg := replace_extension (filename_base item) "log").
    set (ix := replace_extension (filename_base item) "index").
    destruct (IH (delete ix (delete lg fs))) as (fs' & Hrun & Hfs').
    exists fs'. split.
    + cbn [evict_files]. fold lg ix.
      rewrite (M_bind_Ok _ _ _ tt (delete ix (delete lg fs))); [exact Hrun|].
      rewrite (M_bind_Ok _ _ _ tt (delete lg fs)) by reflexivity. reflexivity.
    + intros p. rewrite Hfs'. cbn [segment_files flat_map]. fold lg ix.
      change (flat_map _ r) with (segment_files r).
      destruct (decide (p ∈ segment_files r)) as [Hin|Hnin].
      * rewrite !bool_decide_eq_true_2; [reflexivity| |exact Hin].
        cbn. right. right. exact Hin.
      * rewrite (bool_decide_eq_false_2 _ Hnin).
        destruct (decide (p = ix)) as [->|Hix].
        { rewrite lookup_delete_eq. rewrite bool_decide_eq_true_2; [reflexivity|].
          cbn. right. left. }
        rewrite lookup_delete_ne by (intros E; apply Hix; symmetry; exact E).
        destruct (decide (p = lg)) as [->|Hlg].
        { rewrite lookup_delete_eq. rewrite bool_decide_eq_true_2; [reflexivity|].
          cbn. left. }
        rewrite lookup_delete_ne by (intros E; apply Hlg; symmetry; exact E).
        rewrite bool_decide_eq_false_2; [reflexivity|].
        cbn. intros Hin. apply elem_of_cons in Hin as [E|Hin]; [exact (Hlg E)|].
        apply elem_of_cons in Hin as [E|Hin]; [exact (Hix E)|exact (Hnin Hin)].
Qed.

(** X10. With no archive directory, [add] always succeeds: it deletes the
    .log and the .index file of every segment it evicts, whether the file
    is there or not, and leaves every other file as it was. *)
Theorem catalog_add_deletes (fs : file_system) c start_block_num end_block_num base :
  archive_dir c = None →
  ∃ fs' c',
    catalog_add start_block_num end_block_num base (fs, c) = (Ok tt, (fs', c')) ∧
    collection c' =
      (if 0 <? max_retained_files c
       then collection_emplace start_block_num
              {| last_block_num_of := end_block_num; filename_base := base |}
              (drop (items_to_erase c) (collection c))
       else drop (items_to_erase c) (collection c)) ∧
    ∀ p, fs' !! p =
         if bool_decide (p ∈ segment_files (take (items_to_erase c) (collection c)))
         then None else fs !! p.
Proof.
  intros Hnone.
  destruct (evict_files_None (take (items_to_erase c) (collection c)) fs) as (fs' & Hev & Hfs').
  exists fs', (catalog_after_add c start_block_num end_block_num base).
  split; [apply catalog_add_Ok; rewrite Hnone; exact Hev|]. split; [|exact Hfs'].
  unfold catalog_after_add.
  destruct (max_retained_files c <=? Z.of_nat (length (collection c))) eqn:Hm.
  - destruct (0 <? max_retained_files c); reflexivity.
  - assert (items_to_erase c = 0%nat) as -> by (unfold items_to_erase; rewrite Hm; reflexivity).
    rewrite drop_0. destruct (0 <? max_retained_files c); reflexivity.
Qed.

End add_facts.

Lemma read_buffer_app n data x off v :
  read_buffer n data off = Ok v → read_buffer n (data ++ x) off = Ok v.
Proof.
  unfold read_buffer. destruct ((0 <=? off) && (off + Z.of_nat n <=? Zlength' data)) eqn:E;
    [|discriminate].
  apply andb_prop in E as [E1 E2]. apply Z.leb_le in E1. apply Z.leb_le in E2.
  intros H. apply Ok_inj in H. subst v.
  assert ((0 <=? off) = true) as -> by (apply Z.leb_le; lia).
  assert ((off + Z.of_nat n <=? Zlength' (data ++ x)) = true) as ->.
  { apply Z.leb_le. rewrite Zlength'_app. pose proof (Zlength'_nonneg x). lia. }
  cbn [andb]. do 2 f_equal. unfold Zlength' in E2.
  apply take_drop_app_inside. lia.
Qed.

Lemma back_chain_app data x first e backwards :
  back_chain data first e backwards → back_chain (data ++ x) first e backwards.
Proof.
  revert e. induction backwards as [|p r IH]; intros e; cbn [back_chain]; [auto|].
  intros (H1 & H2 & H3 & H4 & H5). split; [exact H1|]. split; [exact H2|].
  split; [rewrite Zlength'_app; pose proof (Zlength'_nonneg x); lia|].
  split; [apply read_buffer_app; exact H4|]. apply IH. exact H5.
Qed.

Lemma read_buffer_last pre z :
  0 ≤ z < 2 ^ 64 →
  read_buffer 8 (pre ++ le_encode 8 z) (Zlength' (pre ++ le_encode 8 z) - 8) = Ok z.
Proof.
  intros Hz. unfold read_buffer. rewrite Zlength'_app, Zlength'_le_encode.
  replace (Zlength' pre + Z.of_nat 8 - 8) with (Zlength' pre) by lia.
  pose proof (Zlength'_nonneg pre).
  assert ((0 <=? Zlength' pre) = true) as -> by (apply Z.leb_le; lia).
  rewrite Z.leb_refl. cbn [andb]. unfold Zlength'. rewrite Nat2Z.id, take_drop_app_end.
  rewrite take_ge by (rewrite length_le_encode; lia).
  rewrite le_decode_encode_small by (change (256 ^ Z.of_nat 8) with (2 ^ 64); exact Hz).
  reflexivity.
Qed.

Lemma write_at_middle (a x b y : list byte) :
  length x = length y → write_at (a ++ x ++ b) (Zlength' a) y = a ++ y ++ b.
Proof.
  intros Hl. unfold write_at, Zlength'. rewrite Nat2Z.id.
  rewrite <- app_assoc, take_app_length.
  rewrite <- Hl, (app_assoc a x b), <- length_app, drop_app_length. reflexivity.
Qed.

Section index_rebuild.
Context `{CL : chain_layer}.

(** the loop of [construct_index] along a chain of entries: it writes the
    positions into the slots below the offset of the writer *)
Lemma construct_index_loop_chain data first backwards :
  8 ≤ first → Zlength' data < 2 ^ 64 →
  ∀ e fuel A B found,
    back_chain data first e backwards →
    (length backwards ≤ fuel)%nat →
    length A = (8 * length backwards)%nat →
    construct_index_loop fuel
      {| it_data := data; begin_position := first - 8; current_position := e - 8 |}
      {| current_offset := 8 * Z.of_nat (length backwards); index_mapping := A ++ B |} found
    = (Ok ({| current_offset := 0;
              index_mapping := index_of_positions (rev backwards) ++ B |},
           found + Z.of_nat (length backwards)),
       {| current_offset := 0; index_mapping := index_of_positions (rev backwards) ++ B |}).
Proof.
  intros Hfirst Hsize. induction backwards as [|p r IH]; intros e fuel A B found Hchain Hfuel HA.
  - cbn [back_chain] in Hchain. subst e. destruct A; [|discriminate].
    cbn [length Z.of_nat rev index_of_positions map concat app]. rewrite Z.add_0_r.
    destruct fuel as [|fuel]; [reflexivity|]. cbn [construct_index_loop].
    unfold it_get_value. cbn [current_position begin_position]. rewrite Z.leb_refl.
    rewrite Z.eqb_refl. reflexivity.
  - cbn [back_chain] in Hchain. destruct Hchain as (H1 & H2 & H3 & H4 & H5).
    destruct fuel as [|fuel]; [cbn in Hfuel; lia|]. cbn [construct_index_loop].
    unfold it_get_value. cbn [current_position begin_position it_data].
    assert ((e - 8 <=? first - 8) = false) as -> by (apply Z.leb_gt; lia).
    rewrite H4.
    assert ((p =? npos) = false) as -> by (apply Z.eqb_neq; unfold npos; lia).
    unfold it_next. cbn [current_position begin_position it_data].
    assert ((first - 8 <? e - 8) = true) as -> by (apply Z.ltb_lt; lia).
    assert ((e - 8 <? Zlength' data) = true) as -> by (apply Z.ltb_lt; lia).
    cbn [andb EOS_ASSERT mbind res_bind]. rewrite H4. cbn [mbind res_bind].
    assert (u64 (p - 8) = p - 8) as -> by (apply Z.mod_small; lia).
    cbn [length] in HA.
    assert (A = take (8 * length r) A ++ drop (8 * length r) A) as HAs
      by (symmetry; apply take_drop).
    set (A1 := take (8 * length r) A) in *. set (A2 := drop (8 * length r) A) in *.
    assert (length A1 = (8 * length r)%nat) as HA1 by (unfold A1; rewrite length_take; lia).
    assert (length A2 = 8%nat) as HA2 by (unfold A2; rewrite length_drop; lia).
    assert (index_writer_write
              {| current_offset := 8 * Z.of_nat (length (p :: r)); index_mapping := A ++ B |} p
            = {| current_offset := 8 * Z.of_nat (length r);
                 index_mapping := A1 ++ le_encode 8 p ++ B |}) as ->.
    { unfold index_writer_write. cbn [current_offset index_mapping length].
      f_equal; [lia|].
      replace (8 * Z.of_nat (S (length r)) - 8) with (Zlength' A1)
        by (unfold Zlength'; rewrite HA1; lia).
      rewrite HAs, <- app_assoc. apply write_at_middle.
      rewrite HA2, length_le_encode. reflexivity. }
    rewrite (IH p fuel A1 (le_encode 8 p ++ B) (found + 1) H5); [|cbn in Hfuel; lia|exact HA1].
    assert (index_of_positions (rev (p :: r)) ++ B
            = index_of_positions (rev r) ++ le_encode 8 p ++ B) as ->.
    { unfold index_of_positions. cbn [rev]. rewrite map_app, concat_app. cbn [map concat].
      rewrite app_nil_r, <- app_assoc. reflexivity. }
    cbn [length]. do 3 f_equal. lia.
Qed.

(** X11. [construct_index] on a log whose entries are chained by their
    trailing positions and whose block numbers give as many blocks as the
    chain has entries: the index file is replaced by the positions of the
    entries, in the order of the log; for a log without blocks nothing is
    written, not even an empty index. *)
Theorem construct_index_rebuilds (fs : file_system) block_file_name index_file_name
    log positions :
  block_log_data_open fs block_file_name = Ok log →
  8 ≤ first_block_pos log →
  log_size log < 2 ^ 64 →
  back_chain (log_file log) (first_block_pos log) (log_size log) (rev positions) →
  log_num_blocks log = Ok (Z.of_nat (length positions)) →
  construct_index block_file_name index_file_name fs =
    (Ok tt, if decide (positions = []) then fs
            else <[index_file_name := index_of_positions positions]> fs).
Proof.
  intros Hopen Hfirst Hsize Hchain Hnum.
  unfold construct_index. rewrite Hopen, Hnum.
  destruct positions as [|p0 ps].
  { reflexivity. }
  set (positions := p0 :: ps) in *.
  assert (length positions ≠ 0%nat) as Hlen by (unfold positions; cbn; lia).
  assert ((Z.of_nat (length positions) =? 0) = false) as -> by (apply Z.eqb_neq; lia).
  rewrite Nat2Z.id.
  assert (first_block_pos log + 8 ≤ log_size log) as Hroom.
  { destruct (rev positions) as [|p r] eqn:Hr.
    - apply (f_equal length) in Hr. rewrite length_rev in Hr. cbn in Hr. lia.
    - cbn [back_chain] in Hchain. lia. }
  unfold make_reverse_block_position_iterator, index_writer_new.
  fold (log_size log).
  assert (u64 (first_block_pos log - 8) = first_block_pos log - 8) as ->
    by (apply Z.mod_small; lia).
  assert (u64 (log_size log - 8) = log_size log - 8) as ->
    by (apply Z.mod_small; lia).
  pose proof (construct_index_loop_chain (log_file log) (first_block_pos log) (rev positions)
                Hfirst Hsize (log_size log) (length positions)
                (zeros (Z.to_nat (Z.of_nat (length positions) * 8))) [] 0 Hchain) as Hloop.
  rewrite length_rev, rev_involutive, !app_nil_r in Hloop.
  replace (8 * Z.of_nat (length positions)) with (Z.of_nat (length positions) * 8) in Hloop
    by lia.
  rewrite Hloop.
  - cbn [index_mapping]. rewrite Z.add_0_l, Z.eqb_refl.
    destruct (decide (positions = [])) as [E|_]; [discriminate E|reflexivity].
  - lia.
  - unfold zeros. rewrite length_replicate. lia.
Qed.

(** the same loop when the writer has more slots than the chain has
    entries: the slots in front stay as they are, and the loop ends at the
    first entry with rounds to spare *)
Lemma construct_index_loop_short data first backwards :
  8 ≤ first → Zlength' data < 2 ^ 64 →
  ∀ e fuel Zs A B found,
    back_chain data first e backwards →
    (length backwards < fuel)%nat →
    length A = (8 * length backwards)%nat →
    construct_index_loop fuel
      {| it_data := data; begin_position := first - 8; current_position := e - 8 |}
      {| current_offset := Zlength' Zs + 8 * Z.of_nat (length backwards);
         index_mapping := Zs ++ A ++ B |} found
    = (Ok ({| current_offset := Zlength' Zs;
              index_mapping := Zs ++ index_of_positions (rev backwards) ++ B |},
           found + Z.of_nat (length backwards)),
       {| current_offset := Zlength' Zs;
          index_mapping := Zs ++ index_of_positions (rev backwards) ++ B |}).
Proof.
  intros Hfirst Hsize.
  induction backwards as [|p r IH]; intros e fuel Zs A B found Hchain Hfuel HA.
  - cbn [back_chain] in Hchain. subst e. destruct A; [|discriminate].
    cbn [length Z.of_nat rev index_of_positions map concat app]. rewrite !Z.add_0_r.
    destruct fuel as [|fuel]; [cbn in Hfuel; lia|]. cbn [construct_index_loop].
    unfold it_get_value. cbn [current_position begin_position]. rewrite Z.leb_refl.
    rewrite Z.eqb_refl. reflexivity.
  - cbn [back_chain] in Hchain. destruct Hchain as (H1 & H2 & H3 & H4 & H5).
    destruct fuel as [|fuel]; [cbn in Hfuel; lia|]. cbn [construct_index_loop].
    unfold it_get_value. cbn [current_position begin_position it_data].
    assert ((e - 8 <=? first - 8) = false) as -> by (apply Z.leb_gt; lia).
    rewrite H4.
    assert ((p =? npos) = false) as -> by (apply Z.eqb_neq; unfold npos; lia).
    unfold it_next. cbn [current_position begin_position it_data].
    assert ((first - 8 <? e - 8) = true) as -> by (apply Z.ltb_lt; lia).
    assert ((e - 8 <? Zlength' data) = true) as -> by (apply Z.ltb_lt; lia).
    cbn [andb EOS_ASSERT mbind res_bind]. rewrite H4. cbn [mbind res_bind].
    assert (u64 (p - 8) = p - 8) as -> by (apply Z.mod_small; lia).
    cbn [length] in HA.
    assert (A = take (8 * length r) A ++ drop (8 * length r) A) as HAs
      by (symmetry; apply take_drop).
    set (A1 := take (8 * length r) A) in *. set (A2 := drop (8 * length r) A) in *.
    assert (length A1 = (8 * length r)%nat) as HA1 by (unfold A1; rewrite length_take; lia).
    assert (length A2 = 8%nat) as HA2 by (unfold A2; rewrite length_drop; lia).
    assert (index_writer_write
              {| current_offset := Zlength' Zs + 8 * Z.of_nat (length (p :: r));
                 index_mapping := Zs ++ A ++ B |} p
            = {| current_offset := Zlength' Zs + 8 * Z.of_nat (length r);
                 index_mapping := Zs ++ A1 ++ le_encode 8 p ++ B |}) as ->.
    { unfold index_writer_write. cbn [current_offset index_mapping length].
      f_equal; [lia|].
      replace (Zlength' Zs + 8 * Z.of_nat (S (length r)) - 8) with (Zlength' (Zs ++ A1))
        by (rewrite Zlength'_app; unfold Zlength'; rewrite HA1; lia).
      rewrite HAs, <- !app_assoc, (app_assoc Zs A1), (app_assoc Zs A1).
      apply write_at_middle. rewrite HA2, length_le_encode. reflexivity. }
    rewrite (IH p fuel Zs A1 (le_encode 8 p ++ B) (found + 1) H5); [|cbn in Hfuel; lia|exact HA1].
    assert (index_of_positions (rev (p :: r)) ++ B
            = index_of_positions (rev r) ++ le_encode 8 p ++ B) as ->.
    { unfold index_of_positions. cbn [rev]. rewrite map_app, concat_app. cbn [map concat].
      rewrite app_nil_r, <- app_assoc. reflexivity. }
    cbn [length]. do 3 f_equal. lia.
Qed.

(** X24. [construct_index] on a log whose block numbers promise more
    blocks than its chain of entries holds: it throws a
    block_log_exception, and the index file is left behind with one slot for
    each promised block, the slots in front zero and the positions of the
    entries found in the last slots. *)
Theorem construct_index_short (fs : file_system) block_file_name index_file_name
    log positions n :
  block_log_data_open fs block_file_name = Ok log →
  8 ≤ first_block_pos log →
  log_size log < 2 ^ 64 →
  back_chain (log_file log) (first_block_pos log) (log_size log) (rev positions) →
  log_num_blocks log = Ok n →
  Z.of_nat (length positions) < n →
  ∃ what,
    construct_index block_file_name index_file_name fs
    = (Throw (Exn block_log_exception what),
       <[index_file_name := zeros (8 * (Z.to_nat n - length positions)) ++
                            index_of_positions positions]> fs).
Proof.
  intros Hopen Hfirst Hsize Hchain Hnum Hshort.
  unfold construct_index. rewrite Hopen, Hnum.
  assert ((n =? 0) = false) as -> by (apply Z.eqb_neq; lia).
  set (k := length positions) in *.
  assert (first_block_pos log ≤ log_size log) as Hroom.
  { destruct (rev positions) as [|p r] eqn:Hr.
    - cbn [back_chain] in Hchain. lia.
    - cbn [back_chain] in Hchain. lia. }
  unfold make_reverse_block_position_iterator, index_writer_new.
  fold (log_size log).
  assert (u64 (first_block_pos log - 8) = first_block_pos log - 8) as ->
    by (apply Z.mod_small; lia).
  assert (u64 (log_size log - 8) = log_size log - 8) as ->
    by (apply Z.mod_small; lia).
  set (Zs := zeros (8 * (Z.to_nat n - k))).
  assert (zeros (Z.to_nat (n * 8)) = Zs ++ zeros (8 * k) ++ []) as ->.
  { rewrite app_nil_r. unfold Zs. rewrite <- zeros_add. f_equal. lia. }
  assert (n * 8 = Zlength' Zs + 8 * Z.of_nat (length (rev positions))) as ->.
  { unfold Zs, Zlength'. rewrite length_zeros, length_rev. fold k. lia. }
  rewrite (construct_index_loop_short (log_file log) (first_block_pos log) (rev positions)
             Hfirst Hsize (log_size log) (Z.to_nat n) Zs (zeros (8 * k)) [] 0 Hchain).
  - cbn [index_mapping]. rewrite rev_involutive, app_nil_r, length_rev. fold k.
    assert ((0 + Z.of_nat k =? n) = false) as -> by (apply Z.eqb_neq; lia).
    eexists. reflexivity.
  - rewrite length_rev. fold k. lia.
  - rewrite length_zeros, length_rev. reflexivity.
Qed.

(** X12. [append] of a block whose number the stride does not divide (an
    append that does not rotate the log) keeps the log and the index in
    step: when the entries of the log are chained by their trailing
    positions and the index lists these positions, the same holds after
    the append, with the position of the new entry added. *)
Theorem append_extends_chain b c s L I buffer first backwards :
  ready_to_append s b c L I buffer →
  stride s ≠ 0 → block_num b mod stride s ≠ 0 →
  first ≤ Zlength' L < 2 ^ 64 →
  back_chain L first (Zlength' L) backwards →
  I = index_of_positions (rev backwards) →
  ∃ s1 L' I',
    append b c s = (Ok (Zlength' L), s1) ∧
    fs s1 !! file_path (block_file s) = Some L' ∧
    fs s1 !! file_path (index_file s) = Some I' ∧
    back_chain L' first (Zlength' L') (Zlength' L :: backwards) ∧
    I' = index_of_positions (rev (Zlength' L :: backwards)).
Proof.
  intros Hready Hstride Hmod Hpos Hchain ->.
  destruct (append_run b c s L _ buffer Hready Hstride Hmod) as (s1 & Hrun & Hfs & _).
  destruct Hready as (_ & _ & _ & Hne & _).
  exists s1, (L ++ buffer ++ le_encode 8 (Zlength' L)),
    (index_of_positions (rev backwards) ++ le_encode 8 (Zlength' L)).
  split; [exact Hrun|]. split; [|split; [|split]].
  - rewrite Hfs, lookup_insert_ne by (intros E; apply Hne; symmetry; exact E).
    apply lookup_insert_eq.
  - rewrite Hfs. apply lookup_insert_eq.
  - cbn [back_chain]. rewrite !Zlength'_app, Zlength'_le_encode.
    pose proof (Zlength'_nonneg buffer).
    split; [lia|]. split; [lia|]. split; [lia|]. split.
    + rewrite (app_assoc L).
      replace (Zlength' L + (Zlength' buffer + Z.of_nat 8) - 8)
        with (Zlength' ((L ++ buffer) ++ le_encode 8 (Zlength' L)) - 8)
        by (rewrite !Zlength'_app, Zlength'_le_encode; lia).
      apply read_buffer_last. pose proof (Zlength'_nonneg L). lia.
    + apply back_chain_app. exact Hchain.
  - unfold index_of_positions. cbn [rev]. rewrite map_app, concat_app. cbn [map concat].
    rewrite app_nil_r. reflexivity.
Qed.

End index_rebuild.

Section reset_facts.
Context `{CL : chain_layer}.

Lemma on_block_file_truncate s :
  on_block_file cfile_open_truncate s =
    (Ok tt, impl_with_files s (<[file_path (block_file s) := []]> (fs s))
              (cf_with_open (block_file s) true) (index_file s)).
Proof. reflexivity. Qed.

Lemma on_index_file_truncate s :
  on_index_file cfile_open_truncate s =
    (Ok tt, impl_with_files s (<[file_path (index_file s) := []]> (fs s))
              (block_file s) (cf_with_open (index_file s) true)).
Proof. reflexivity. Qed.

(** [impl_reset]: both files are emptied, then the preamble is written; when
    [write_to] throws, the version it wrote first is in the log *)
Lemma impl_reset_run default_version first_bnum chain_context s :
  let p := {| version := default_version; first_block_num := first_bnum;
              chain_context := chain_context |} in
  ∃ s1, fs s1 = <[file_path (index_file s) := []]> (<[file_path (block_file s) := []]> (fs s)) ∧
    same_frame s s1 ∧
    (∀ e, write_to p = Throw e →
       ∃ s', impl_reset default_version first_bnum chain_context s = (Throw e, s') ∧
             fs s' = <[file_path (block_file s) := le_encode 4 default_version]> (fs s1) ∧
             head s' = head s ∧ preamble s' = p ∧
             genesis_written_to_block_log s' = genesis_written_to_block_log s) ∧
    (∀ bytes, write_to p = Ok bytes →
       ∃ s', impl_reset default_version first_bnum chain_context s = (Ok tt, s') ∧
             fs s' = <[file_path (block_file s) := bytes]> (fs s1) ∧
             preamble s' = p ∧ genesis_written_to_block_log s' = true ∧
             head s' = head s ∧ catalog s' = catalog s ∧ stride s' = stride s ∧
             data_dir s' = data_dir s ∧
             file_path (block_file s') = file_path (block_file s) ∧
             file_path (index_file s') = file_path (index_file s) ∧
             cf_pos (index_file s') = 0).
Proof.
  intros p.
  set (sA := impl_with_files s (<[file_path (block_file s) := []]> (fs s))
               (cf_with_open (block_file s) true) (index_file s)).
  set (sB := impl_with_files sA (<[file_path (index_file sA) := []]> (fs sA))
               (block_file sA) (cf_with_open (index_file sA) true)).
  set (sC := impl_with_preamble sB p).
  exists sB. split; [reflexivity|]. split; [unfold same_frame; repeat split; reflexivity|].
  assert (fs sC !! file_path (block_file sC) = Some []) as Hlog.
  { change (fs sC) with (<[file_path (index_file s) := []]>
                           (<[file_path (block_file s) := []]> (fs s))).
    change (file_path (block_file sC)) with (file_path (block_file s)).
    destruct (decide (file_path (index_file s) = file_path (block_file s))) as [->|Hne].
    - apply lookup_insert_eq.
    - rewrite lookup_insert_ne by exact Hne. apply lookup_insert_eq. }
  assert (impl_reset default_version first_bnum chain_context s
            = (_ ← on_block_file (cfile_write_to p);
               modify (λ s,
                 {| fs := fs s; data_dir := data_dir s; head := head s; catalog := catalog s;
                    block_file := block_file s; index_file := index_file s;
                    genesis_written_to_block_log := true;
                    preamble := preamble s; stride := stride s |})) sC) as Hstart.
  { unfold impl_reset.
    rewrite (M_bind_Ok _ _ _ tt sA) by apply on_block_file_truncate.
    rewrite (M_bind_Ok _ _ _ tt sB) by apply on_index_file_truncate.
    rewrite (M_bind_Ok _ _ _ tt sC) by reflexivity. reflexivity. }
  split.
  - intros e He.
    set (written := le_encode 4 default_version).
    set (sD := impl_with_files sC
                 (<[file_path (block_file sC) := write_at [] (cf_pos (block_file sC)) written]>
                    (fs sC))
                 (cf_with_pos (block_file sC) (cf_pos (block_file sC) + Zlength' written))
                 (index_file sC)).
    exists sD. split.
    + rewrite Hstart. apply M_bind_Throw. apply on_block_file_run.
      rewrite (cfile_write_to_Throw p e) by exact He.
      change (version p) with default_version. fold written.
      rewrite (M_bind_Ok _ _ _ tt (fs sD, block_file sD)); [reflexivity|].
      apply cfile_write_run. exact Hlog.
    + split; [|repeat split; reflexivity].
      change (fs sD) with
        (<[file_path (block_file s) := write_at [] 0 written]> (fs sB)).
      rewrite write_at_nil. reflexivity.
  - intros bytes Hb.
    set (sD := impl_with_files sC
                 (<[file_path (block_file sC) := write_at [] (cf_pos (block_file sC)) bytes]>
                    (fs sC))
                 (cf_with_pos (block_file sC) (cf_pos (block_file sC) + Zlength' bytes))
                 (index_file sC)).
    eexists. split.
    + rewrite Hstart.
      rewrite (M_bind_Ok _ _ _ tt sD); [reflexivity|].
      apply on_block_file_run. rewrite (cfile_write_to_Ok p bytes) by exact Hb.
      apply cfile_write_run. exact Hlog.
    + cbn [fs preamble genesis_written_to_block_log head catalog stride data_dir
           block_file index_file].
      split; [|repeat split; reflexivity].
      change (fs sD) with
        (<[file_path (block_file s) := write_at [] 0 bytes]> (fs sB)).
      rewrite write_at_nil. reflexivity.
Qed.

(** X13. [reset(chain_id, first_block_num)]: it throws, the log
    untouched, when the first block number is not above 1 and when the
    catalog has a chain id other than the one given.  Otherwise both files
    are emptied first; then, with the version set to 1, whose preamble
    cannot hold a chain id, [write_to] writes the version and throws
    bad_variant_access: the log is left with these 4 bytes, the index
    empty and the head as it was; with a later version the log holds the
    preamble of that version, first block number and chain id, the index
    is empty and there is no head. *)
Theorem reset_chain_id_spec default_version id first_block_num' s :
  let bp := file_path (block_file s) in
  let ip := file_path (index_file s) in
  (first_block_num' ≤ 1 →
     reset_chain_id default_version id first_block_num' s = (Throw reset_needs_genesis, s)) ∧
  (1 < first_block_num' →
     chain_id_empty (chain_id (catalog s)) = false → id ≠ chain_id (catalog s) →
     reset_chain_id default_version id first_block_num' s = (Throw reset_other_chain, s)) ∧
  (1 < first_block_num' →
     chain_id_empty (chain_id (catalog s)) = true ∨ id = chain_id (catalog s) →
     (default_version = initial_version →
        ∃ e s', reset_chain_id default_version id first_block_num' s = (Throw e, s') ∧
          e = Exn bad_variant_access "std::get<genesis_state>" ∧
          fs s' = <[bp := le_encode 4 default_version]> (<[ip := []]> (fs s)) ∧
          head s' = head s) ∧
     (default_version ≠ initial_version →
        ∃ s', reset_chain_id default_version id first_block_num' s = (Ok tt, s') ∧
          fs s' = <[bp := le_encode 4 default_version ++ le_encode 4 first_block_num' ++
                          id ++ le_encode 8 npos]> (<[ip := []]> (fs s)) ∧
          preamble s' = {| version := default_version; first_block_num := first_block_num';
                           chain_context := inr id |} ∧
          head s' = None ∧ genesis_written_to_block_log s' = true ∧
          catalog s' = catalog s)).
Proof.
  intros bp ip. unfold reset_chain_id. split; [|split].
  - intros Hle. apply M_bind_Throw. unfold M_ASSERT, lift.
    assert ((1 <? first_block_num') = false) as -> by (apply Z.ltb_ge; lia). reflexivity.
  - intros Hlt Hne Hid.
    rewrite (M_bind_Ok _ _ _ tt s).
    2:{ unfold M_ASSERT, lift. apply Z.ltb_lt in Hlt. rewrite Hlt. reflexivity. }
    rewrite (M_bind_Ok _ _ _ (catalog s) s) by reflexivity.
    apply M_bind_Throw. unfold M_ASSERT, lift. rewrite Hne.
    rewrite bool_decide_eq_false_2 by exact Hid. reflexivity.
  - intros Hlt Hsame.
    assert (∀ k : unit → M block_log_impl unit,
              (_ ← M_ASSERT (1 <? first_block_num') block_log_exception
                     "Block log version ${ver} needs to be created with a genesis state if starting from block number 1.";
               c ← gets catalog;
               _ ← M_ASSERT (chain_id_empty (chain_id c) || bool_decide (id = chain_id c))
                     block_log_exception "Trying to reset to the chain to a different chain id";
               k tt) s = k tt s) as Hguards.
    { intros k.
      rewrite (M_bind_Ok _ _ _ tt s).
      2:{ unfold M_ASSERT, lift. apply Z.ltb_lt in Hlt. rewrite Hlt. reflexivity. }
      rewrite (M_bind_Ok _ _ _ (catalog s) s) by reflexivity.
      rewrite (M_bind_Ok _ _ _ tt s); [reflexivity|].
      unfold M_ASSERT, lift. destruct Hsame as [-> | ->]; [reflexivity|].
      rewrite bool_decide_eq_true_2 by reflexivity. rewrite orb_true_r. reflexivity. }
    rewrite (Hguards (λ _, _ ← impl_reset default_version first_block_num' (inr id);
                           modify (λ s, impl_with_head s None))).
    destruct (impl_reset_run default_version first_block_num' (inr id) s)
      as (s1 & Hfs1 & _ & Hthrow & Hok).
    split.
    + intros Hv.
      destruct (Hthrow (Exn bad_variant_access "std::get<genesis_state>"))
        as (s' & Hrun & Hfs' & Hh' & _).
      { rewrite write_to_unfold. cbn [version chain_context]. rewrite Hv. reflexivity. }
      exists (Exn bad_variant_access "std::get<genesis_state>"), s'.
      split; [apply M_bind_Throw; exact Hrun|]. split; [reflexivity|].
      split; [|exact Hh'].
      rewrite Hfs', Hfs1.
      fold bp ip. destruct (decide (ip = bp)) as [->|Hne].
      * rewrite !insert_insert_eq. reflexivity.
      * rewrite (insert_insert_ne _ ip bp) by exact Hne.
        rewrite insert_insert_eq. reflexivity.
    + intros Hv.
      destruct (Hok (le_encode 4 default_version ++ le_encode 4 first_block_num' ++
                     id ++ le_encode 8 npos))
        as (s' & Hrun & Hfs' & Hp & Hg & Hh & Hc & _).
      { rewrite write_to_unfold. cbn [version first_block_num chain_context].
        apply Z.eqb_neq in Hv. rewrite Hv. reflexivity. }
      exists (impl_with_head s' None).
      split; [rewrite (M_bind_Ok _ _ _ tt s') by exact Hrun; reflexivity|].
      split; [|repeat split; assumption].
      change (fs (impl_with_head s' None)) with (fs s'). rewrite Hfs', Hfs1.
      fold bp ip. destruct (decide (ip = bp)) as [->|Hne].
      * rewrite !insert_insert_eq. reflexivity.
      * rewrite (insert_insert_ne _ ip bp) by exact Hne.
        rewrite insert_insert_eq. reflexivity.
Qed.

(** [append_entry] when the index does not end at the slot of the block *)
Lemma append_entry_desync b c s L I :
  genesis_written_to_block_log s = true →
  fs s !! file_path (block_file s) = Some L →
  fs s !! file_path (index_file s) = Some I →
  Zlength' I ≠ 8 * u32 (block_num b - first_block_num (preamble s)) →
  ∃ s', append_entry b c s = (Throw IndexDesync, s') ∧ fs s' = fs s ∧ same_frame s s'.
Proof.
  intros Hg HL HI Hne.
  set (sA := impl_with_files s (fs s) (cf_with_pos (block_file s) (Zlength' L)) (index_file s)).
  set (sB := impl_with_files sA (fs sA) (block_file sA)
               (cf_with_pos (index_file sA) (Zlength' I))).
  exists sB. split; [|split; [reflexivity|unfold same_frame; repeat split; reflexivity]].
  unfold append_entry.
  rewrite (M_bind_Ok _ _ _ true s) by (unfold gets; rewrite Hg; reflexivity).
  rewrite (M_bind_Ok _ _ _ tt s) by reflexivity.
  rewrite (M_bind_Ok _ _ _ tt sA).
  2:{ apply on_block_file_run. apply cfile_seek_end_0. exact HL. }
  rewrite (M_bind_Ok _ _ _ tt sB).
  2:{ apply on_index_file_run. apply (cfile_seek_end_0 (fs s) (index_file s)). exact HI. }
  rewrite (M_bind_Ok _ _ _ (Zlength' I) sB) by apply on_index_file_tellp.
  rewrite (M_bind_Ok _ _ _ (preamble s) sB) by reflexivity.
  apply M_bind_Throw. unfold M_ASSERT, lift.
  apply Z.eqb_neq in Hne. rewrite Hne. reflexivity.
Qed.

(** X14. [reset(genesis_state, first_block, compression)] empties both
    files, writes the preamble of the version in force with first block
    number 1 and the genesis state, and appends the first block.  When the
    number of that block is not 1 the append throws, and the log is left
    with the preamble alone and an empty index; otherwise the log holds the
    preamble and the entry, the index the position of the entry, and the
    block is the head, provided the stride is not 0 and does not divide the
    number of the block, so that the append does not rotate the log. *)
Theorem reset_genesis_spec default_version gs b c s buffer :
  file_path (block_file s) ≠ file_path (index_file s) →
  (if pruned_transaction_version <=? default_version
   then pack b c = Ok buffer
   else block_pack_v0 b = Some buffer ∧ c = cf_compression_none) →
  let bp := file_path (block_file s) in
  let ip := file_path (index_file s) in
  let p := {| version := default_version; first_block_num := 1; chain_context := inl gs |} in
  ∃ bytes,
    write_to p = Ok bytes ∧
    (u32 (block_num b - 1) ≠ 0 →
       ∃ s', reset_genesis default_version gs b c s = (Throw IndexDesync, s') ∧
         fs s' = <[ip := []]> (<[bp := bytes]> (fs s)) ∧
         head s' = head s ∧ genesis_written_to_block_log s' = true) ∧
    (u32 (block_num b - 1) = 0 → stride s ≠ 0 → block_num b mod stride s ≠ 0 →
       ∃ s', reset_genesis default_version gs b c s = (Ok tt, s') ∧
         fs s' = <[ip := le_encode 8 (Zlength' bytes)]>
                   (<[bp := bytes ++ buffer ++ le_encode 8 (Zlength' bytes)]> (fs s)) ∧
         head s' = Some b ∧ preamble s' = p ∧ genesis_written_to_block_log s' = true).
Proof.
  intros Hne Hbuf bp ip p.
  assert (∃ bytes, write_to p = Ok bytes) as [bytes Hbytes].
  { rewrite write_to_unfold. unfold p. cbn [version chain_context].
    destruct (negb (default_version =? initial_version)); eauto. }
  exists bytes. split; [exact Hbytes|].
  destruct (impl_reset_run default_version 1 (inl gs) s) as (s1 & Hfs1 & _ & _ & Hok).
  destruct (Hok bytes Hbytes)
    as (s2 & Hrun & Hfs2 & Hp & Hg & Hh & Hc & Hst & Hd & Hbp & Hip & _).
  assert (fs s2 = <[ip := []]> (<[bp := bytes]> (fs s))) as Hfs.
  { rewrite Hfs2, Hfs1. fold bp ip.
    rewrite (insert_insert_ne _ ip bp) by (intros E; apply Hne; symmetry; exact E).
    rewrite insert_insert_eq. apply insert_insert_ne. exact Hne. }
  assert (fs s2 !! file_path (block_file s2) = Some bytes) as HL.
  { rewrite Hbp, Hfs. fold bp.
    rewrite lookup_insert_ne by (intros E; apply Hne; symmetry; exact E).
    apply lookup_insert_eq. }
  assert (fs s2 !! file_path (index_file s2) = Some []) as HI.
  { rewrite Hip, Hfs. apply lookup_insert_eq. }
  unfold reset_genesis. split.
  - intros Hnum.
    destruct (append_entry_desync b c s2 bytes [] Hg HL HI) as (s' & Happ & Hfs' & Hfr).
    { rewrite Hp. cbn [first_block_num]. unfold Zlength'. cbn [length]. lia. }
    exists s'. split.
    + rewrite (M_bind_Ok _ _ _ tt s2) by exact Hrun.
      apply M_bind_Throw. unfold append. apply M_bind_Throw. exact Happ.
    + destruct Hfr as (_ & Hh' & _ & _ & _ & Hg' & _).
      rewrite Hfs', Hfs, Hh', Hh, Hg', Hg. auto.
  - intros Hnum Hstride Hmod.
    destruct (append_entry_run b c s2 bytes [] buffer)
      as (s' & Happ & Hfs' & Hh' & _ & _ & Hp' & Hst' & Hg' & _).
    { unfold ready_to_append. rewrite Hbp, Hip, Hp. cbn [first_block_num version].
      rewrite Hnum. repeat split; try assumption.
      - rewrite <- Hbp. exact HL.
      - rewrite <- Hip. exact HI. }
    exists s'. split.
    + rewrite (M_bind_Ok _ _ _ tt s2) by exact Hrun.
      rewrite (M_bind_Ok _ _ _ (Zlength' bytes) s'); [reflexivity|].
      unfold append. rewrite (M_bind_Ok _ _ _ (Zlength' bytes) s') by exact Happ.
      rewrite (M_bind_Ok _ _ _ (stride s') s') by reflexivity.
      rewrite Hst', Hst.
      apply Z.eqb_neq in Hstride. rewrite Hstride.
      apply Z.eqb_neq in Hmod. rewrite Hmod. reflexivity.
    + rewrite Hfs', Hbp, Hip, Hfs, Hp'. fold bp ip.
      split; [|auto].
      rewrite (insert_insert_ne _ bp ip) by (intros E; apply Hne; exact E).
      rewrite !insert_insert_eq. reflexivity.
Qed.

End reset_facts.

Section opening_facts.
Context `{CL : chain_layer}.

Lemma on_catalog_run {A} (m : M (file_system * block_log_catalog) A) s r fs' c' :
  m (fs s, catalog s) = (r, (fs', c')) →
  on_catalog m s = (r, impl_with_catalog s fs' c').
Proof. unfold on_catalog, zoom. intros ->. reflexivity. Qed.

Lemma on_file_system_run {A} (m : M file_system A) s r fs' :
  m (fs s) = (r, fs') →
  on_file_system m s = (r, impl_with_files s fs' (block_file s) (index_file s)).
Proof. unfold on_file_system, zoom. intros ->. reflexivity. Qed.

Lemma ensure_file_exists_run (files : file_system) f :
  ∃ files' f', ensure_file_exists (files, f) = (Ok tt, (files', f')) ∧
    file_path f' = file_path f ∧
    files' = match files !! file_path f with Some _ => files | None => <[file_path f := []]> files end.
Proof.
  unfold ensure_file_exists. destruct (files !! file_path f) eqn:E; eauto.
Qed.

Lemma cfile_size_run (files : file_system) f data :
  files !! file_path f = Some data → cfile_size (files, f) = (Ok (Zlength' data), (files, f)).
Proof.
  intros H. unfold cfile_size.
  rewrite (M_bind_Ok _ _ _ data (files, f)) by (unfold cfile_contents; rewrite H; reflexivity).
  reflexivity.
Qed.

Lemma cfile_open_update_run (files : file_system) f data :
  files !! file_path f = Some data →
  cfile_open_update (files, f) = (Ok tt, (files, cf_with_open f true)).
Proof. intros H. unfold cfile_open_update. rewrite H. reflexivity. Qed.

(** the constructor up to the sizes of the two files *)
Lemma block_log_impl_open_start archive_dir' stride' max' segments s fs1 c1
    (k : Z → Z → M block_log_impl unit) :
  catalog_open segments (fs s, catalog s) = (Ok tt, (fs1, c1)) →
  file_path (block_file s) ≠ file_path (index_file s) →
  let bp := file_path (block_file s) in
  let ip := file_path (index_file s) in
  let L := default [] (fs1 !! bp) in
  let I := default [] (fs1 !! ip) in
  ∃ s2,
    (_ ← on_catalog (catalog_open segments);
     dir ← gets data_dir;
     let adir :=
       if bool_decide (archive_dir' = ""%string) then None
       else Some (if is_relative archive_dir' then path_append dir archive_dir'
                  else archive_dir') in
     _ ← modify (λ s, impl_with_settings s adir max' stride');
     _ ← on_block_file ensure_file_exists;
     _ ← on_index_file ensure_file_exists;
     log_size ← on_block_file cfile_size;
     index_size ← on_index_file cfile_size;
     k log_size index_size) s = k (Zlength' L) (Zlength' I) s2 ∧
    fs s2 = <[ip := I]> (<[bp := L]> fs1) ∧
    file_path (block_file s2) = bp ∧ file_path (index_file s2) = ip ∧
    head s2 = head s ∧ preamble s2 = preamble s ∧
    genesis_written_to_block_log s2 = genesis_written_to_block_log s ∧
    data_dir s2 = data_dir s ∧ stride s2 = stride' ∧
    max_retained_files (catalog s2) = max' ∧
    collection (catalog s2) = collection c1 ∧ chain_id (catalog s2) = chain_id c1.
Proof.
  intros Hcat Hne bp ip L I.
  set (sA := impl_with_catalog s fs1 c1).
  set (adir := if bool_decide (archive_dir' = ""%string) then None
               else Some (if is_relative archive_dir' then path_append (data_dir sA) archive_dir'
                          else archive_dir')).
  set (sB := impl_with_settings sA adir max' stride').
  destruct (ensure_file_exists_run (fs sB) (block_file sB)) as (f1 & b1 & Hb & Hbp & Hf1).
  set (sC := impl_with_files sB f1 b1 (index_file sB)).
  destruct (ensure_file_exists_run (fs sC) (index_file sC)) as (f2 & i2 & Hi & Hip & Hf2).
  set (sD := impl_with_files sC f2 (block_file sC) i2).
  change (fs sB) with fs1 in Hf1. change (file_path (block_file sB)) with bp in Hf1, Hbp.
  change (fs sC) with f1 in Hf2. change (file_path (index_file sC)) with ip in Hf2, Hip.
  assert (f1 = <[bp := L]> fs1) as Hf1'.
  { rewrite Hf1. unfold L. destruct (fs1 !! bp) as [l|] eqn:El; cbn [default]; [|reflexivity].
    symmetry. apply insert_id. exact El. }
  assert (f1 !! ip = fs1 !! ip) as Hsame.
  { rewrite Hf1'. apply lookup_insert_ne. exact Hne. }
  assert (f2 = <[ip := I]> (<[bp := L]> fs1)) as Hfs.
  { rewrite Hf2, Hsame, <- Hf1'. unfold I.
    destruct (fs1 !! ip) as [i|] eqn:Ei; cbn [default]; [|reflexivity].
    symmetry. apply insert_id. exact Hsame. }
  assert (f2 !! bp = Some L) as HL.
  { rewrite Hfs, lookup_insert_ne by (intros E; apply Hne; symmetry; exact E).
    apply lookup_insert_eq. }
  assert (f2 !! ip = Some I) as HI by (rewrite Hfs; apply lookup_insert_eq).
  exists sD. split.
  - rewrite (M_bind_Ok _ _ _ tt sA) by (apply on_catalog_run; exact Hcat).
    rewrite (M_bind_Ok _ _ _ (data_dir sA) sA) by reflexivity.
    fold adir.
    rewrite (M_bind_Ok _ _ _ tt sB) by reflexivity.
    rewrite (M_bind_Ok _ _ _ tt sC) by (apply on_block_file_run; exact Hb).
    rewrite (M_bind_Ok _ _ _ tt sD) by (apply on_index_file_run; exact Hi).
    rewrite (M_bind_Ok _ _ _ (Zlength' L) sD).
    2:{ rewrite <- (impl_with_files_eta sD) at 2. apply on_block_file_run.
        apply cfile_size_run. change (fs sD) with f2.
        change (file_path (block_file sD)) with (file_path b1). rewrite Hbp. exact HL. }
    rewrite (M_bind_Ok _ _ _ (Zlength' I) sD); [reflexivity|].
    rewrite <- (impl_with_files_eta sD) at 2. apply on_index_file_run.
    apply cfile_size_run. change (fs sD) with f2.
    change (file_path (index_file sD)) with (file_path i2). rewrite Hip. exact HI.
  - change (fs sD) with f2. change (file_path (block_file sD)) with (file_path b1).
    change (file_path (index_file sD)) with (file_path i2).
    rewrite Hbp, Hip. repeat split; try reflexivity. exact Hfs.
Qed.



Lemma cfile_seek_end_run (files : file_system) f data off :
  files !! file_path f = Some data → 0 ≤ Zlength' data + off →
  cfile_seek_end off (files, f) = (Ok tt, (files, cf_with_pos f (Zlength' data + off))).
Proof.
  intros H Hoff. unfold cfile_seek_end.
  rewrite (M_bind_Ok _ _ _ data (files, f)) by (unfold cfile_contents; rewrite H; reflexivity).
  apply Z.leb_le in Hoff. rewrite Hoff. reflexivity.
Qed.

Lemma read_buffer_Ok n data off v :
  read_buffer n data off = Ok v →
  0 ≤ off ∧ off + Z.of_nat n ≤ Zlength' data ∧
  v = le_decode (take n (drop (Z.to_nat off) data)).
Proof.
  unfold read_buffer. destruct ((0 <=? off) && (off + Z.of_nat n <=? Zlength' data)) eqn:E;
    [|discriminate].
  apply andb_prop in E as [E1 E2]. apply Z.leb_le in E1. apply Z.leb_le in E2.
  intros H. apply Ok_inj in H. auto.
Qed.

(** [read_head] on a log file that ends in the position [pos] *)
Lemma read_head_run s L pos :
  fs s !! file_path (block_file s) = Some L →
  read_buffer 8 L (Zlength' L - 8) = Ok pos →
  (pos = npos → ∃ s', read_head s = (Ok tt, s') ∧ fs s' = fs s ∧ head s' = head s ∧
                      same_frame s s') ∧
  (pos ≠ npos → ∀ b ds,
     read_block {| ds_buf := L; ds_pos := pos |} (version (preamble s)) 0 = Ok (b, ds) →
     ∃ s', read_head s = (Ok tt, s') ∧ fs s' = fs s ∧ head s' = Some b ∧
           preamble s' = preamble s ∧ catalog s' = catalog s ∧ stride s' = stride s ∧
           genesis_written_to_block_log s' = genesis_written_to_block_log s ∧
           file_path (block_file s') = file_path (block_file s) ∧
           file_path (index_file s') = file_path (index_file s)).
Proof.
  intros HL Hlast. destruct (read_buffer_Ok _ _ _ _ Hlast) as (H0 & H8 & Hv).
  set (sA := impl_with_files s (fs s) (cf_with_pos (block_file s) (Zlength' L + -8))
               (index_file s)).
  set (sB := impl_with_files sA (fs sA)
               (cf_with_pos (block_file sA) (cf_pos (block_file sA) + Z.of_nat 8))
               (index_file sA)).
  assert (∀ k : list byte → M block_log_impl unit,
            (_ ← on_block_file (cfile_seek_end (-8)); bs ← on_block_file (cfile_read 8); k bs) s
            = k (take 8 (drop (Z.to_nat (Zlength' L - 8)) L)) sB) as Hstart.
  { intros k.
    rewrite (M_bind_Ok _ _ _ tt sA).
    2:{ apply on_block_file_run. apply cfile_seek_end_run; [exact HL|lia]. }
    rewrite (M_bind_Ok _ _ _ (take 8 (drop (Z.to_nat (Zlength' L - 8)) L)) sB); [reflexivity|].
    apply on_block_file_run.
    apply (cfile_read_run (fs s) (cf_with_pos (block_file s) (Zlength' L + -8)) L 8 HL);
      cbn [cf_pos cf_with_pos]; lia. }
  unfold read_head. split.
  - intros Hn. exists sB. rewrite Hstart, <- Hv, Hn.
    change (negb (npos =? npos)) with false. cbv iota.
    split; [reflexivity|]. split; [reflexivity|]. split; [reflexivity|].
    unfold same_frame. repeat split; reflexivity.
  - intros Hn b ds Hread.
    set (sC := impl_with_files sB (fs sB) (cf_with_pos (block_file sB) pos) (index_file sB)).
    set (sD := impl_with_files sC (fs sC) (cf_with_pos (block_file sC) (ds_pos ds))
                 (index_file sC)).
    exists (impl_with_head sD (Some b)). rewrite Hstart, <- Hv.
    apply Z.eqb_neq in Hn. rewrite Hn. cbn [negb].
    rewrite (M_bind_Ok _ _ _ tt sC) by (apply on_block_file_run; reflexivity).
    rewrite (M_bind_Ok _ _ _ (preamble s) sC) by reflexivity.
    rewrite (M_bind_Ok _ _ _ b sD).
    2:{ apply on_block_file_run.
        apply (cfile_stream_run _ (fs s) (cf_with_pos (block_file sB) pos) L b ds);
          [exact HL|exact Hread]. }
    repeat split; reflexivity.
Qed.

Lemma block_log_data_open_Ok (files : file_system) p l :
  block_log_data_open files p = Ok l →
  files !! p = Some (log_file l) ∧ Zlength' (log_file l) ≠ 0 ∧
  ∃ ds, read_from {| ds_buf := log_file l; ds_pos := 0 |} = Ok (log_preamble l, ds) ∧
        first_block_pos l = ds_pos ds.
Proof.
  unfold block_log_data_open, mapped_file_open. intros H.
  destruct (files !! p) as [[|x data]|] eqn:E; try discriminate. cbn [mbind res_bind] in H.
  destruct (read_from {| ds_buf := x :: data; ds_pos := 0 |}) as [[pr ds]| |] eqn:Er;
    try discriminate.
  cbn [mbind res_bind] in H. apply Ok_inj in H. subst l. cbn [log_file log_preamble first_block_pos].
  split; [reflexivity|]. split; [unfold Zlength'; cbn; lia|]. exists ds. auto.
Qed.

Lemma block_log_index_open_Ok (files : file_system) p i :
  block_log_index_open files p = Ok i →
  files !! p = Some (index_file_data i) ∧ Zlength' (index_file_data i) ≠ 0 ∧
  Zlength' (index_file_data i) mod 8 = 0.
Proof.
  unfold block_log_index_open, mapped_file_open. intros H.
  destruct (files !! p) as [[|x data]|] eqn:E; try discriminate. cbn [mbind res_bind] in H.
  destruct (Zlength' (x :: data) mod 8 =? 0) eqn:Em; [|discriminate].
  cbn [EOS_ASSERT mbind res_bind] in H. apply Ok_inj in H. subst i. cbn [index_file_data].
  apply Z.eqb_eq in Em. split; [reflexivity|]. split; [unfold Zlength'; cbn; lia|exact Em].
Qed.




(** X18. The constructor on a log that holds a preamble of version 2
    to 4 and nothing else, as [reset] with a chain id leaves it, the index
    missing or empty: it succeeds; the log is not changed and the index is
    empty; the preamble is the one written and the log counts as reset;
    no head is set, for the log ends in the separator, which is npos. *)
Theorem block_log_impl_open_after_reset archive_dir' stride' max_retained_files' segments
    s fs1 c1 p bytes :
  let bp := file_path (block_file s) in
  let ip := file_path (index_file s) in
  catalog_open segments (fs s, catalog s) = (Ok tt, (fs1, c1)) →
  bp ≠ ip →
  write_to p = Ok bytes →
  2 ≤ version p ≤ 4 →
  0 ≤ first_block_num p < 2 ^ 32 →
  (∀ g, chain_context p = inl g →
     contains_genesis_state (version p) (first_block_num p) = true ∧
     ∀ tail, genesis_unpack (genesis_pack g ++ tail) = Some (g, length (genesis_pack g))) →
  (∀ id, chain_context p = inr id →
     contains_chain_id (version p) (first_block_num p) = true ∧
     length id = sizeof_chain_id) →
  fs1 !! bp = Some bytes →
  fs1 !! ip = None ∨ fs1 !! ip = Some [] →
  chain_id_empty (chain_id c1) = true ∨ chain_id c1 = preamble_chain_id p →
  ∃ s',
    block_log_impl_open archive_dir' stride' max_retained_files' segments s = (Ok tt, s') ∧
    fs s' = <[ip := []]> fs1 ∧ head s' = head s ∧ preamble s' = p ∧
    genesis_written_to_block_log s' = true.
Proof.
  intros bp ip Hcat Hne Hw Hv Hf Hgen Hid HL Hidx Hchain.
  assert (version p ≠ initial_version) as Hv1 by (unfold initial_version; lia).
  pose proof (read_from_after_write_to p bytes [] Hw ltac:(lia) Hf
                ltac:(intros E; destruct (Hv1 E)) Hgen Hid) as Hread.
  rewrite app_nil_r in Hread.
  set (log_data := {| log_file := bytes; log_preamble := p;
                      first_block_pos := Zlength' bytes |}).
  assert (∃ pre, bytes = pre ++ le_encode 8 npos) as [pre Hpre].
  { rewrite write_to_unfold in Hw. apply Z.eqb_neq in Hv1. rewrite Hv1 in Hw. cbn [negb] in Hw.
    apply Ok_inj in Hw. rewrite <- Hw. eexists. rewrite !app_assoc. reflexivity. }
  assert (Zlength' bytes ≠ 0) as HLne.
  { rewrite Hpre, Zlength'_app, Zlength'_le_encode. pose proof (Zlength'_nonneg pre). lia. }
  assert (∀ files : file_system, files !! bp = Some bytes →
            block_log_data_open files bp = Ok log_data) as Hopen.
  { intros files Hfile. unfold block_log_data_open, mapped_file_open. rewrite Hfile.
    destruct bytes as [|x data]; [exfalso; apply HLne; reflexivity|].
    cbn [mbind res_bind]. rewrite Hread. reflexivity. }
  assert (default [] (fs1 !! ip) = []) as HI by (destruct Hidx as [-> | ->]; reflexivity).
  unfold block_log_impl_open.
  edestruct (block_log_impl_open_start archive_dir' stride' max_retained_files' segments
               s fs1 c1) as (s2 & Hrun & Hfs & Hbp & Hip & Hh & Hp & Hg & _ & Hst & Hm & Hc & Hci);
    [exact Hcat|exact Hne|].
  fold bp ip in Hrun, Hfs, Hbp, Hip. rewrite HL, HI in Hrun, Hfs.
  cbn [from_option id] in Hrun, Hfs.
  rewrite Hrun. clear Hrun.
  rewrite (insert_id fs1 bp bytes HL) in Hfs.
  assert (fs s2 !! bp = Some bytes) as HL2.
  { rewrite Hfs, lookup_insert_ne; [exact HL|]. intros E. apply Hne. symmetry. exact E. }
  rewrite (M_bind_Ok _ _ _ bp s2) by (unfold gets; rewrite Hbp; reflexivity).
  rewrite (M_bind_Ok _ _ _ ip s2) by (unfold gets; rewrite Hip; reflexivity).
  apply Z.eqb_neq in HLne. rewrite HLne. change (Zlength' (@nil byte) =? 0) with true.
  cbn [negb].
  set (s3 := impl_with_preamble s2 p).
  set (s4 := impl_with_genesis_written s3).
  rewrite (M_bind_Ok _ _ _ tt s4).
  2:{ rewrite (M_bind_Ok _ _ _ (fs s2) s2) by reflexivity.
      rewrite (M_bind_Ok _ _ _ log_data s2) by (unfold lift; rewrite (Hopen _ HL2); reflexivity).
      rewrite (M_bind_Ok _ _ _ tt s3) by reflexivity.
      rewrite (M_bind_Ok _ _ _ (catalog s2) s3) by reflexivity.
      rewrite (M_bind_Ok _ _ _ tt s3).
      2:{ unfold M_ASSERT, lift. rewrite Hci.
          destruct Hchain as [-> | ->]; [reflexivity|].
          rewrite bool_decide_eq_true_2 by reflexivity. rewrite orb_true_r. reflexivity. }
      rewrite (M_bind_Ok _ _ _ tt s4) by reflexivity.
      rewrite <- (impl_with_files_eta s4) at 2.
      apply on_file_system_run. change (fs s4) with (fs s2).
      unfold construct_index. rewrite (Hopen _ HL2).
      unfold log_num_blocks, log_size, log_data. cbn [first_block_pos log_file].
      rewrite Z.eqb_refl. reflexivity. }
  set (s5 := impl_with_files s4 (fs s4) (cf_with_open (block_file s4) true) (index_file s4)).
  rewrite (M_bind_Ok _ _ _ tt s5).
  2:{ apply on_block_file_run. apply (cfile_open_update_run _ _ bytes).
      change (fs s4) with (fs s2).
      change (file_path (block_file s4)) with (file_path (block_file s2)).
      rewrite Hbp. exact HL2. }
  set (s6 := impl_with_files s5 (fs s5) (block_file s5) (cf_with_open (index_file s5) true)).
  rewrite (M_bind_Ok _ _ _ tt s6).
  2:{ apply on_index_file_run. apply (cfile_open_update_run _ _ []).
      change (fs s5) with (fs s2).
      change (file_path (index_file s5)) with (file_path (index_file s2)).
      rewrite Hip, Hfs. apply lookup_insert_eq. }
  destruct (read_head_run s6 bytes npos) as [Hnone _].
  { change (fs s6) with (fs s2).
    change (file_path (block_file s6)) with (file_path (block_file s2)).
    rewrite Hbp. exact HL2. }
  { rewrite Hpre. apply read_buffer_last. unfold npos. lia. }
  destruct (Hnone eq_refl) as (s' & Hrh & Hfs' & Hh' & Hframe).
  destruct Hframe as (_ & _ & _ & Hp' & _ & Hg' & _).
  exists s'. split; [exact Hrh|].
  rewrite Hfs', Hh', Hp', Hg'. change (fs s6) with (fs s2). change (head s6) with (head s2).
  rewrite Hfs, Hh. repeat split; reflexivity.
Qed.

(** X1. A preamble that [write_to] wrote is read back by [read_from],
    which stops right behind it: for a supported version, a first block
    number of 32 bits (1 for version 1, which stores none), the chain
    context the version and the first block number call for, a chain id of
    32 bytes and a genesis state that the chain layer decodes from its own
    encoding.  So a blocks.log that starts with it opens with that
    preamble and with the first entry expected right behind it, has no
    blocks when nothing follows, and [extract_chain_id] returns the chain
    id of the preamble. *)
Theorem block_log_data_open_written (files : file_system) dir p bytes rest :
  write_to p = Ok bytes →
  1 ≤ version p ≤ 4 →
  0 ≤ first_block_num p < 2 ^ 32 →
  (version p = initial_version → first_block_num p = 1) →
  (∀ g, chain_context p = inl g →
     contains_genesis_state (version p) (first_block_num p) = true ∧
     ∀ tail, genesis_unpack (genesis_pack g ++ tail) = Some (g, length (genesis_pack g))) →
  (∀ id, chain_context p = inr id →
     contains_chain_id (version p) (first_block_num p) = true ∧
     length id = sizeof_chain_id) →
  files !! path_append dir "blocks.log" = Some (bytes ++ rest) →
  let l := {| log_file := bytes ++ rest; log_preamble := p;
              first_block_pos := Zlength' bytes |} in
  read_from {| ds_buf := bytes ++ rest; ds_pos := 0 |}
  = Ok (p, {| ds_buf := bytes ++ rest; ds_pos := Zlength' bytes |}) ∧
  block_log_data_open files (path_append dir "blocks.log") = Ok l ∧
  (rest = [] → log_num_blocks l = Ok 0) ∧
  extract_chain_id files dir = Ok (preamble_chain_id p).
Proof.
  intros Hw Hv Hf H1 Hg Hid Hfile l.
  pose proof (read_from_after_write_to p bytes rest Hw Hv Hf H1 Hg Hid) as Hread.
  assert (block_log_data_open files (path_append dir "blocks.log") = Ok l) as Hopen.
  { unfold block_log_data_open, mapped_file_open. rewrite Hfile.
    destruct (bytes ++ rest) as [|x data] eqn:E.
    - exfalso. apply app_eq_nil in E as [E _]. subst bytes.
      rewrite write_to_unfold in Hw. destruct (negb (version p =? initial_version)).
      + apply Ok_inj in Hw. apply (f_equal length) in Hw.
        rewrite length_app, length_le_encode in Hw. cbn in Hw. lia.
      + destruct (chain_context p); [|discriminate]. apply Ok_inj in Hw.
        apply (f_equal length) in Hw. rewrite length_app, length_le_encode in Hw.
        cbn in Hw. lia.
    - cbn [mbind res_bind]. rewrite Hread. reflexivity. }
  split; [exact Hread|]. split; [exact Hopen|]. split.
  - intros ->. unfold log_num_blocks, log_size, l. cbn [first_block_pos log_file].
    rewrite app_nil_r, Z.eqb_refl. reflexivity.
  - unfold extract_chain_id. rewrite Hopen. reflexivity.
Qed.

End opening_facts.

(** ** Trimming the front *)

Lemma list_ascii_of_string_app (a b : string) :
  String.list_ascii_of_string (a +:+ b) = String.list_ascii_of_string a ++ String.list_ascii_of_string b.
Proof. induction a as [|c a IH]; [reflexivity|]. simpl. f_equal. exact IH. Qed.

Lemma list_ascii_of_string_inj (a b : string) :
  String.list_ascii_of_string a = String.list_ascii_of_string b → a = b.
Proof.
  intros H. rewrite <- (String.string_of_list_ascii_of_string a), <- (String.string_of_list_ascii_of_string b).
  rewrite H. reflexivity.
Qed.

(** two paths with the same last component lie in the same directory *)
Lemma path_append_inj d1 d2 name : path_append d1 name = path_append d2 name → d1 = d2.
Proof.
  unfold path_append. intros H. apply (f_equal String.list_ascii_of_string) in H.
  rewrite !list_ascii_of_string_app in H.
  apply app_inj_2 in H; [|reflexivity]. apply list_ascii_of_string_inj, H.
Qed.

(** two paths whose last components end differently are different *)
Lemma path_append_neq d1 d2 (a1 a2 s1 s2 : string) :
  String.length s1 = String.length s2 → s1 ≠ s2 →
  path_append d1 (a1 +:+ s1) ≠ path_append d2 (a2 +:+ s2).
Proof.
  unfold path_append. intros Hlen Hne H. apply (f_equal String.list_ascii_of_string) in H.
  rewrite !list_ascii_of_string_app in H. rewrite !app_assoc in H.
  apply app_inj_2 in H as [_ H].
  - apply Hne, list_ascii_of_string_inj, H.
  - clear H Hne. revert s2 Hlen. induction s1 as [|c s1 IH]; intros [|c2 s2]; cbn; try discriminate.
    + reflexivity.
    + intros [= H]. f_equal. apply IH, H.
Qed.

Lemma M_bind_inv {S A B} (m : M S A) (f : A → M S B) s r s' :
  (m ≫= f) s = (r, s') →
  (∃ a s1, m s = (Ok a, s1) ∧ f a s1 = (r, s')) ∨
  (∃ e, m s = (Throw e, s') ∧ r = Throw e) ∨
  (m s = (Undefined, s') ∧ r = Undefined).
Proof.
  unfold mbind, M_bind. destruct (m s) as [[a|e|] s1].
  - intros H. left. eauto.
  - intros [= <- <-]. right. left. eauto.
  - intros [= <- <-]. right. right. auto.
Qed.

(** *** Entries and their positions *)

Lemma entries_size_nonneg payloads : 0 ≤ entries_size payloads.
Proof.
  induction payloads as [|e r IH]; cbn [entries_size foldr]; [lia|].
  fold (entries_size r). pose proof (Zlength'_nonneg e). lia.
Qed.

Lemma entries_size_app A B : entries_size (A ++ B) = entries_size A + entries_size B.
Proof.
  induction A as [|e r IH]; cbn [entries_size foldr app]; [reflexivity|].
  fold (entries_size (r ++ B)) (entries_size r). rewrite IH. lia.
Qed.

Lemma Zlength'_log_of_entries pos payloads :
  Zlength' (log_of_entries pos payloads) = entries_size payloads.
Proof.
  revert pos. induction payloads as [|e r IH]; intros pos; cbn [log_of_entries entries_size foldr];
    [reflexivity|].
  fold (entries_size r). rewrite !Zlength'_app, Zlength'_le_encode, IH. lia.
Qed.

Lemma log_of_entries_app pos A B :
  log_of_entries pos (A ++ B)
  = log_of_entries pos A ++ log_of_entries (pos + entries_size A) B.
Proof.
  revert pos. induction A as [|e r IH]; intros pos; cbn [log_of_entries entries_size foldr app].
  - rewrite Z.add_0_r. reflexivity.
  - fold (entries_size r). rewrite IH, <- !app_assoc.
    replace (pos + (Zlength' e + 8 + entries_size r))
      with (pos + Zlength' e + 8 + entries_size r) by lia. reflexivity.
Qed.

Lemma positions_of_app pos A B :
  positions_of pos (A ++ B) = positions_of pos A ++ positions_of (pos + entries_size A) B.
Proof.
  revert pos. induction A as [|e r IH]; intros pos; cbn [positions_of entries_size foldr app].
  - rewrite Z.add_0_r. reflexivity.
  - fold (entries_size r). rewrite IH.
    replace (pos + (Zlength' e + 8 + entries_size r))
      with (pos + Zlength' e + 8 + entries_size r) by lia. reflexivity.
Qed.

Lemma length_positions_of pos payloads : length (positions_of pos payloads) = length payloads.
Proof.
  revert pos. induction payloads as [|e r IH]; intros pos; cbn [positions_of length];
    [reflexivity|]. rewrite IH. reflexivity.
Qed.

Lemma index_of_positions_app ps qs :
  index_of_positions (ps ++ qs) = index_of_positions ps ++ index_of_positions qs.
Proof. unfold index_of_positions. rewrite map_app, concat_app. reflexivity. Qed.

Lemma Zlength'_index_of_positions ps :
  Zlength' (index_of_positions ps) = 8 * Z.of_nat (length ps).
Proof.
  induction ps as [|p r IH]; [reflexivity|].
  change (index_of_positions (p :: r)) with (le_encode 8 p ++ index_of_positions r).
  rewrite Zlength'_app, Zlength'_le_encode, IH. cbn [length]. lia.
Qed.

(** 8 bytes read where they were put *)
Lemma read_buffer_middle pre z post :
  0 ≤ z < 2 ^ 64 → read_buffer 8 (pre ++ le_encode 8 z ++ post) (Zlength' pre) = Ok z.
Proof.
  intros Hz. rewrite app_assoc. apply read_buffer_app.
  replace (Zlength' pre) with (Zlength' (pre ++ le_encode 8 z) - 8)
    by (rewrite Zlength'_app, Zlength'_le_encode; lia).
  apply read_buffer_last, Hz.
Qed.

(** the slot [k] of an index holds the position [k] *)
Lemma nth_block_position_of_positions ps qs p :
  0 ≤ p < 2 ^ 64 →
  nth_block_position {| index_file_data := index_of_positions (ps ++ p :: qs) |}
    (Z.of_nat (length ps)) = Ok p.
Proof.
  intros Hp. unfold nth_block_position. cbn [index_file_data].
  rewrite index_of_positions_app.
  change (index_of_positions (p :: qs)) with (le_encode 8 p ++ index_of_positions qs).
  rewrite <- Zlength'_index_of_positions. apply read_buffer_middle, Hp.
Qed.

Lemma u64_shift fk s : 0 ≤ 48 + s < 2 ^ 64 → u64 (fk + s - u64 (fk - 48)) = 48 + s.
Proof.
  intros H. unfold u64. rewrite Zminus_mod_idemp_r.
  replace (fk + s - (fk - 48)) with (48 + s) by lia. apply Z.mod_small, H.
Qed.

(** the loop of [trim_blocklog_front] on a new log that holds the entries
    [A] with the positions they had in the old log, where the first of
    them stood at [fk]: the positions are rewritten for a log whose first
    entry stands at 48, and written to the index *)
Lemma trim_front_loop_entries pre fk :
  Zlength' pre = 48 → 0 ≤ fk →
  ∀ A B X Y fuel,
    (length A < fuel)%nat → length X = (8 * length A)%nat →
    fk + entries_size A < 2 ^ 63 →
    trim_front_loop fuel (u64 (fk - 48))
      {| it_data := pre ++ log_of_entries fk A ++ B; begin_position := 40;
         current_position := 48 + entries_size A - 8 |}
      {| current_offset := 8 * Z.of_nat (length A); index_mapping := X ++ Y |}
    = (Ok tt,
       ({| it_data := pre ++ log_of_entries 48 A ++ B; begin_position := 40;
           current_position := 40 |},
        {| current_offset := 0;
           index_mapping := index_of_positions (positions_of 48 A) ++ Y |})).
Proof.
  intros Hpre Hfk A. induction A as [|a A' IH] using rev_ind; intros B X Y fuel Hfuel HX Hbound.
  - destruct fuel as [|fuel]; [cbn in Hfuel; lia|].
    destruct X; [|discriminate]. reflexivity.
  - destruct fuel as [|fuel]; [cbn in Hfuel; lia|].
    rewrite length_app in Hfuel, HX. cbn [length] in Hfuel, HX.
    rewrite entries_size_app in Hbound. cbn [entries_size foldr] in Hbound.
    pose proof (entries_size_nonneg A') as HA'. pose proof (Zlength'_nonneg a) as Ha.
    set (v := fk + entries_size A').
    set (new_pos := 48 + entries_size A').
    set (cur := 48 + entries_size A' + Zlength' a).
    assert (log_of_entries fk (A' ++ [a]) = log_of_entries fk A' ++ a ++ le_encode 8 v) as Hlog.
    { rewrite log_of_entries_app. cbn [log_of_entries]. rewrite app_nil_r. reflexivity. }
    assert (log_of_entries 48 (A' ++ [a]) = log_of_entries 48 A' ++ a ++ le_encode 8 new_pos)
      as Hlog'.
    { rewrite log_of_entries_app. cbn [log_of_entries]. rewrite app_nil_r. reflexivity. }
    assert (positions_of 48 (A' ++ [a]) = positions_of 48 A' ++ [new_pos]) as Hpos.
    { rewrite positions_of_app. reflexivity. }
    rewrite Hlog, Hlog', Hpos, entries_size_app, length_app. cbn [entries_size foldr length].
    replace (48 + (entries_size A' + (Zlength' a + 8 + 0)) - 8) with cur by (unfold cur; lia).
    set (P := pre ++ log_of_entries fk A' ++ a).
    assert (Zlength' P = cur) as HP.
    { unfold P, cur. rewrite !Zlength'_app, Zlength'_log_of_entries. lia. }
    replace (pre ++ (log_of_entries fk A' ++ a ++ le_encode 8 v) ++ B)
      with (P ++ le_encode 8 v ++ B) by (unfold P; rewrite <- !app_assoc; reflexivity).
    set (X' := take (8 * length A') X). set (x8 := drop (8 * length A') X).
    assert (X = X' ++ x8) as HXs by (unfold X', x8; rewrite take_drop; reflexivity).
    assert (length X' = (8 * length A')%nat) as HX' by (unfold X'; rewrite length_take; lia).
    assert (length x8 = 8%nat) as Hx8 by (unfold x8; rewrite length_drop; lia).
    cbn [trim_front_loop].
    assert (it_get_value {| it_data := P ++ le_encode 8 v ++ B; begin_position := 40;
                            current_position := cur |} = Ok v) as ->.
    { unfold it_get_value. cbn [current_position begin_position it_data].
      assert ((cur <=? 40) = false) as -> by (apply Z.leb_gt; unfold cur; lia).
      rewrite <- HP. apply read_buffer_middle. unfold v. lia. }
    assert ((v =? npos) = false) as -> by (apply Z.eqb_neq; unfold v, npos; lia).
    assert (u64 (v - u64 (fk - 48)) = new_pos) as ->.
    { unfold v, new_pos. apply u64_shift. lia. }
    assert (index_writer_write_checked
              {| current_offset := 8 * Z.of_nat (length A' + 1); index_mapping := X ++ Y |} new_pos
            = Ok {| current_offset := 8 * Z.of_nat (length A');
                    index_mapping := X' ++ le_encode 8 new_pos ++ Y |}) as ->.
    { unfold index_writer_write_checked, index_writer_write.
      cbn [current_offset index_mapping].
      assert ((0 <=? 8 * Z.of_nat (length A' + 1) - 8) = true) as -> by (apply Z.leb_le; lia).
      assert ((8 * Z.of_nat (length A' + 1) <=? Zlength' (X ++ Y)) = true) as ->.
      { apply Z.leb_le. rewrite Zlength'_app. pose proof (Zlength'_nonneg Y).
        unfold Zlength' at 1. lia. }
      cbn [andb]. f_equal. f_equal; [lia|].
      replace (8 * Z.of_nat (length A' + 1) - 8) with (Zlength' X') by (unfold Zlength'; lia).
      rewrite HXs, <- app_assoc. apply write_at_middle. rewrite Hx8, length_le_encode.
      reflexivity. }
    assert (it_set_value {| it_data := P ++ le_encode 8 v ++ B; begin_position := 40;
                            current_position := cur |} new_pos
            = Ok {| it_data := P ++ le_encode 8 new_pos ++ B; begin_position := 40;
                    current_position := cur |}) as ->.
    { unfold it_set_value. cbn [current_position begin_position it_data].
      assert ((0 <=? cur) = true) as -> by (apply Z.leb_le; unfold cur; lia).
      assert ((cur + 8 <=? Zlength' (P ++ le_encode 8 v ++ B)) = true) as ->.
      { apply Z.leb_le. rewrite !Zlength'_app, Zlength'_le_encode.
        pose proof (Zlength'_nonneg B). lia. }
      cbn [andb]. f_equal. f_equal. rewrite <- HP. apply write_at_middle.
      rewrite !length_le_encode. reflexivity. }
    assert (it_next {| it_data := P ++ le_encode 8 new_pos ++ B; begin_position := 40;
                       current_position := cur |}
            = Ok {| it_data := P ++ le_encode 8 new_pos ++ B; begin_position := 40;
                    current_position := 48 + entries_size A' - 8 |}) as ->.
    { unfold it_next. cbn [current_position begin_position it_data].
      assert ((40 <? cur) = true) as -> by (apply Z.ltb_lt; unfold cur; lia).
      assert ((cur <? Zlength' (P ++ le_encode 8 new_pos ++ B)) = true) as ->.
      { apply Z.ltb_lt. rewrite !Zlength'_app, Zlength'_le_encode.
        pose proof (Zlength'_nonneg B). lia. }
      cbn [andb EOS_ASSERT mbind res_bind].
      rewrite <- HP at 1. rewrite read_buffer_middle by (unfold new_pos; lia).
      cbn [mbind res_bind]. do 2 f_equal. unfold new_pos, u64. apply Z.mod_small. lia. }
    unfold P. rewrite <- !app_assoc.
    rewrite (IH (a ++ le_encode 8 new_pos ++ B) X' (le_encode 8 new_pos ++ Y) fuel); [|lia|exact HX'|lia].
    rewrite index_of_positions_app. rewrite <- !app_assoc.
    change (index_of_positions [new_pos]) with (le_encode 8 new_pos ++ []).
    rewrite <- !app_assoc. reflexivity.
Qed.

(** a chunk written to a mapping that is still zero from the position of
    the stream on *)
Lemma mapped_write_zeros written chunk m :
  (length chunk ≤ m)%nat →
  mapped_write chunk (written ++ zeros m, Zlength' written)
  = (Ok tt, ((written ++ chunk) ++ zeros (m - length chunk), Zlength' (written ++ chunk))).
Proof.
  intros H. unfold mapped_write.
  assert ((Zlength' written + Zlength' chunk <=? Zlength' (written ++ zeros m)) = true) as ->.
  { apply Z.leb_le. rewrite Zlength'_app. unfold Zlength'. rewrite length_zeros. lia. }
  replace m with (length chunk + (m - length chunk))%nat at 1 by lia.
  rewrite zeros_add, write_at_middle by (rewrite length_zeros; reflexivity).
  rewrite Zlength'_app, <- app_assoc. reflexivity.
Qed.

(** [write_to] on a mapping that is all zero and long enough puts there
    the bytes [write_to] hands to a stream *)
Lemma write_to_mapped_zeros `{CL : chain_layer} p bytes m :
  write_to p = Ok bytes → (length bytes ≤ m)%nat →
  write_to_mapped p (zeros m, 0)
  = (Ok tt, (bytes ++ zeros (m - length bytes), Zlength' bytes)).
Proof.
  intros Hw Hm. rewrite write_to_unfold in Hw. unfold write_to_mapped.
  pose proof (length_le_encode 4 (version p)) as L1.
  pose proof (length_le_encode 4 (first_block_num p)) as L2.
  pose proof (length_le_encode 8 npos) as L3.
  assert (mapped_write (le_encode 4 (version p)) (zeros m, 0)
          = (Ok tt, (le_encode 4 (version p) ++ zeros (m - 4),
                     Zlength' (le_encode 4 (version p))))) as H1.
  { pose proof (mapped_write_zeros [] (le_encode 4 (version p)) m) as H0.
    rewrite L1 in H0. apply H0.
    destruct (negb (version p =? initial_version)); [|destruct (chain_context p); [|discriminate]];
      apply Ok_inj in Hw; subst bytes; rewrite !length_app, L1 in Hm; lia. }
  rewrite (M_bind_Ok _ _ _ tt _ H1). clear H1.
  destruct (negb (version p =? initial_version)).
  - apply Ok_inj in Hw. subst bytes. rewrite !length_app, L1, L2, L3 in Hm.
    set (c := match chain_context p with inr id => id | inl state => genesis_pack state end) in *.
    rewrite (M_bind_Ok _ _ _ tt _
               (mapped_write_zeros (le_encode 4 (version p)) (le_encode 4 (first_block_num p))
                  (m - 4) ltac:(rewrite L2; lia))).
    rewrite (M_bind_Ok _ _ _ tt _
               (mapped_write_zeros (le_encode 4 (version p) ++ le_encode 4 (first_block_num p)) c
                  (m - 4 - length (le_encode 4 (first_block_num p))) ltac:(rewrite L2; lia))).
    rewrite mapped_write_zeros by (rewrite L2, L3; lia).
    rewrite <- !app_assoc, !length_app, L1, L2, L3.
    replace (m - 4 - 4 - length c - 8)%nat with (m - (4 + (4 + (length c + 8))))%nat by lia.
    reflexivity.
  - destruct (chain_context p) as [g|id]; [|discriminate].
    apply Ok_inj in Hw. subst bytes. rewrite length_app, L1 in Hm.
    rewrite mapped_write_zeros by lia.
    rewrite !length_app, L1.
    replace (m - 4 - length (genesis_pack g))%nat with (m - (4 + length (genesis_pack g)))%nat
      by lia.
    reflexivity.
Qed.

Lemma last_block_num_range `{CL : chain_layer} l last :
  last_block_num l = Ok last → 0 ≤ last < 2 ^ 32.
Proof.
  unfold last_block_num. intros H. apply res_bind_inv_Ok in H as (pos & _ & H).
  unfold block_num_at in H. apply res_bind_inv_Ok in H as (_ & _ & H).
  apply res_bind_inv_Ok in H as (prev & _ & H). apply Ok_inj in H. subst last.
  unfold u32. apply Z.mod_pos_bound. lia.
Qed.

Lemma u32_to_int32 z : u32 (to_int32 z) = u32 z.
Proof.
  unfold to_int32. cbv zeta. destruct (u32 z <? 2 ^ 31).
  - unfold u32. apply Z.mod_mod. lia.
  - unfold u32. rewrite Zminus_mod_idemp_l.
    replace (z - 2 ^ 32) with (z + (-1) * 2 ^ 32) by lia. apply Z.mod_add. lia.
Qed.

Lemma block_log_index_open_run (files : file_system) p I :
  files !! p = Some I → Zlength' I ≠ 0 → Zlength' I mod 8 = 0 →
  block_log_index_open files p = Ok {| index_file_data := I |}.
Proof.
  intros HI Hne Hm. unfold block_log_index_open, mapped_file_open. rewrite HI.
  destruct I as [|b data]; [destruct (Hne eq_refl)|]. cbn [mbind res_bind].
  apply Z.eqb_eq in Hm. rewrite Hm. reflexivity.
Qed.

(** the names of the files [trim_blocklog_front] works on, in any two
    directories, are different paths *)
Ltac path_name_split n :=
  lazymatch n with
  | "blocks.log"%string => constr:(("blo"%string, "cks.log"%string))
  | "blocks.index"%string => constr:(("block"%string, "s.index"%string))
  | "old.log"%string => constr:((""%string, "old.log"%string))
  | "old.index"%string => constr:(("ol"%string, "d.index"%string))
  end.

Ltac path_neq Hd :=
  lazymatch goal with
  | |- path_append ?d1 ?n ≠ path_append ?d2 ?n =>
      let E := fresh in
      intros E; apply path_append_inj in E;
      first [exact (Hd E) | exact (Hd (eq_sym E))]
  | |- path_append ?d1 ?n1 ≠ path_append ?d2 ?n2 =>
      let s1 := path_name_split n1 in
      let s2 := path_name_split n2 in
      lazymatch s1 with
      | (?a1, ?b1) =>
          lazymatch s2 with
          | (?a2, ?b2) =>
              exact (path_append_neq d1 d2 a1 a2 b1 b2 eq_refl ltac:(discriminate))
          end
      end
  end.

Section trim_front_facts.
Context `{CL : chain_layer}.

Lemma block_log_archive_open_Ok (files : file_system) dir a :
  block_log_archive_open files dir = Ok a →
  block_file_name a = path_append dir "blocks.log" ∧
  index_file_name a = path_append dir "blocks.index" ∧
  block_log_data_open files (path_append dir "blocks.log") = Ok (log_data a) ∧
  block_log_index_open files (path_append dir "blocks.index") = Ok (log_index a) ∧
  log_num_blocks (log_data a) = Ok (u32 (index_num_blocks (log_index a))).
Proof.
  unfold block_log_archive_open. intros H.
  destruct (block_log_data_open files (path_append dir "blocks.log")) as [l| |]; try discriminate.
  cbn [mbind res_bind] in H.
  destruct (block_log_index_open files (path_append dir "blocks.index")) as [i| |];
    try discriminate.
  cbn [mbind res_bind] in H.
  destruct (log_num_blocks l) as [n| |] eqn:En; try discriminate. cbn [mbind res_bind] in H.
  destruct (n =? u32 (index_num_blocks i)) eqn:E; [|discriminate].
  cbn [EOS_ASSERT mbind res_bind] in H. apply Ok_inj in H. subst a.
  cbn [block_file_name index_file_name log_data log_index]. apply Z.eqb_eq in E. subst n.
  repeat split; try reflexivity. exact En.
Qed.

Lemma kept_files_refl temp_dir files : kept_files temp_dir files files.
Proof. intros q _ _. reflexivity. Qed.

Lemma kept_files_trans temp_dir f1 f2 f3 :
  kept_files temp_dir f1 f2 → kept_files temp_dir f2 f3 → kept_files temp_dir f1 f3.
Proof. intros H1 H2 q Hq1 Hq2. rewrite (H2 q Hq1 Hq2). apply H1; assumption. Qed.

Lemma kept_files_log temp_dir files data :
  kept_files temp_dir files (<[path_append temp_dir "blocks.log" := data]> files).
Proof. intros q Hq _. apply lookup_insert_ne. intros E. apply Hq. symmetry. exact E. Qed.

Lemma kept_files_index temp_dir files data :
  kept_files temp_dir files (<[path_append temp_dir "blocks.index" := data]> files).
Proof. intros q _ Hq. apply lookup_insert_ne. intros E. apply Hq. symmetry. exact E. Qed.

Lemma create_mapped_file_log temp_dir size files r files' :
  create_mapped_file (path_append temp_dir "blocks.log") size files = (r, files') →
  kept_files temp_dir files files'.
Proof.
  unfold create_mapped_file. destruct (size =? 0).
  - destruct (files !! _); intros [= <- <-]; apply kept_files_refl.
  - destruct (2 ^ 63 <=? size); intros [= <- <-]; apply kept_files_log.
Qed.

Lemma create_mapped_file_index temp_dir size files r files' :
  create_mapped_file (path_append temp_dir "blocks.index") size files = (r, files') →
  kept_files temp_dir files files'.
Proof.
  unfold create_mapped_file. destruct (size =? 0).
  - destruct (files !! _); intros [= <- <-]; apply kept_files_refl.
  - destruct (2 ^ 63 <=? size); intros [= <- <-]; apply kept_files_index.
Qed.

Lemma fs_rename_run old new (files : file_system) data :
  files !! old = Some data → fs_rename old new files = (Ok tt, <[new := data]> (delete old files)).
Proof. intros H. unfold fs_rename. rewrite H. reflexivity. Qed.

(** the four renames at the end of [trim_blocklog_front] *)
Lemma trim_front_renames block_dir temp_dir (files : file_system) L I L' I' :
  block_dir ≠ temp_dir →
  files !! path_append block_dir "blocks.log" = Some L →
  files !! path_append block_dir "blocks.index" = Some I →
  files !! path_append temp_dir "blocks.log" = Some L' →
  files !! path_append temp_dir "blocks.index" = Some I' →
  (_ ← fs_rename (path_append block_dir "blocks.log") (path_append temp_dir "old.log");
   _ ← fs_rename (path_append temp_dir "blocks.log") (path_append block_dir "blocks.log");
   _ ← fs_rename (path_append block_dir "blocks.index") (path_append temp_dir "old.index");
   _ ← fs_rename (path_append temp_dir "blocks.index") (path_append block_dir "blocks.index");
   mret true) files
  = (Ok true,
     <[path_append block_dir "blocks.index" := I']>
       (delete (path_append temp_dir "blocks.index")
          (<[path_append temp_dir "old.index" := I]>
             (delete (path_append block_dir "blocks.index")
                (<[path_append block_dir "blocks.log" := L']>
                   (delete (path_append temp_dir "blocks.log")
                      (<[path_append temp_dir "old.log" := L]>
                         (delete (path_append block_dir "blocks.log") files)))))))).
Proof.
  intros Hd HL HI HL' HI'.
  assert (path_append block_dir "blocks.log" ≠ path_append temp_dir "blocks.log") as N1
    by (intros E; apply Hd, (path_append_inj _ _ _ E)).
  assert (path_append block_dir "blocks.index" ≠ path_append temp_dir "blocks.index") as N2
    by (intros E; apply Hd, (path_append_inj _ _ _ E)).
  pose proof (path_append_neq temp_dir temp_dir "block" "ol" "s.log" "d.log"
                eq_refl ltac:(discriminate)) as N4.
  pose proof (path_append_neq block_dir temp_dir "blocks.inde" "blocks.lo" "x" "g"
                eq_refl ltac:(discriminate)) as N5.
  pose proof (path_append_neq block_dir temp_dir "blocks.inde" "old.lo" "x" "g"
                eq_refl ltac:(discriminate)) as N6.
  pose proof (path_append_neq block_dir block_dir "blocks.inde" "blocks.lo" "x" "g"
                eq_refl ltac:(discriminate)) as N7.
  pose proof (path_append_neq temp_dir temp_dir "blocks.inde" "blocks.lo" "x" "g"
                eq_refl ltac:(discriminate)) as N8.
  pose proof (path_append_neq temp_dir temp_dir "blocks.inde" "old.lo" "x" "g"
                eq_refl ltac:(discriminate)) as N9.
  pose proof (path_append_neq temp_dir temp_dir "block" "ol" "s.index" "d.index"
                eq_refl ltac:(discriminate)) as N10.
  pose proof (path_append_neq temp_dir block_dir "blocks.inde" "blocks.lo" "x" "g"
                eq_refl ltac:(discriminate)) as N11.
  cbn [String.append] in N4, N5, N6, N7, N8, N9, N10, N11.
  rewrite (M_bind_Ok _ _ _ tt _ (fs_rename_run _ _ _ _ HL)).
  erewrite (M_bind_Ok _ _ _ tt); cycle 1.
  { apply fs_rename_run. rewrite lookup_insert_ne by (intros E; apply N4; symmetry; exact E).
    rewrite lookup_delete_ne by exact N1. exact HL'. }
  erewrite (M_bind_Ok _ _ _ tt); cycle 1.
  { apply fs_rename_run. rewrite lookup_insert_ne by (intros E; apply N7; symmetry; exact E).
    rewrite lookup_delete_ne by (intros E; apply N5; symmetry; exact E).
    rewrite lookup_insert_ne by (intros E; apply N6; symmetry; exact E).
    rewrite lookup_delete_ne by (intros E; apply N7; symmetry; exact E). exact HI. }
  erewrite (M_bind_Ok _ _ _ tt); cycle 1.
  { apply fs_rename_run. rewrite lookup_insert_ne by (intros E; apply N10; symmetry; exact E).
    rewrite lookup_delete_ne by exact N2.
    rewrite lookup_insert_ne by (intros E; apply N11; symmetry; exact E).
    rewrite lookup_delete_ne by (intros E; apply N8; symmetry; exact E).
    rewrite lookup_insert_ne by (intros E; apply N9; symmetry; exact E).
    rewrite lookup_delete_ne by (intros E; apply N11; symmetry; exact E). exact HI'. }
  reflexivity.
Qed.

(** X19. Whenever [trim_blocklog_front] does not return true, whether
    it returns false or throws, every file other than blocks.log and
    blocks.index of [temp_dir] is as it was: the log and the index of
    [block_dir] are only replaced by a call that returns true.  (A rename
    fails only when its source is missing, and none of the four is: once
    the first rename is reached, the call returns true.) *)
Theorem trim_blocklog_front_failure_keeps_files block_dir temp_dir truncate_at_block
    (files files' : file_system) r :
  trim_blocklog_front block_dir temp_dir truncate_at_block files = (r, files') →
  r ≠ Ok true → r ≠ Undefined →
  ∀ q, q ≠ path_append temp_dir "blocks.log" → q ≠ path_append temp_dir "blocks.index" →
       files' !! q = files !! q.
Proof.
  intros H Htrue Hundef. change (kept_files temp_dir files files').
  unfold trim_blocklog_front in H.
  apply M_bind_inv in H as [(u0 & s1 & Ha & H) | [(e & Ha & ->) | (_ & ->)]];
    [| |destruct (Hundef eq_refl)].
  2:{ unfold M_ASSERT, lift in Ha. injection Ha as _ <-. apply kept_files_refl. }
  assert (block_dir ≠ temp_dir ∧ s1 = files) as [Hd ->].
  { unfold M_ASSERT, lift, EOS_ASSERT in Ha. destruct (bool_decide_reflect (block_dir ≠ temp_dir));
      [|discriminate]. injection Ha as <-. auto. }
  clear Ha.
  rewrite (M_bind_Ok _ _ _ files files) in H by reflexivity. unfold id in H.
  apply M_bind_inv in H as [(archive & s1 & Ha & H) | [(e & Ha & ->) | (_ & ->)]];
    [| |destruct (Hundef eq_refl)].
  2:{ unfold lift in Ha. injection Ha as _ <-. apply kept_files_refl. }
  unfold lift in Ha. injection Ha as Ha <-.
  destruct (block_log_archive_open_Ok _ _ _ Ha) as (Hbn & Hin & Hlog & Hidx & _).
  destruct (block_log_data_open_Ok _ _ _ Hlog) as (HL & _).
  destruct (block_log_index_open_Ok _ _ _ Hidx) as (HI & _).
  destruct (truncate_at_block <=? log_first_block_num (log_data archive)).
  { injection H as _ <-. apply kept_files_refl. }
  apply M_bind_inv in H as [(last & s1 & Hl & H) | [(e & Hl & ->) | (_ & ->)]];
    [| |destruct (Hundef eq_refl)].
  2:{ unfold lift in Hl. injection Hl as _ <-. apply kept_files_refl. }
  unfold lift in Hl. injection Hl as _ <-.
  destruct (last <? truncate_at_block).
  { injection H as _ <-. apply kept_files_refl. }
  apply M_bind_inv in H as [(pos & s1 & Hp & H) | [(e & Hp & ->) | (_ & ->)]];
    [| |destruct (Hundef eq_refl)].
  2:{ unfold lift in Hp. injection Hp as _ <-. apply kept_files_refl. }
  unfold lift in Hp. injection Hp as _ <-.
  apply M_bind_inv in H as [(buf0 & s1 & Hc & H) | [(e & Hc & ->) | (_ & ->)]];
    [| |destruct (Hundef eq_refl)].
  2:{ apply (create_mapped_file_log _ _ _ _ _ Hc). }
  apply create_mapped_file_log in Hc.
  apply M_bind_inv in H as [(buf1 & s2 & Hw & H) | [(e & Hw & ->) | (_ & ->)]];
    [| |destruct (Hundef eq_refl)].
  2:{ unfold mapped_store in Hw. injection Hw as _ <-.
      eapply kept_files_trans; [exact Hc|apply kept_files_log]. }
  unfold mapped_store in Hw. injection Hw as _ <-.
  apply M_bind_inv in H as [(buf2 & s3 & Hm & H) | [(e & Hm & ->) | (_ & ->)]];
    [| |destruct (Hundef eq_refl)].
  2:{ unfold mapped_store in Hm. injection Hm as _ <-.
      eapply kept_files_trans; [exact Hc|].
      eapply kept_files_trans; apply kept_files_log. }
  unfold mapped_store in Hm. injection Hm as _ <-.
  assert (kept_files temp_dir files
            (<[path_append temp_dir "blocks.log" := snd
                 match memcpy buf1 nbytes_with_chain_id (log_file (log_data archive)) pos
                         (u64 (u64 (log_size (log_data archive) - u64 (pos - nbytes_with_chain_id))
                               - nbytes_with_chain_id)) with
                 | Ok buf => (Ok buf, buf)
                 | Throw e => (Throw e, buf1)
                 | Undefined => (Undefined, buf1)
                 end]> (<[path_append temp_dir "blocks.log" := snd
                   (let '(r, (buf, _)) := write_to_mapped
                      {| version := if log_version (log_data archive) <? pruned_transaction_version
                                    then genesis_state_or_chain_id_version
                                    else max_supported_version;
                         first_block_num := truncate_at_block;
                         chain_context := inr (log_chain_id (log_data archive)) |} (buf0, 0) in
                    (match r with Ok _ => Ok buf | Throw e => Throw e | Undefined => Undefined end,
                     buf))]> s1))) as Hk.
  { eapply kept_files_trans; [exact Hc|]. eapply kept_files_trans; apply kept_files_log. }
  revert H Hk. generalize (<[path_append temp_dir "blocks.log" := snd
                 match memcpy buf1 nbytes_with_chain_id (log_file (log_data archive)) pos
                         (u64 (u64 (log_size (log_data archive) - u64 (pos - nbytes_with_chain_id))
                               - nbytes_with_chain_id)) with
                 | Ok buf => (Ok buf, buf)
                 | Throw e => (Throw e, buf1)
                 | Undefined => (Undefined, buf1)
                 end]> (<[path_append temp_dir "blocks.log" := snd
                   (let '(r, (buf, _)) := write_to_mapped
                      {| version := if log_version (log_data archive) <? pruned_transaction_version
                                    then genesis_state_or_chain_id_version
                                    else max_supported_version;
                         first_block_num := truncate_at_block;
                         chain_context := inr (log_chain_id (log_data archive)) |} (buf0, 0) in
                    (match r with Ok _ => Ok buf | Throw e => Throw e | Undefined => Undefined end,
                     buf))]> s1)).
  intros s4 H Hk.
  apply M_bind_inv in H as [(buf3 & s5 & Hc2 & H) | [(e & Hc2 & ->) | (_ & ->)]];
    [| |destruct (Hundef eq_refl)].
  2:{ eapply kept_files_trans; [exact Hk|]. apply (create_mapped_file_index _ _ _ _ _ Hc2). }
  apply create_mapped_file_index in Hc2.
  destruct (trim_front_loop _ _ _ _) as [rl [itr index]].
  rewrite (M_bind_Ok _ _ _ tt (<[path_append temp_dir "blocks.index" := index_mapping index]> s5))
    in H by reflexivity.
  set (s6 := <[path_append temp_dir "blocks.index" := index_mapping index]> s5) in H.
  set (s7 := <[path_append temp_dir "blocks.log" := it_data itr]> s6).
  assert (kept_files temp_dir files s7) as Hk7.
  { eapply kept_files_trans; [exact Hk|]. eapply kept_files_trans; [exact Hc2|].
    eapply kept_files_trans; [apply kept_files_index|apply kept_files_log]. }
  apply M_bind_inv in H as [(u & s8 & Hs & H) | [(e & Hs & ->) | (_ & ->)]];
    [| |destruct (Hundef eq_refl)].
  2:{ unfold mapped_store in Hs. injection Hs as _ <-. exact Hk7. }
  unfold mapped_store in Hs. cbn [fst snd] in Hs. injection Hs as _ <-. fold s7 in H.
  exfalso. apply Htrue.
  pose proof (path_append_neq block_dir temp_dir "blocks.lo" "blocks.inde" "g" "x"
                eq_refl ltac:(discriminate)) as N1.
  pose proof (path_append_neq block_dir temp_dir "blocks.inde" "blocks.lo" "x" "g"
                eq_refl ltac:(discriminate)) as N2.
  cbn [String.append] in N1, N2.
  rewrite Hbn, Hin in H.
  rewrite (trim_front_renames block_dir temp_dir s7 (log_file (log_data archive))
             (index_file_data (log_index archive)) (it_data itr) (index_mapping index)) in H.
  - congruence.
  - exact Hd.
  - rewrite (Hk7 (path_append block_dir "blocks.log")
               ltac:(intros E; apply Hd, (path_append_inj _ _ _ E)) N1). exact HL.
  - rewrite (Hk7 (path_append block_dir "blocks.index") N2
               ltac:(intros E; apply Hd, (path_append_inj _ _ _ E))). exact HI.
  - apply lookup_insert_eq.
  - unfold s7, s6. rewrite lookup_insert_ne; [apply lookup_insert_eq|].
    apply (path_append_neq temp_dir temp_dir "blocks.lo" "blocks.inde" "g" "x"
             eq_refl ltac:(discriminate)).
Qed.

(** X20. On a log that holds the blocks [first] to [last], one entry
    each, with the index of their positions, [trim_blocklog_front] at a
    block number above [first] and up to [last] returns true. The log of
    [block_dir] is then a preamble of 48 bytes (version 3 for a log below
    version 4, else 4; the block number given; the chain id), followed by
    the entries from that block on, each ending in its new position, and
    the index holds these positions; the old log and index are old.log
    and old.index in [temp_dir], no other file is changed, and the new log
    opens with that preamble. *)
Theorem trim_blocklog_front_trims block_dir temp_dir truncate_at_block (files : file_system)
    l Lpre payloads last :
  let bp := path_append block_dir "blocks.log" in
  let ip := path_append block_dir "blocks.index" in
  let index := index_of_positions (positions_of (first_block_pos l) payloads) in
  let kept := drop (Z.to_nat (truncate_at_block - log_first_block_num l)) payloads in
  let preamble' :=
    {| version := if log_version l <? pruned_transaction_version
                  then genesis_state_or_chain_id_version else max_supported_version;
       first_block_num := truncate_at_block;
       chain_context := inr (log_chain_id l) |} in
  let new_log :=
    (le_encode 4 (version preamble') ++ le_encode 4 truncate_at_block ++ log_chain_id l ++
     le_encode 8 npos) ++ log_of_entries 48 kept in
  block_dir ≠ temp_dir →
  block_log_data_open files bp = Ok l →
  log_file l = Lpre ++ log_of_entries (first_block_pos l) payloads →
  Zlength' Lpre = first_block_pos l →
  files !! ip = Some index →
  last_block_num l = Ok last →
  last - log_first_block_num l + 1 = Z.of_nat (length payloads) →
  1 ≤ log_first_block_num l →
  log_first_block_num l < truncate_at_block ≤ last →
  Zlength' (log_file l) < 2 ^ 62 →
  length (log_chain_id l) = sizeof_chain_id →
  ∃ files',
    trim_blocklog_front block_dir temp_dir truncate_at_block files = (Ok true, files') ∧
    files' !! bp = Some new_log ∧
    files' !! ip = Some (index_of_positions (positions_of 48 kept)) ∧
    files' !! path_append temp_dir "old.log" = Some (log_file l) ∧
    files' !! path_append temp_dir "old.index" = Some index ∧
    files' !! path_append temp_dir "blocks.log" = None ∧
    files' !! path_append temp_dir "blocks.index" = None ∧
    (∀ q, q ∉ [bp; ip; path_append temp_dir "old.log"; path_append temp_dir "old.index";
               path_append temp_dir "blocks.log"; path_append temp_dir "blocks.index"] →
          files' !! q = files !! q) ∧
    block_log_data_open files' bp
    = Ok {| log_file := new_log; log_preamble := preamble'; first_block_pos := 48 |}.
Proof.
  intros bp ip index kept preamble' new_log Hd Hlog HLs Hfb HI Hlast Hcount Hfirst Hrange
    Hsize Hid. subst bp ip.
  pose proof (last_block_num_range _ _ Hlast) as Hlr.
  destruct (block_log_data_open_Ok _ _ _ Hlog) as (HL & _ & _).
  set (first := log_first_block_num l) in *.
  set (k := Z.to_nat (truncate_at_block - first)) in *.
  set (fb := first_block_pos l) in *.
  assert (Z.of_nat k = truncate_at_block - first) as Hk by (unfold k; lia).
  assert (k < length payloads)%nat as Hklt by lia.
  set (taken := take k payloads).
  assert (payloads = taken ++ kept) as Hsplit by (unfold taken, kept; rewrite take_drop; reflexivity).
  assert (length taken = k) as Htaken by (unfold taken; rewrite length_take; lia).
  assert (length kept = (length payloads - k)%nat) as Hkept by (unfold kept; apply length_drop).
  set (fk := fb + entries_size taken).
  pose proof (entries_size_nonneg taken) as Hst. pose proof (entries_size_nonneg kept) as Hsk.
  pose proof (Zlength'_nonneg Lpre) as Hfb0.
  assert (Zlength' (log_file l) = fk + entries_size kept) as Hlen.
  { rewrite HLs, Zlength'_app, Zlength'_log_of_entries, Hsplit, entries_size_app. unfold fk. lia. }
  assert (0 < entries_size kept) as Hskpos.
  { destruct kept as [|e r]; [cbn in Hkept; lia|]. cbn [entries_size foldr].
    fold (entries_size r). pose proof (entries_size_nonneg r). pose proof (Zlength'_nonneg e). lia. }
  assert (drop (Z.to_nat fk) (log_file l) = log_of_entries fk kept) as Hdrop.
  { rewrite HLs, Hsplit, log_of_entries_app, app_assoc.
    replace (Z.to_nat fk) with (length (Lpre ++ log_of_entries fb taken)).
    - apply drop_app_length.
    - rewrite length_app. pose proof (Zlength'_log_of_entries fb taken) as Hz.
      pose proof Hfb as Hfb'. unfold Zlength' in Hz, Hfb'. unfold fk. lia. }
  (* the archive *)
  assert (Zlength' index = 8 * Z.of_nat (length payloads)) as Hilen
    by (unfold index; rewrite Zlength'_index_of_positions, length_positions_of; reflexivity).
  set (archive := {| block_file_name := (path_append block_dir "blocks.log"); index_file_name := (path_append block_dir "blocks.index"); log_data := l;
                     log_index := {| index_file_data := index |} |}).
  assert (block_log_archive_open files block_dir = Ok archive) as Harch.
  { unfold block_log_archive_open. rewrite Hlog. cbn [mbind res_bind].
    rewrite (block_log_index_open_run files (path_append block_dir "blocks.index") index HI)
      by (rewrite Hilen; first [lia | rewrite Z.mul_comm; apply Z.mod_mul; lia]).
    cbn [mbind res_bind]. unfold log_num_blocks, log_size.
    assert ((first_block_pos l =? Zlength' (log_file l)) = false) as ->
      by (apply Z.eqb_neq; fold fb; unfold fk in Hlen; lia).
    rewrite Hlast. cbn [mbind res_bind]. unfold index_num_blocks, index_size. cbn [index_file_data].
    rewrite u32_to_int32, Hilen. fold first.
    replace (8 * Z.of_nat (length payloads) / 8) with (Z.of_nat (length payloads))
      by (rewrite Z.mul_comm, Z.div_mul; lia).
    rewrite Hcount, Z.eqb_refl. reflexivity. }
  (* the first block kept *)
  assert (nth_block_position {| index_file_data := index |} (u32 (truncate_at_block - first))
          = Ok fk) as Hnth.
  { unfold u32. rewrite Z.mod_small by lia.
    rewrite <- Hk, <- Htaken, <- (length_positions_of fb taken).
    unfold index. rewrite Hsplit, positions_of_app.
    destruct kept as [|e r]; [cbn in Hkept; lia|]. cbn [positions_of].
    apply nth_block_position_of_positions. unfold fk. lia. }
  assert (u64 (log_size l - u64 (fk - 48)) = 48 + entries_size kept) as Hnew.
  { unfold log_size. rewrite Hlen. apply u64_shift. lia. }
  set (N := Z.to_nat (48 + entries_size kept)).
  set (pre48 := le_encode 4 (version preamble') ++ le_encode 4 truncate_at_block ++
                log_chain_id l ++ le_encode 8 npos).
  assert (length pre48 = 48%nat) as Hpre48
    by (unfold pre48; rewrite !length_app, !length_le_encode, Hid; reflexivity).
  assert (version preamble' = 3 ∨ version preamble' = 4) as Hv'.
  { cbn [version]. destruct (log_version l <? pruned_transaction_version); auto. }
  assert (write_to preamble' = Ok pre48) as Hw.
  { rewrite write_to_unfold.
    assert ((version preamble' =? initial_version) = false) as ->
      by (apply Z.eqb_neq; unfold initial_version; lia).
    reflexivity. }
  set (buf1 := pre48 ++ zeros (N - 48)).
  set (buf2 := pre48 ++ log_of_entries fk kept).
  assert (memcpy buf1 48 (log_file l) fk (u64 (48 + entries_size kept - 48)) = Ok buf2) as Hcpy.
  { replace (48 + entries_size kept - 48) with (entries_size kept) by lia.
    unfold u64. rewrite Z.mod_small by lia. unfold memcpy.
    assert ((0 <=? 48) && (48 + entries_size kept <=? Zlength' buf1) && (0 <=? fk)
            && (fk + entries_size kept <=? Zlength' (log_file l)) = true) as ->.
    { rewrite !andb_true_iff, !Z.leb_le. unfold buf1.
      rewrite Zlength'_app. unfold Zlength' at 1 2. rewrite Hpre48, length_zeros.
      unfold fk in *. unfold N. lia. }
    f_equal. rewrite Hdrop.
    rewrite take_ge by (pose proof (Zlength'_log_of_entries fk kept) as Hz;
                        unfold Zlength' in Hz; lia).
    unfold buf1, buf2.
    pose proof (write_at_middle pre48 (zeros (N - 48)) [] (log_of_entries fk kept)) as Hwm.
    rewrite !app_nil_r in Hwm. replace 48 with (Zlength' pre48) by (unfold Zlength'; lia).
    apply Hwm. rewrite length_zeros. pose proof (Zlength'_log_of_entries fk kept) as Hz.
    unfold Zlength' in Hz. unfold N. lia. }
  set (be := Z.of_nat (length kept)).
  assert (u32 (index_num_blocks {| index_file_data := index |} - u32 (truncate_at_block - first))
          = be) as Hbe.
  { unfold index_num_blocks, index_size. cbn [index_file_data]. rewrite Hilen.
    replace (8 * Z.of_nat (length payloads) / 8) with (Z.of_nat (length payloads))
      by (rewrite Z.mul_comm, Z.div_mul; lia).
    assert (u32 (truncate_at_block - first) = truncate_at_block - first) as ->
      by (unfold u32; apply Z.mod_small; lia).
    unfold u32. rewrite <- Zminus_mod_idemp_l.
    change (to_int32 (Z.of_nat (length payloads)) mod 2 ^ 32)
      with (u32 (to_int32 (Z.of_nat (length payloads)))).
    rewrite u32_to_int32. unfold u32. rewrite Zminus_mod_idemp_l. unfold be. rewrite Hkept.
    rewrite Z.mod_small by lia. lia. }
  assert (0 < be) as Hbepos by (unfold be; lia).
  set (new_index := index_of_positions (positions_of 48 kept)).
  assert (trim_front_loop (S (Z.to_nat be)) (u64 (fk - 48))
            (make_reverse_block_position_iterator buf2 48) (index_writer_new be)
          = (Ok tt,
             ({| it_data := new_log; begin_position := 40; current_position := 40 |},
              {| current_offset := 0; index_mapping := new_index |}))) as Hloop.
  { unfold make_reverse_block_position_iterator, index_writer_new.
    assert (Zlength' buf2 = 48 + entries_size kept) as Hb2.
    { unfold buf2. rewrite Zlength'_app, Zlength'_log_of_entries. unfold Zlength'. lia. }
    rewrite Hb2. change (u64 (48 - 8)) with 40.
    assert (u64 (48 + entries_size kept - 8) = 48 + entries_size kept - 8) as ->
      by (unfold u64; apply Z.mod_small; lia).
    pose proof (trim_front_loop_entries pre48 fk ltac:(unfold Zlength'; lia)
                  ltac:(unfold fk; lia) kept [] (zeros (Z.to_nat (be * 8))) []
                  (S (Z.to_nat be)) ltac:(unfold be; lia)
                  ltac:(rewrite length_zeros; unfold be; lia) ltac:(lia)) as Hl.
    rewrite !app_nil_r in Hl. unfold buf2, new_log, new_index.
    replace (be * 8) with (8 * Z.of_nat (length kept)) by (unfold be; lia).
    replace (8 * Z.of_nat (length kept)) with (8 * Z.of_nat (length kept)) in Hl by reflexivity.
    replace (Z.to_nat (be * 8)) with (Z.to_nat (8 * Z.of_nat (length kept))) in Hl
      by (unfold be; f_equal; lia).
    exact Hl. }
  (* the run *)
  set (fs1 := <[(path_append temp_dir "blocks.log") := zeros N]> files).
  set (fs2 := <[(path_append temp_dir "blocks.log") := buf1]> fs1).
  set (fs3 := <[(path_append temp_dir "blocks.log") := buf2]> fs2).
  set (fs4 := <[(path_append temp_dir "blocks.index") := zeros (Z.to_nat (be * 8))]> fs3).
  set (fs5 := <[(path_append temp_dir "blocks.index") := new_index]> fs4).
  set (fs6 := <[(path_append temp_dir "blocks.log") := new_log]> fs5).
  assert (kept_files temp_dir files fs6) as Hkept6.
  { unfold fs6, fs5, fs4, fs3, fs2, fs1.
    repeat (eapply kept_files_trans;
            [|first [apply kept_files_log | apply kept_files_index]]).
    apply kept_files_refl. }
  set (files' :=
     <[(path_append block_dir "blocks.index") := new_index]>
       (delete (path_append temp_dir "blocks.index")
          (<[path_append temp_dir "old.index" := index]>
             (delete (path_append block_dir "blocks.index")
                (<[(path_append block_dir "blocks.log") := new_log]>
                   (delete (path_append temp_dir "blocks.log")
                      (<[path_append temp_dir "old.log" := log_file l]>
                         (delete (path_append block_dir "blocks.log") fs6)))))))).
  assert (trim_blocklog_front block_dir temp_dir truncate_at_block files = (Ok true, files'))
    as Hrun.
  { unfold trim_blocklog_front.
    rewrite (M_bind_Ok _ _ _ tt files)
      by (unfold M_ASSERT, lift, EOS_ASSERT; rewrite bool_decide_eq_true_2 by exact Hd;
          reflexivity).
    rewrite (M_bind_Ok _ _ _ files files) by reflexivity.
    rewrite (M_bind_Ok _ _ _ archive files) by (unfold lift; rewrite Harch; reflexivity).
    unfold archive. cbn [log_data log_index block_file_name index_file_name]. fold first.
    assert ((truncate_at_block <=? first) = false) as -> by (apply Z.leb_gt; lia).
    rewrite (M_bind_Ok _ _ _ last files) by (unfold lift; rewrite Hlast; reflexivity).
    assert ((last <? truncate_at_block) = false) as -> by (apply Z.ltb_ge; lia).
    cbv zeta. change nbytes_with_chain_id with 48.
    rewrite (M_bind_Ok _ _ _ fk files) by (unfold lift; rewrite Hnth; reflexivity).
    rewrite Hnew.
    rewrite (M_bind_Ok _ _ _ (zeros N) fs1).
    2:{ unfold create_mapped_file.
        assert ((48 + entries_size kept =? 0) = false) as -> by (apply Z.eqb_neq; lia).
        assert ((2 ^ 63 <=? 48 + entries_size kept) = false) as -> by (apply Z.leb_gt; lia).
        reflexivity. }
    fold preamble'.
    rewrite (write_to_mapped_zeros preamble' pre48 N Hw) by (unfold N; lia).
    cbv beta iota. rewrite Hpre48. fold buf1.
    rewrite (M_bind_Ok _ _ _ buf1 fs2) by reflexivity.
    rewrite Hcpy.
    rewrite (M_bind_Ok _ _ _ buf2 fs3) by reflexivity.
    rewrite Hbe.
    rewrite (M_bind_Ok _ _ _ (zeros (Z.to_nat (be * 8))) fs4).
    2:{ unfold create_mapped_file.
        assert ((be * 8 =? 0) = false) as -> by (apply Z.eqb_neq; lia).
        assert ((2 ^ 63 <=? be * 8) = false) as ->.
        { apply Z.leb_gt. unfold be. rewrite Hkept. lia. }
        reflexivity. }
    rewrite Hloop. cbv beta iota. cbn [index_mapping it_data].
    rewrite (M_bind_Ok _ _ _ tt fs5) by reflexivity.
    rewrite (M_bind_Ok _ _ _ tt fs6) by reflexivity.
    apply (trim_front_renames block_dir temp_dir fs6 (log_file l) index new_log new_index).
    - exact Hd.
    - rewrite (Hkept6 (path_append block_dir "blocks.log")) by path_neq Hd. exact HL.
    - rewrite (Hkept6 (path_append block_dir "blocks.index")) by path_neq Hd. exact HI.
    - apply lookup_insert_eq.
    - unfold fs6. rewrite lookup_insert_ne by path_neq Hd. apply lookup_insert_eq. }
  exists files'. split; [exact Hrun|].
  assert (files' !! (path_append block_dir "blocks.log") = Some new_log) as Hbp'.
  { unfold files'. rewrite lookup_insert_ne by path_neq Hd.
    rewrite lookup_delete_ne by path_neq Hd. rewrite lookup_insert_ne by path_neq Hd.
    rewrite lookup_delete_ne by path_neq Hd. apply lookup_insert_eq. }
  split; [exact Hbp'|].
  split; [apply lookup_insert_eq|].
  split.
  { unfold files'. rewrite lookup_insert_ne by path_neq Hd.
    rewrite lookup_delete_ne by path_neq Hd. rewrite lookup_insert_ne by path_neq Hd.
    rewrite lookup_delete_ne by path_neq Hd. rewrite lookup_insert_ne by path_neq Hd.
    rewrite lookup_delete_ne by path_neq Hd. apply lookup_insert_eq. }
  split.
  { unfold files'. rewrite lookup_insert_ne by path_neq Hd.
    rewrite lookup_delete_ne by path_neq Hd. apply lookup_insert_eq. }
  split.
  { unfold files'. rewrite lookup_insert_ne by path_neq Hd.
    rewrite lookup_delete_ne by path_neq Hd. rewrite lookup_insert_ne by path_neq Hd.
    rewrite lookup_delete_ne by path_neq Hd. rewrite lookup_insert_ne by path_neq Hd.
    apply lookup_delete_eq. }
  split.
  { unfold files'. rewrite lookup_insert_ne by path_neq Hd. apply lookup_delete_eq. }
  split.
  { intros q Hq. rewrite !not_elem_of_cons in Hq.
    destruct Hq as (Q1 & Q2 & Q3 & Q4 & Q5 & Q6 & _).
    unfold files'. rewrite lookup_insert_ne by congruence.
    rewrite lookup_delete_ne by congruence. rewrite lookup_insert_ne by congruence.
    rewrite lookup_delete_ne by congruence. rewrite lookup_insert_ne by congruence.
    rewrite lookup_delete_ne by congruence. rewrite lookup_insert_ne by congruence.
    rewrite lookup_delete_ne by congruence. apply Hkept6; assumption. }
  unfold block_log_data_open, mapped_file_open. rewrite Hbp'.
  assert (read_from {| ds_buf := new_log; ds_pos := 0 |}
          = Ok (preamble', {| ds_buf := new_log; ds_pos := Zlength' pre48 |})) as Hread.
  { apply (read_from_after_write_to preamble' pre48 (log_of_entries 48 kept) Hw).
    - lia.
    - change (first_block_num preamble') with truncate_at_block. lia.
    - unfold initial_version. lia.
    - intros g Hg. discriminate Hg.
    - intros id Hidc. injection Hidc as <-. split; [|exact Hid].
      unfold contains_chain_id. change (first_block_num preamble') with truncate_at_block.
      rewrite andb_true_iff, Z.leb_le, Z.ltb_lt. unfold genesis_state_or_chain_id_version. lia. }
  destruct new_log as [|x data] eqn:Enew.
  { exfalso. apply (f_equal length) in Enew. unfold new_log in Enew.
    rewrite length_app in Enew. fold pre48 in Enew. cbn [length] in Enew. lia. }
  cbn [mbind res_bind]. rewrite Hread. cbn [mbind res_bind ds_tellp ds_pos].
  do 2 f_equal. unfold Zlength'. lia.
Qed.

End trim_front_facts.

(** ** Reading from a rotated segment *)

Section rotation_facts.
Context `{CL : chain_layer}.





End rotation_facts.

(** ** Light validation of an entry *)

Lemma le_encode_decode bs : le_encode (length bs) (le_decode bs) = bs.
Proof.
  induction bs as [|b r IH]; [reflexivity|]. cbn [length le_encode le_decode].
  pose proof (Byte.to_N_bounded b) as Hb.
  replace (Z.of_N (Byte.to_N b) + 256 * le_decode r)
    with (Z.of_N (Byte.to_N b) + le_decode r * 256) by lia.
  f_equal.
  - unfold byte_of_Z. rewrite Z.mod_add by lia.
    rewrite Z.mod_small by lia. rewrite N2Z.id, Byte.of_to_N. reflexivity.
  - rewrite Z.div_add by lia.
    rewrite Z.div_small by lia. exact IH.
Qed.

(** bytes read where they lie *)
Lemma read_buffer_here n A bs C :
  length bs = n → read_buffer n (A ++ bs ++ C) (Zlength' A) = Ok (le_decode bs).
Proof.
  intros Hn. unfold read_buffer.
  pose proof (Zlength'_nonneg A). pose proof (Zlength'_nonneg C).
  assert ((0 <=? Zlength' A) && (Zlength' A + Z.of_nat n <=? Zlength' (A ++ bs ++ C)) = true)
    as ->.
  { rewrite andb_true_iff, !Z.leb_le, !Zlength'_app. unfold Zlength' at 4. lia. }
  unfold Zlength'. rewrite Nat2Z.id, drop_app_length, <- Hn, take_app_length. reflexivity.
Qed.

(** the big-endian number in 4 bytes, read as [block_num_at] reads it *)
Lemma endian_reverse_big_endian prev :
  endian_reverse_u32 (le_decode (rev (le_encode 4 prev))) = u32 prev.
Proof.
  unfold endian_reverse_u32.
  pose proof (le_encode_decode (rev (le_encode 4 prev))) as H.
  rewrite length_rev, length_le_encode in H. rewrite H, rev_involutive.
  apply le_decode_encode.
Qed.

Section validation_facts.
Context `{CL : chain_layer}.

(** X25. An entry in the format of the log passes light validation
    under the number its header carries: when the bytes 14 to 17 of the
    serialized block are the big-endian number [prev] of the previous block,
    as [block_num_at] assumes, [light_validate_block_entry_at] at the
    position of an entry that [pack] built (from version 4 on; the legacy
    serialization before), followed by that position, accepts the block
    number prev + 1 and rejects every other one with a
    block_log_exception. *)
Theorem light_validate_written_entry l pre b c buffer rest prev expected :
  let packed := if pruned_transaction_version <=? log_version l
                then block_pack b else buffer in
  log_file l = pre ++ buffer ++ le_encode 8 (Zlength' pre) ++ rest →
  (if pruned_transaction_version <=? log_version l
   then pack b c = Ok buffer else block_pack_v0 b = Some buffer) →
  (18 ≤ length packed)%nat →
  take 4 (drop 14 packed) = rev (le_encode 4 prev) →
  Zlength' pre < 2 ^ 64 → Zlength' buffer + 8 < 2 ^ 32 →
  light_validate_block_entry_at l (Zlength' pre) expected
  = if u32 (u32 prev + 1) =? expected then Ok tt
    else Throw (Exn block_log_exception
           "At position ${pos} expected to find block number ${exp_bnum} but found ${act_bnum}").
Proof.
  intros packed Hfile Hbuf Hlen Hprev Hpos Hsize.
  pose proof (Zlength'_nonneg pre) as Hpre0. pose proof (Zlength'_nonneg rest) as Hrest0.
  pose proof (Zlength'_nonneg buffer) as Hbuf0.
  set (pos := Zlength' pre) in *.
  assert (packed = take 14 packed ++ rev (le_encode 4 prev) ++ drop 18 packed) as Hsplit.
  { rewrite <- Hprev, <- (take_drop 14 packed) at 1. f_equal.
    rewrite <- (take_drop 4 (drop 14 packed)) at 1. f_equal. rewrite drop_drop. reflexivity. }
  assert (length (take 14 packed) = 14%nat) as H14 by (rewrite length_take; lia).
  assert (∃ front back,
            log_file l = front ++ rev (le_encode 4 prev) ++ back ∧
            Zlength' front = pos + (14 + offset_to_block_start (log_version l)))
    as (front & back & Hfb & Hfront).
  { unfold offset_to_block_start. subst packed.
    destruct (pruned_transaction_version <=? log_version l).
    - destruct (pack_length _ _ _ Hbuf) as (_ & payload & Hp & Hb).
      unfold pack_into in Hp. case_bool_decide; [|discriminate]. apply Ok_inj in Hp.
      set (size := u32 (Zlength' buffer + 8)) in Hb.
      exists (pre ++ le_encode 4 size ++ le_encode 1 c ++ take 14 (block_pack b)),
        (drop 18 (block_pack b) ++
         zeros (maximum_pruned_pack_size b - length (block_pack b)) ++
         le_encode 8 pos ++ rest).
      split.
      + rewrite Hfile, Hb, <- Hp. rewrite Hsplit at 1. rewrite <- !app_assoc. reflexivity.
      + rewrite !Zlength'_app, !Zlength'_le_encode. unfold Zlength' at 2. rewrite H14.
        fold pos. lia.
    - exists (pre ++ take 14 buffer), (drop 18 buffer ++ le_encode 8 pos ++ rest). split.
      + rewrite Hfile. rewrite Hsplit at 1. rewrite <- !app_assoc. reflexivity.
      + rewrite Zlength'_app. unfold Zlength' at 2. rewrite H14. fold pos. lia. }
  assert (block_num_at l pos = Ok (u32 (u32 prev + 1))) as Hnum.
  { unfold block_num_at, log_size.
    assert ((pos <=? Zlength' (log_file l)) = true) as ->.
    { apply Z.leb_le. rewrite Hfile, !Zlength'_app, Zlength'_le_encode. fold pos. lia. }
    cbn [EOS_ASSERT mbind res_bind]. rewrite <- Hfront, Hfb.
    rewrite read_buffer_here by (rewrite length_rev, length_le_encode; reflexivity).
    cbn [mbind res_bind]. rewrite endian_reverse_big_endian. reflexivity. }
  unfold light_validate_block_entry_at. rewrite Hnum. cbn [mbind res_bind].
  destruct (u32 (u32 prev + 1) =? expected); [|reflexivity].
  cbn [EOS_ASSERT mbind res_bind]. subst packed.
  destruct (pruned_transaction_version <=? log_version l); [|reflexivity].
  destruct (pack_length _ _ _ Hbuf) as (_ & payload & _ & Hb).
  assert (u32 (Zlength' buffer + 8) = Zlength' buffer + 8) as Hu
    by (unfold u32; apply Z.mod_small; lia).
  assert (read_buffer 4 (log_file l) pos = Ok (Zlength' buffer + 8)) as ->.
  { rewrite Hfile. rewrite Hb at 1. rewrite <- !app_assoc.
    unfold pos. rewrite read_buffer_here by apply length_le_encode.
    rewrite Hu. rewrite le_decode_encode_small; [reflexivity|].
    change (256 ^ Z.of_nat 4) with (2 ^ 32). lia. }
  cbn [mbind res_bind].
  assert (read_buffer 8 (log_file l) (pos + (Zlength' buffer + 8) - 8) = Ok pos) as ->.
  { rewrite Hfile, app_assoc.
    replace (pos + (Zlength' buffer + 8) - 8) with (Zlength' (pre ++ buffer))
      by (rewrite Zlength'_app; fold pos; lia).
    apply read_buffer_middle. lia. }
  cbn [mbind res_bind]. rewrite Z.eqb_refl. reflexivity.
Qed.

End validation_facts.

(** * The properties at work on a small log *)

Example log3_data_is_the_view :
  block_log_data_open (fs Toy.log3) "d/blocks.log" = Ok Toy.log3_data.
Proof. reflexivity. Qed.

(** a version-4 preamble with first block 1 holds a genesis state; a
    version-3 preamble with first block 0 is malformed *)
Lemma read_from_chain_context_witness :
  read_version_and_first {| ds_buf := Toy.s6_log; ds_pos := 0 |}
  = Ok (4, 1, {| ds_buf := Toy.s6_log; ds_pos := 8 |}) ∧
  read_from {| ds_buf := Toy.s6_log; ds_pos := 0 |}
  = Ok ({| version := 4; first_block_num := 1; chain_context := inl Toy.genesis |},
        {| ds_buf := Toy.s6_log; ds_pos := 17 |}) ∧
  read_from {| ds_buf := le_encode 4 3 ++ le_encode 4 0 ++ Toy.s6_log; ds_pos := 0 |}
  = Throw MalformedPreamble.
Proof.
  split; [reflexivity|]. split.
  - destruct (read_from_chain_context {| ds_buf := Toy.s6_log; ds_pos := 0 |} 4 1
                {| ds_buf := Toy.s6_log; ds_pos := 8 |} eq_refl) as (_ & Hgenesis & _).
    rewrite Hgenesis; [reflexivity|]. right. reflexivity.
  - destruct (read_from_chain_context
                {| ds_buf := le_encode 4 3 ++ le_encode 4 0 ++ Toy.s6_log; ds_pos := 0 |} 3 0
                {| ds_buf := le_encode 4 3 ++ le_encode 4 0 ++ Toy.s6_log; ds_pos := 8 |}
                eq_refl) as (_ & _ & _ & Hneither & _).
    apply Hneither. split; [lia|reflexivity].
Defined.

(** C5, counterexample. A preamble of version 2 whose first block number is
    5: the version is not 1, the first block number is not 1 and the version
    is below 3, so none of the three cases of the claim applies; yet
    [read_from] does not fail, it decodes the genesis state. *)
Lemma read_from_version_2_any_first_block :
  read_version_and_first {| ds_buf := Toy.v2_preamble_bytes; ds_pos := 0 |}
  = Ok (2, 5, {| ds_buf := Toy.v2_preamble_bytes; ds_pos := 8 |}) ∧
  ¬ (2 = 1 ∨ (2 ≤ 2 ∧ 5 = 1) ∨ (3 ≤ 2 ∧ 1 < 5)) ∧
  read_from {| ds_buf := Toy.v2_preamble_bytes; ds_pos := 0 |}
  = Ok ({| version := 2; first_block_num := 5; chain_context := inl Toy.genesis |},
        {| ds_buf := Toy.v2_preamble_bytes; ds_pos := 17 |}) ∧
  read_from {| ds_buf := Toy.v2_preamble_bytes; ds_pos := 0 |} ≠ Throw MalformedPreamble.
Proof.
  split; [reflexivity|]. split; [lia|]. split; [reflexivity|]. discriminate.
Qed.

(** the entry of block 1 in the log of scenario S6: 47 bytes at 17 *)
Lemma unpack_v4_entry_witness :
  ds_read_uint 4 {| ds_buf := Toy.s6_log; ds_pos := 17 |}
  = Ok (47, {| ds_buf := Toy.s6_log; ds_pos := 21 |}) ∧
  ds_read_uint 1 {| ds_buf := Toy.s6_log; ds_pos := 21 |}
  = Ok (0, {| ds_buf := Toy.s6_log; ds_pos := 22 |}) ∧
  unpack {| ds_buf := Toy.s6_log; ds_pos := 17 |}
  = Ok ({| meta_compression := 0; meta_size := 47 |}, Toy.B1,
        {| ds_buf := Toy.s6_log; ds_pos := 17 + 47 - 8 |}).
Proof.
  split; [reflexivity|]. split; [reflexivity|].
  destruct (unpack_v4_entry {| ds_buf := Toy.s6_log; ds_pos := 17 |} 47 0
              {| ds_buf := Toy.s6_log; ds_pos := 21 |}
              {| ds_buf := Toy.s6_log; ds_pos := 22 |} eq_refl eq_refl) as [_ Hnone].
  destruct (Hnone eq_refl Toy.B1 34%nat eq_refl eq_refl) as [_ Hskip].
  destruct Hskip as [Hunpack _]; [discriminate|]. exact Hunpack.
Defined.

(** the index lacks block 3: the log is cut back to the end of block 2.
    With all three blocks in the index the log does not reach beyond the
    entry of block 3, and nothing is validated or cut. *)
Lemma recover_from_incomplete_block_head_witness :
  (index_back Toy.stale_index = Ok 51 ∧
   fst (recover_from_incomplete_block_head Toy.log3_data Toy.stale_index Toy.log3) = Ok true ∧
   fs (snd (recover_from_incomplete_block_head Toy.log3_data Toy.stale_index Toy.log3))
     !! "d/blocks.log"%string = Some (take 85 Toy.log3_log)) ∧
  recover_from_incomplete_block_head Toy.log3_data {| index_file_data := Toy.log3_index |}
    Toy.log3 = (Ok false, Toy.log3).
Proof.
  split.
  - split; [reflexivity|].
    assert (light_validate_block_entry_at Toy.log3_data 51
              (u32 (log_first_block_num Toy.log3_data + index_num_blocks Toy.stale_index - 1))
            = Ok tt) as Hvalid by (vm_compute; reflexivity).
    destruct (recover_from_incomplete_block_head_iff Toy.log3 Toy.log3_data Toy.stale_index
                51 Toy.log3_log eq_refl) as [Hcut _].
    + vm_compute. reflexivity.
    + rewrite (Hcut 34).
      * split; vm_compute; reflexivity.
      * split; [vm_compute; discriminate|]. split; [vm_compute; reflexivity|].
        split; [vm_compute; reflexivity|]. split; [vm_compute; reflexivity|]. exact Hvalid.
  - destruct (recover_from_incomplete_block_head_iff Toy.log3 Toy.log3_data
                {| index_file_data := Toy.log3_index |} 85 Toy.log3_log eq_refl)
      as [_ Hkeep].
    + vm_compute. reflexivity.
    + apply Hkeep.
      * intros (es & _ & _ & Hes & Hsize & _).
        vm_compute in Hes. injection Hes as <-. vm_compute in Hsize. discriminate.
      * intros _ _. split; [vm_compute; discriminate|].
        intros es Hes Hsize.
        vm_compute in Hes. injection Hes as <-. vm_compute in Hsize. discriminate.
Defined.

(** scenario S2: appending block 2 with stride 2 rotates the log *)
Lemma append_rotation_witness :
  ∃ s',
    append (Toy.B 2) 0 (Toy.log_after_reset 2 10 (Toy.B 1)) = (Ok 51, s') ∧
    is_Some (fs s' !! "d/blocks-1-2.log"%string) ∧
    is_Some (fs s' !! "d/blocks-1-2.index"%string) ∧
    fs s' !! "d/blocks.index"%string = Some [] ∧
    version (preamble s') = 4 ∧ first_block_num (preamble s') = 3 ∧
    collection_find 1 (collection (catalog s')) =
      Some {| last_block_num_of := 2;
              filename_base := {| parent_path := "d"; filename := "blocks-1-2" |} |}.
Proof.
  pose (s := Toy.log_after_reset 2 10 (Toy.B 1)).
  destruct (append_entry (CL := Toy.toy_chain) (Toy.B 2) 0 s) as [r s1] eqn:Hentry.
  assert (r = Ok 51) as ->
    by (change r with (fst (r, s1)); rewrite <- Hentry; vm_compute; reflexivity).
  assert (s1 = snd (append_entry (CL := Toy.toy_chain) (Toy.B 2) 0 s)) as Hs1 by (rewrite Hentry; reflexivity).
  assert (stride s ≠ 0) as Hstride by (vm_compute; discriminate).
  destruct (append_rotation (CL := Toy.toy_chain) (Toy.B 2) 0 s 51 s1 Hentry Hstride)
    as [_ Hrotate].
  assert (items_to_erase (catalog s) = 0%nat) as Hnone by (vm_compute; reflexivity).
  destruct (Hrotate ltac:(vm_compute; reflexivity) ltac:(vm_compute; reflexivity)
              ltac:(vm_compute; reflexivity) (fs s1)
              (default [] (fs s1 !! "d/blocks.log"%string))
              (default [] (fs s1 !! "d/blocks.index"%string)))
    as (s' & bytes & Happend & Hlog & Hindex & Hpre & _ & _ & Hlive & Hcat & _ & _).
  - rewrite Hnone. reflexivity.
  - rewrite Hs1. vm_compute. reflexivity.
  - rewrite Hs1. vm_compute. reflexivity.
  - exists s'. split; [exact Happend|].
    split; [eexists; exact Hlog|]. split; [eexists; exact Hindex|].
    split; [exact Hlive|]. rewrite Hpre. split; [reflexivity|]. split; [reflexivity|].
    apply Hcat; reflexivity.
Defined.

(** scenario S2 again: before block 2 is appended the log starts at block
    1 by its preamble; after the rotation it starts at block 1 by the
    catalog, while the live preamble starts at block 3 *)
Lemma first_block_num_prefers_catalog_witness :
  ∃ s',
    append (Toy.B 2) 0 (Toy.log_after_reset 2 10 (Toy.B 1)) = (Ok 51, s') ∧
    block_log_first_block_num (Toy.log_after_reset 2 10 (Toy.B 1)) = 1 ∧
    block_log_first_block_num s' = 1 ∧
    first_block_num (preamble s') = 3.
Proof.
  pose (s := Toy.log_after_reset 2 10 (Toy.B 1)).
  destruct (append_entry (CL := Toy.toy_chain) (Toy.B 2) 0 s) as [r s1] eqn:Hentry.
  assert (r = Ok 51) as ->
    by (change r with (fst (r, s1)); rewrite <- Hentry; vm_compute; reflexivity).
  assert (s1 = snd (append_entry (CL := Toy.toy_chain) (Toy.B 2) 0 s)) as Hs1
    by (rewrite Hentry; reflexivity).
  destruct (first_block_num_prefers_catalog (CL := Toy.toy_chain) s) as (_ & Hempty & Hrotate).
  destruct (Hrotate (Toy.B 2) 0 51 s1 (fs s1)
              (default [] (fs s1 !! "d/blocks.log"%string))
              (default [] (fs s1 !! "d/blocks.index"%string)) Hentry)
    as (s' & Happend & Hpre & Hretained & _).
  - vm_compute. discriminate.
  - vm_compute. reflexivity.
  - vm_compute. reflexivity.
  - vm_compute. reflexivity.
  - vm_compute. reflexivity.
  - rewrite Hs1. vm_compute. reflexivity.
  - rewrite Hs1. vm_compute. reflexivity.
  - exists s'. split; [exact Happend|].
    assert (block_log_first_block_num s = 1) as Hbefore
      by (rewrite (Hempty eq_refl); reflexivity).
    split; [exact Hbefore|].
    destruct (Hretained eq_refl) as (_ & _ & _ & Hsame).
    split; [|rewrite Hpre; reflexivity].
    rewrite Hsame; [exact Hbefore|vm_compute; reflexivity|].
    intros k v r0 Hc. vm_compute in Hc. discriminate Hc.
Defined.

(** C10, counterexample. Stride 2 and [max_retained_files = 0]: the log
    starts at block 1; appending block 2 rotates it, and [first_block_num()]
    is then 3, the new live preamble's.  Stride 2 and one retained file, the
    segment 1-2 retained: [first_block_num()] is 1; appending block 4
    rotates the log, the segment 1-2 is evicted, and [first_block_num()]
    becomes 3. *)
Lemma first_block_num_after_rotation_moves :
  (block_log_first_block_num (Toy.log_after_reset 2 0 (Toy.B 1)) = 1 ∧
   is_Some (fs (snd (append (Toy.B 2) 0 (Toy.log_after_reset 2 0 (Toy.B 1))))
              !! "d/blocks-1-2.log"%string) ∧
   block_log_first_block_num (snd (append (Toy.B 2) 0 (Toy.log_after_reset 2 0 (Toy.B 1))))
   = 3 ∧
   first_block_num (preamble (snd (append (Toy.B 2) 0 (Toy.log_after_reset 2 0 (Toy.B 1)))))
   = 3) ∧
  (block_log_first_block_num Toy.log_one_retained = 1 ∧
   max_retained_files (catalog Toy.log_one_retained) = 1 ∧
   is_Some (fs (snd (append (Toy.B 4) 0 Toy.log_one_retained)) !! "d/blocks-3-4.log"%string) ∧
   block_log_first_block_num (snd (append (Toy.B 4) 0 Toy.log_one_retained)) = 3 ∧
   first_block_num (preamble (snd (append (Toy.B 4) 0 Toy.log_one_retained))) = 5).
Proof.
  split.
  - split; [vm_compute; reflexivity|]. split; [vm_compute; eexists; reflexivity|].
    split; vm_compute; reflexivity.
  - split; [vm_compute; reflexivity|]. split; [vm_compute; reflexivity|].
    split; [vm_compute; eexists; reflexivity|].
    split; vm_compute; reflexivity.
Qed.

(** scenario S2: block 7 is in neither the live log nor the segment 1-2 *)
Lemma read_block_id_by_num_absent_witness :
  read_block_id_by_num 7 Toy.log_s2 = (Ok empty_block_id, Toy.log_s2).
Proof.
  apply (read_block_id_by_num_absent (CL := Toy.toy_chain) Toy.log_s2 7).
  - intros Hin. vm_compute in Hin. destruct Hin as [_ Hle]. apply Hle. reflexivity.
  - intros (first & item & Hin & H1 & H2).
    assert (collection (catalog Toy.log_s2)
            = [(1, {| last_block_num_of := 2;
                      filename_base := {| parent_path := "d"; filename := "blocks-1-2" |} |})])
      as Hc by (vm_compute; reflexivity).
    rewrite Hc in Hin. apply list_elem_of_singleton in Hin. injection Hin as -> ->.
    apply H2. reflexivity.
  - intros i Hi. vm_compute in Hi. discriminate Hi.
Defined.



(** C7, counterexample. Stride 2 and [max_retained_files = 0]: appending
    block 2 rotates the log (the files are renamed, the new live log starts
    at block 3), and the catalog records no segment.  Stride 3 in a
    directory whose catalog retains the segment 1-2, the live log reset to
    start at block 1 again: appending block 3 rotates the log into
    blocks-1-3, and the catalog still holds the segment 1-2 under the key 1
    and nothing about the segment 1-3. *)
Lemma append_rotation_unregistered :
  (stride (Toy.log_after_reset 2 0 (Toy.B 1)) = 2 ∧ block_num (Toy.B 2) = 2 ∧
   fst (append (Toy.B 2) 0 (Toy.log_after_reset 2 0 (Toy.B 1))) = Ok 51 ∧
   is_Some (fs (snd (append (Toy.B 2) 0 (Toy.log_after_reset 2 0 (Toy.B 1))))
              !! "d/blocks-1-2.log"%string) ∧
   first_block_num (preamble (snd (append (Toy.B 2) 0 (Toy.log_after_reset 2 0 (Toy.B 1)))))
   = 3 ∧
   collection (catalog (snd (append (Toy.B 2) 0 (Toy.log_after_reset 2 0 (Toy.B 1))))) = []) ∧
  (stride Toy.log_reset_over_s2 = 3 ∧ block_num (Toy.B 3) = 3 ∧
   max_retained_files (catalog Toy.log_reset_over_s2) = 10 ∧
   first_block_num (preamble Toy.log_reset_over_s2) = 1 ∧
   fst (append (Toy.B 3) 0 Toy.log_reset_over_s2) = Ok 85 ∧
   is_Some (fs (snd (append (Toy.B 3) 0 Toy.log_reset_over_s2))
              !! "d/blocks-1-3.log"%string) ∧
   first_block_num (preamble (snd (append (Toy.B 3) 0 Toy.log_reset_over_s2))) = 4 ∧
   collection (catalog (snd (append (Toy.B 3) 0 Toy.log_reset_over_s2)))
   = [(1, {| last_block_num_of := 2;
             filename_base := {| parent_path := "d"; filename := "blocks-1-2" |} |})]).
Proof.
  split.
  - split; [reflexivity|]. split; [reflexivity|].
    split; [vm_compute; reflexivity|].
    split; [vm_compute; eexists; reflexivity|].
    split; vm_compute; reflexivity.
  - split; [reflexivity|]. split; [reflexivity|].
    split; [reflexivity|]. split; [vm_compute; reflexivity|].
    split; [vm_compute; reflexivity|].
    split; [vm_compute; eexists; reflexivity|].
    split; vm_compute; reflexivity.
Qed.

(** ** Further properties at work *)

Lemma toy_block_codec_1 tail :
  block_unpack (block_pack (Toy.B 1) ++ tail)
  = Some (Toy.B 1, length (block_pack (Toy.B 1))).
Proof. reflexivity. Qed.

Lemma toy_block_codec_2 tail :
  block_unpack (block_pack (Toy.B 2) ++ tail)
  = Some (Toy.B 2, length (block_pack (Toy.B 2))).
Proof. reflexivity. Qed.

Lemma toy_genesis_codec (g : byte) tail :
  genesis_unpack (genesis_pack g ++ tail) = Some (g, length (genesis_pack g)).
Proof. reflexivity. Qed.

(** the stride of the small log, 1000, does not divide 2 *)
Lemma toy_stride : stride Toy.log1 ≠ 0.
Proof. vm_compute. discriminate. Qed.

Lemma toy_no_rotation : block_num (Toy.B 2) mod stride Toy.log1 ≠ 0.
Proof. vm_compute. discriminate. Qed.

Lemma toy_ready_to_append :
  ready_to_append Toy.log1 (Toy.B 2) 0 Toy.log1_log Toy.log1_index Toy.B2_entry.
Proof.
  unfold ready_to_append.
  split; [vm_compute; reflexivity|]. split; [vm_compute; reflexivity|].
  split; [vm_compute; reflexivity|]. split; [vm_compute; discriminate|].
  split; vm_compute; reflexivity.
Qed.

(** the preamble of a version-4 log that starts at block 1 *)
Lemma block_log_data_open_written_witness :
  read_from {| ds_buf := Toy.preamble1_bytes ++ drop 17 Toy.log1_log; ds_pos := 0 |}
  = Ok (Toy.preamble1,
        {| ds_buf := Toy.preamble1_bytes ++ drop 17 Toy.log1_log; ds_pos := 17 |}) ∧
  block_log_data_open (fs Toy.log1) "d/blocks.log"
  = Ok {| log_file := Toy.preamble1_bytes ++ drop 17 Toy.log1_log;
          log_preamble := Toy.preamble1; first_block_pos := 17 |} ∧
  extract_chain_id (fs Toy.log1) "d" = Ok (replicate 32 Toy.genesis).
Proof.
  destruct (block_log_data_open_written (CL := Toy.toy_chain) (fs Toy.log1) "d" Toy.preamble1
              Toy.preamble1_bytes (drop 17 Toy.log1_log))
    as (Hread & Hopen & _ & Hid).
  - reflexivity.
  - cbn. lia.
  - cbn. lia.
  - discriminate.
  - intros g [= <-]. split; [reflexivity|]. apply toy_genesis_codec.
  - discriminate.
  - vm_compute. reflexivity.
  - split; [exact Hread|]. split; [exact Hopen|exact Hid].
Defined.

(** a stream that starts with version 0 *)
Lemma read_from_rejects_witness :
  read_from {| ds_buf := zeros 4; ds_pos := 0 |} = Throw not_setup.
Proof.
  destruct (read_from_rejects (CL := Toy.toy_chain) {| ds_buf := zeros 4; ds_pos := 0 |} 0
              {| ds_buf := zeros 4; ds_pos := 4 |} eq_refl) as [Hzero _].
  exact (Hzero eq_refl).
Defined.

(** the entry of block 2, packed behind the log of block 1 *)
Lemma unpack_what_pack_wrote_witness :
  unpack {| ds_buf := Toy.log1_log ++ Toy.B2_entry ++ []; ds_pos := Zlength' Toy.log1_log |}
  = Ok ({| meta_compression := cf_compression_none;
           meta_size := Zlength' Toy.B2_entry + 8 |}, Toy.B 2,
        ds_skip (Zlength' Toy.B2_entry)
          {| ds_buf := Toy.log1_log ++ Toy.B2_entry ++ [];
             ds_pos := Zlength' Toy.log1_log |}).
Proof.
  destruct (unpack_what_pack_wrote (CL := Toy.toy_chain) (Toy.B 2) 0 Toy.B2_entry
              Toy.log1_log []) as [Hnone _].
  - reflexivity.
  - vm_compute. reflexivity.
  - lia.
  - apply toy_block_codec_2.
  - exact (Hnone eq_refl).
Defined.

(** block 2 appended to the log of block 1: the entry starts at 51 *)
Lemma append_appends_witness :
  ∃ s1 L' I',
    append (Toy.B 2) 0 Toy.log1 = (Ok (Zlength' Toy.log1_log), s1) ∧
    L' = Toy.log1_log ++ Toy.B2_entry ++ le_encode 8 (Zlength' Toy.log1_log) ∧
    I' = Toy.log1_index ++ le_encode 8 (Zlength' Toy.log1_log) ∧
    fs s1 = <[file_path (index_file Toy.log1) := I']>
              (<[file_path (block_file Toy.log1) := L']> (fs Toy.log1)) ∧
    head s1 = Some (Toy.B 2) ∧ preamble s1 = preamble Toy.log1 ∧
    catalog s1 = catalog Toy.log1 ∧
    read_buffer 8 L' (Zlength' L' - 8) = Ok (Zlength' Toy.log1_log) ∧
    index_back {| index_file_data := I' |} = Ok (Zlength' Toy.log1_log).
Proof.
  apply (append_appends (CL := Toy.toy_chain) (Toy.B 2) 0 Toy.log1 Toy.log1_log
           Toy.log1_index Toy.B2_entry toy_ready_to_append toy_stride toy_no_rotation).
  vm_compute. reflexivity.
Defined.


(** the position of block 1 is the same before and after block 2 is appended *)
Lemma append_keeps_positions_witness :
  ∃ s1 pos,
    append (Toy.B 2) 0 Toy.log1 = (Ok (Zlength' Toy.log1_log), s1) ∧
    fst (get_block_pos 1 Toy.log1) = Ok pos ∧
    fst (get_block_pos 1 s1) = Ok pos.
Proof.
  apply (append_keeps_positions (CL := Toy.toy_chain) (Toy.B 2) 0 Toy.log1 Toy.log1_log
           Toy.log1_index Toy.B2_entry (Toy.B 1) 1 toy_ready_to_append toy_stride toy_no_rotation).
  - reflexivity.
  - vm_compute. split; discriminate.
  - vm_compute. discriminate.
  - vm_compute. discriminate.
Defined.

Lemma run_Ok_snd {S A} (m : M S A) s a : fst (m s) = Ok a → m s = (Ok a, snd (m s)).
Proof. destruct (m s) as [r s']. cbn. intros ->. reflexivity. Qed.

Lemma s2_collection :
  collection (catalog Toy.log_s2)
  = [(1, {| last_block_num_of := 2;
            filename_base := {| parent_path := "d"; filename := "blocks-1-2" |} |})].
Proof. vm_compute. reflexivity. Qed.

(** scenario S2: block 7 is in neither the live log nor the segment 1-2 *)
Lemma read_block_by_num_absent_witness :
  read_block_by_num 7 Toy.log_s2 = (Ok None, Toy.log_s2).
Proof.
  apply (read_block_by_num_absent (CL := Toy.toy_chain) Toy.log_s2 7).
  - intros Hin. vm_compute in Hin. destruct Hin as [_ Hle]. apply Hle. reflexivity.
  - intros (first & item & Hin & H1 & H2).
    rewrite s2_collection in Hin. apply list_elem_of_singleton in Hin. injection Hin as -> ->.
    apply H2. reflexivity.
  - intros i Hi. vm_compute in Hi. discriminate Hi.
Defined.


Lemma one_retained_collection :
  collection (catalog Toy.log_one_retained)
  = [(1, {| last_block_num_of := 2;
            filename_base := {| parent_path := "d"; filename := "blocks-1-2" |} |})].
Proof. vm_compute. reflexivity. Qed.

(** one file retained, the segment 1-2 in the catalog: adding the segment
    3-4 evicts it *)
Lemma catalog_add_retains_witness :
  ∃ fs2 c',
    catalog_add 3 4 {| parent_path := "d"; filename := "blocks-3-4" |}
      (fs Toy.log_one_retained, catalog Toy.log_one_retained) = (Ok tt, (fs2, c')) ∧
    Z.of_nat (length (collection c')) ≤ Z.max 0 (max_retained_files (catalog Toy.log_one_retained)) ∧
    max_retained_files c' = max_retained_files (catalog Toy.log_one_retained).
Proof.
  set (c := catalog Toy.log_one_retained).
  set (evict := evict_files (archive_dir c) (take (items_to_erase c) (collection c))).
  destruct (catalog_add_retains (CL := Toy.toy_chain) (fs Toy.log_one_retained)
              (snd (evict (fs Toy.log_one_retained))) c 3 4
              {| parent_path := "d"; filename := "blocks-3-4" |})
    as (c' & Hrun & Hlen & _ & Hmax & _).
  - apply run_Ok_snd. vm_compute. reflexivity.
  - intros k v Hin. unfold c in Hin. rewrite one_retained_collection in Hin.
    apply list_elem_of_singleton in Hin. injection Hin as -> _. lia.
  - eauto.
Defined.

Lemma catalog_add_deletes_witness :
  ∃ fs' c',
    catalog_add 3 4 {| parent_path := "d"; filename := "blocks-3-4" |}
      (fs Toy.log_one_retained, catalog Toy.log_one_retained) = (Ok tt, (fs', c')) ∧
    fs' !! "d/blocks-1-2.log"%string = None ∧
    fs' !! "d/blocks.log"%string = fs Toy.log_one_retained !! "d/blocks.log"%string.
Proof.
  destruct (catalog_add_deletes (CL := Toy.toy_chain) (fs Toy.log_one_retained)
              (catalog Toy.log_one_retained) 3 4
              {| parent_path := "d"; filename := "blocks-3-4" |})
    as (fs' & c' & Hrun & _ & Hfiles).
  - vm_compute. reflexivity.
  - exists fs', c'. split; [exact Hrun|]. rewrite !Hfiles. split.
    + rewrite bool_decide_eq_true_2; [reflexivity|]. vm_compute. left.
    + rewrite bool_decide_eq_false_2; [reflexivity|]. vm_compute. intros Hin.
      repeat (apply elem_of_cons in Hin as [Hin|Hin]; [discriminate Hin|]).
      apply elem_of_nil in Hin. exact Hin.
Defined.

Lemma log3_chain :
  back_chain (log_file Toy.log3_data) (first_block_pos Toy.log3_data) (log_size Toy.log3_data)
    (rev [17; 51; 85]).
Proof.
  cbn [rev app back_chain].
  repeat (split; [vm_compute; first [reflexivity | discriminate]|]).
  vm_compute. reflexivity.
Qed.

(** the index of the blocks 1 to 3, built from the log *)
Lemma construct_index_rebuilds_witness :
  construct_index "d/blocks.log" "d/blocks.index" (fs Toy.log3)
  = (Ok tt, <["d/blocks.index"%string := index_of_positions [17; 51; 85]]> (fs Toy.log3)).
Proof.
  apply (construct_index_rebuilds (CL := Toy.toy_chain) (fs Toy.log3) "d/blocks.log"
           "d/blocks.index" Toy.log3_data [17; 51; 85]).
  - exact log3_data_is_the_view.
  - vm_compute. discriminate.
  - vm_compute. reflexivity.
  - exact log3_chain.
  - vm_compute. reflexivity.
Defined.

Lemma append_extends_chain_witness :
  ∃ s1 L' I',
    append (Toy.B 2) 0 Toy.log1 = (Ok (Zlength' Toy.log1_log), s1) ∧
    fs s1 !! file_path (block_file Toy.log1) = Some L' ∧
    fs s1 !! file_path (index_file Toy.log1) = Some I' ∧
    back_chain L' 17 (Zlength' L') [Zlength' Toy.log1_log; 17] ∧
    I' = index_of_positions (rev [Zlength' Toy.log1_log; 17]).
Proof.
  apply (append_extends_chain (CL := Toy.toy_chain) (Toy.B 2) 0 Toy.log1 Toy.log1_log
           Toy.log1_index Toy.B2_entry 17 [17] toy_ready_to_append toy_stride toy_no_rotation).
  - vm_compute. split; [discriminate|reflexivity].
  - cbn [back_chain]. repeat (split; [vm_compute; first [reflexivity | discriminate]|]).
    reflexivity.
  - vm_compute. reflexivity.
Defined.

(** the log of block 1 reset to start at block 5 under a chain id: with
    version 1 the version is written and [write_to] throws; with version 4
    the log holds the preamble; first block 1 is refused, the log untouched *)
Lemma reset_chain_id_spec_witness :
  (∃ s', reset_chain_id 1 Toy.id7 5 Toy.log1
         = (Throw (Exn bad_variant_access "std::get<genesis_state>"), s') ∧
         fs s' !! "d/blocks.log"%string = Some (le_encode 4 1) ∧
         fs s' !! "d/blocks.index"%string = Some [] ∧
         head s' = Some (Toy.B 1)) ∧
  (∃ s', reset_chain_id 4 Toy.id7 5 Toy.log1 = (Ok tt, s') ∧
         fs s' !! "d/blocks.log"%string = Some Toy.preamble5_bytes ∧
         fs s' !! "d/blocks.index"%string = Some [] ∧
         head s' = None) ∧
  reset_chain_id 4 Toy.id7 1 Toy.log1 = (Throw reset_needs_genesis, Toy.log1).
Proof.
  split; [|split].
  - destruct (reset_chain_id_spec (CL := Toy.toy_chain) 1 Toy.id7 5 Toy.log1)
      as (_ & _ & Hreset).
    destruct (Hreset ltac:(lia) (or_introl eq_refl)) as [Hfirst _].
    destruct (Hfirst eq_refl) as (e & s' & Hrun & -> & Hfs & Hhead).
    exists s'. split; [exact Hrun|]. rewrite Hfs. split; [|split].
    + rewrite lookup_insert_eq. reflexivity.
    + rewrite lookup_insert_ne by (vm_compute; discriminate).
      rewrite lookup_insert_eq. reflexivity.
    + rewrite Hhead. vm_compute. reflexivity.
  - destruct (reset_chain_id_spec (CL := Toy.toy_chain) 4 Toy.id7 5 Toy.log1)
      as (_ & _ & Hreset).
    destruct (Hreset ltac:(lia) (or_introl eq_refl)) as [_ Hlater].
    destruct (Hlater ltac:(discriminate)) as (s' & Hrun & Hfs & _ & Hhead & _).
    exists s'. split; [exact Hrun|]. rewrite Hfs. split; [|split].
    + rewrite lookup_insert_eq. reflexivity.
    + rewrite lookup_insert_ne by (vm_compute; discriminate).
      rewrite lookup_insert_eq. reflexivity.
    + exact Hhead.
  - destruct (reset_chain_id_spec (CL := Toy.toy_chain) 4 Toy.id7 1 Toy.log1)
      as (Hrefused & _).
    apply Hrefused. lia.
Defined.

(** the log of a new block log, reset with the genesis state and block 1 *)
Lemma reset_genesis_spec_witness :
  ∃ s',
    reset_genesis 4 Toy.genesis (Toy.B 1) 0 (new_block_log (CL := Toy.toy_chain) Toy.default_genesis "d" None 1000 10) = (Ok tt, s') ∧
    head s' = Some (Toy.B 1) ∧ preamble s' = Toy.preamble1 ∧
    fs s' !! "d/blocks.log"%string = Some Toy.log1_log ∧
    fs s' !! "d/blocks.index"%string = Some Toy.log1_index.
Proof.
  destruct (reset_genesis_spec (CL := Toy.toy_chain) 4 Toy.genesis (Toy.B 1) 0
              (new_block_log (CL := Toy.toy_chain) Toy.default_genesis "d" None 1000 10) Toy.B1_entry)
    as (bytes & Hbytes & _ & Hok).
  - vm_compute. discriminate.
  - vm_compute. reflexivity.
  - assert (bytes = Toy.preamble1_bytes) as -> by (apply Ok_inj; rewrite <- Hbytes; reflexivity).
    destruct Hok as (s' & Hrun & Hfs & Hhead & Hpre & _).
    + vm_compute. reflexivity.
    + vm_compute. discriminate.
    + vm_compute. discriminate.
    + exists s'. split; [exact Hrun|]. split; [exact Hhead|]. split; [exact Hpre|].
      rewrite Hfs. split.
      * rewrite lookup_insert_ne by (vm_compute; discriminate).
        rewrite lookup_insert_eq. reflexivity.
      * rewrite lookup_insert_eq. reflexivity.
Defined.




(** a directory that holds only the log [reset] with a chain id wrote *)
Lemma block_log_impl_open_after_reset_witness :
  ∃ s',
    block_log_impl_open "" 1000 10 []
      (block_log_impl_initial (CL := Toy.toy_chain) Toy.default_genesis {[ "d/blocks.log"%string := Toy.preamble5_bytes ]} "d") = (Ok tt, s') ∧
    fs s' !! "d/blocks.index"%string = Some [] ∧
    fs s' !! "d/blocks.log"%string = Some Toy.preamble5_bytes ∧
    head s' = None ∧ preamble s' = Toy.preamble5.
Proof.
  set (files := ({[ "d/blocks.log"%string := Toy.preamble5_bytes ]} : file_system)).
  destruct (block_log_impl_open_after_reset (CL := Toy.toy_chain) "" 1000 10 []
              (block_log_impl_initial (CL := Toy.toy_chain) Toy.default_genesis files "d") files
              (catalog (block_log_impl_initial (CL := Toy.toy_chain) Toy.default_genesis files "d"))
              Toy.preamble5 Toy.preamble5_bytes)
    as (s' & Hrun & Hfs & Hhead & Hp & _).
  - reflexivity.
  - vm_compute. discriminate.
  - reflexivity.
  - vm_compute. split; discriminate.
  - vm_compute. split; [discriminate|reflexivity].
  - intros g Hg. discriminate Hg.
  - intros id Hid. split; [reflexivity|]. injection Hid as <-. reflexivity.
  - reflexivity.
  - left. reflexivity.
  - left. reflexivity.
  - exists s'. split; [exact Hrun|]. rewrite Hfs, Hhead, Hp.
    split; [apply lookup_insert_eq|]. split; [reflexivity|]. split; reflexivity.
Defined.

(** the log of three blocks with an index whose second slot points behind
    the end of the log: the new log cannot hold the preamble, the call
    throws, and the log and the index of the directory are as they were *)
Lemma trim_blocklog_front_failure_keeps_files_witness :
  let files : file_system :=
    <["d/blocks.index"%string := write_at Toy.log3_index 8 (le_encode 8 129)]> (fs Toy.log3) in
  fst (trim_blocklog_front "d" "t" 2 files) = Throw stream_range_error ∧
  snd (trim_blocklog_front "d" "t" 2 files) !! "d/blocks.log"%string
    = files !! "d/blocks.log"%string ∧
  snd (trim_blocklog_front "d" "t" 2 files) !! "d/blocks.index"%string
    = files !! "d/blocks.index"%string.
Proof.
  intros files.
  assert (fst (trim_blocklog_front (CL := Toy.toy_chain) "d" "t" 2 files)
          = Throw stream_range_error) as Hr by (vm_compute; reflexivity).
  split; [exact Hr|].
  pose proof (trim_blocklog_front_failure_keeps_files (CL := Toy.toy_chain) "d" "t" 2 files
                (snd (trim_blocklog_front "d" "t" 2 files))
                (fst (trim_blocklog_front "d" "t" 2 files))
                (surjective_pairing _)
                ltac:(rewrite Hr; discriminate) ltac:(rewrite Hr; discriminate)) as Hkeep.
  split; apply Hkeep; intros E; vm_compute in E; discriminate E.
Defined.

(** the log of the blocks 1 to 3 trimmed at block 2: the entries of the
    blocks 2 and 3 stand at 48 and 82 *)
Lemma trim_blocklog_front_trims_witness :
  ∃ files',
    trim_blocklog_front "d" "t" 2 (fs Toy.log3) = (Ok true, files') ∧
    files' !! "d/blocks.index"%string = Some (le_encode 8 48 ++ le_encode 8 82) ∧
    files' !! "t/old.log"%string = Some Toy.log3_log ∧
    files' !! "t/blocks.log"%string = None.
Proof.
  destruct (trim_blocklog_front_trims (CL := Toy.toy_chain) "d" "t" 2 (fs Toy.log3)
              Toy.log3_data Toy.preamble1_bytes Toy.log3_payloads 3)
    as (files' & Hrun & _ & Hip & Holog & _ & Htlog & _).
  - discriminate.
  - reflexivity.
  - vm_compute. reflexivity.
  - reflexivity.
  - vm_compute. reflexivity.
  - vm_compute. reflexivity.
  - reflexivity.
  - vm_compute. discriminate.
  - vm_compute. split; [reflexivity|discriminate].
  - vm_compute. reflexivity.
  - reflexivity.
  - exists files'. split; [exact Hrun|]. split; [exact Hip|]. split; [exact Holog|exact Htlog].
Defined.

(** scenario S2: block 1 lies in the retained segment 1-2, not in the
    live log, and cannot be pruned *)
Lemma prune_transactions_rejects_witness :
  (∃ first item, (first, item) ∈ collection (catalog Toy.log_s2) ∧
                 first ≤ 1 ≤ last_block_num_of item) ∧
  ∃ what, prune_transactions 1 [Toy.T1] Toy.log_s2
          = (Throw (Exn block_log_exception what), Toy.log_s2).
Proof.
  split.
  - eexists _, _. rewrite s2_collection. split; [apply list_elem_of_singleton; reflexivity|].
    cbn. lia.
  - destruct (prune_transactions_rejects (CL := Toy.toy_chain) Toy.log_s2 1 [Toy.T1])
      as (what & Hrun & _).
    + right. intros Hin. vm_compute in Hin. destruct Hin as [Hle _]. apply Hle. reflexivity.
    + exists what. exact Hrun.
Defined.



(** two entries where the block numbers 1 to 3 promise three: the index is
    left with a zero slot and the two positions *)
Lemma construct_index_short_witness :
  ∃ what,
    construct_index "d/blocks.log" "d/blocks.index"
      ({[ "d/blocks.log"%string := Toy.short_log ]} : file_system)
    = (Throw (Exn block_log_exception what),
       <["d/blocks.index"%string := zeros 8 ++ le_encode 8 17 ++ le_encode 8 51]>
         ({[ "d/blocks.log"%string := Toy.short_log ]} : file_system)).
Proof.
  destruct (construct_index_short (CL := Toy.toy_chain)
              ({[ "d/blocks.log"%string := Toy.short_log ]} : file_system)
              "d/blocks.log" "d/blocks.index"
              {| log_file := Toy.short_log; log_preamble := Toy.preamble1; first_block_pos := 17 |}
              [17; 51] 3) as (what & Hrun).
  - reflexivity.
  - cbn. lia.
  - vm_compute. reflexivity.
  - cbn [rev app back_chain]. repeat split; try (vm_compute; first [reflexivity|discriminate]).
  - reflexivity.
  - cbn. lia.
  - exists what. exact Hrun.
Defined.

(** the entry of block 2 in the log of three blocks, at position 51 *)
Lemma light_validate_written_entry_witness :
  light_validate_block_entry_at Toy.log3_data 51 2 = Ok tt.
Proof.
  pose proof (light_validate_written_entry (CL := Toy.toy_chain) Toy.log3_data
                (take 51 Toy.log3_log) (Toy.B 2) 0 Toy.B2_entry (drop 85 Toy.log3_log) 1 2) as H.
  apply H.
  - vm_compute. reflexivity.
  - vm_compute. reflexivity.
  - vm_compute. lia.
  - vm_compute. reflexivity.
  - vm_compute. reflexivity.
  - vm_compute. reflexivity.
Defined.
